(** * Tower-jump analyzer: a shallow embedding of [src/processor.py] and
    [src/test.py], and the properties of the interval segmenter, the
    classifier and the state imputer.

    Conventions of the embedding.
    - A Python [datetime] is the number of seconds since a fixed origin, a [Z]
      (both accepted formats have a resolution of a minute or a second);
      a value that may be [None] is an [option].
    - Python floats (coordinates, confidence, thresholds) are exact rationals
      [Q]: the comparisons and divisions of the source are evaluated without
      rounding error.
    - An exception is a value of [exn]; code that can raise lives in the
      [result] monad.
    - A [Counter] is an association list in first-seen order, which is the
      order [most_common] uses to break ties. *)

From Stdlib Require Import ZArith QArith Qround Lia.
From Stdlib Require Import String Ascii List Permutation Sorted.
From stdpp Require Import base list gmap strings.

Local Open Scope string_scope.
Local Open Scope list_scope.
Local Open Scope nat_scope.

(** ** Python library functions used by both programs *)
Module Py.

Inductive exn : Type := TypeError | IndexError | KeyError | ValueError.

Inductive result (A : Type) : Type :=
| Ok (a : A)
| Raise (e : exn).
Arguments Ok {A} a.
Arguments Raise {A} e.

Definition bind {A B} (m : result A) (k : A -> result B) : result B :=
  match m with
  | Ok a => k a
  | Raise e => Raise e
  end.

(** [try: m except ValueError/KeyError: h] *)
Definition catch {A} (handled : exn -> bool) (m : result A) (h : result A)
  : result A :=
  match m with
  | Ok a => Ok a
  | Raise e => if handled e then h else Raise e
  end.

(** Truth value of a [str]: non-empty. *)
Definition truthy (s : string) : bool :=
  match s with
  | EmptyString => false
  | String _ _ => true
  end.

(** [str.isspace] on the ASCII range. *)
Definition isspace (c : ascii) : bool :=
  let n := nat_of_ascii c in
  ((9 <=? n)%nat && (n <=? 13)%nat)
  || ((28 <=? n)%nat && (n <=? 32)%nat).

Fixpoint lstrip (s : string) : string :=
  match s with
  | EmptyString => EmptyString
  | String c s' => if isspace c then lstrip s' else s
  end.

Fixpoint rstrip (s : string) : string :=
  match s with
  | EmptyString => EmptyString
  | String c s' =>
      match rstrip s' with
      | EmptyString => if isspace c then EmptyString else String c EmptyString
      | t => String c t
      end
  end.

(** [s.strip()] *)
Definition strip (s : string) : string := rstrip (lstrip s).

(** [c[k] += 1] on a counter kept in first-seen order. *)
Fixpoint counter_incr (k : string) (c : list (string * nat))
  : list (string * nat) :=
  match c with
  | [] => [(k, 1%nat)]
  | (k', n) :: c' =>
      if decide (k = k') then (k', S n) :: c'
      else (k', n) :: counter_incr k c'
  end.

(** [Counter(xs)] *)
Definition Counter (xs : list string) : list (string * nat) :=
  foldl (fun c k => counter_incr k c) [] xs.

(** [max(items, key=count)]: the first item among those of largest count. *)
Fixpoint max_by_count (best : string * nat) (c : list (string * nat))
  : string * nat :=
  match c with
  | [] => best
  | x :: c' => max_by_count (if (best.2 <? x.2)%nat then x else best) c'
  end.

(** [c.most_common(1)] *)
Definition most_common_1 (c : list (string * nat)) : list (string * nat) :=
  match c with
  | [] => []
  | x :: c' => [max_by_count x c']
  end.

(** [l[0]] *)
Definition item0 {A} (l : list A) : result A :=
  match l with
  | [] => Raise IndexError
  | x :: _ => Ok x
  end.

(** [l[-1]] *)
Definition item_last {A} (l : list A) : result A :=
  match last l with
  | None => Raise IndexError
  | Some x => Ok x
  end.

(** Nearest integer, ties to the even one. *)
Definition round_half_even (q : Q) : Z :=
  let f := Qfloor q in
  match (q - inject_Z f ?= 1 # 2)%Q with
  | Lt => f
  | Gt => (f + 1)%Z
  | Eq => if Z.even f then f else (f + 1)%Z
  end.

(** [round(q, ndigits)] counted in units of [10 ^ -ndigits]. *)
Definition round_units (q : Q) (ndigits : positive) : Z :=
  round_half_even (q * inject_Z (Zpos (10 ^ ndigits)%positive)).

(** [round(q, ndigits)] *)
Definition round (q : Q) (ndigits : positive) : Q :=
  Qmake (round_units q ndigits) (10 ^ ndigits)%positive.

(** [a / b] on two [int]s. *)
Definition truediv (a b : nat) : Q :=
  (inject_Z (Z.of_nat a) / inject_Z (Z.of_nat b))%Q.

(** [a < b] on floats. *)
Definition Qltb (a b : Q) : bool := negb (Qle_bool b a).

End Py.

Import Py.

Declare Scope result_scope.
Delimit Scope result_scope with result.
Notation "x <- m ; k" := (bind m (fun x => k))
  (at level 100, m at next level, right associativity,
   format "'[v' x  <-  m ; '/' k ']'") : result_scope.
Local Open Scope result_scope.

(** ** [src/processor.py] *)
Module Processor.

(** A processed record, the dictionary built by [_process_row]. A [state]
    that is [None] (a short CSV row) behaves as the empty string everywhere
    it is read, and is represented by it. *)
Record record_dict : Type := {
  page : Z;
  item : Z;
  utc_datetime : option Z;
  local_datetime : option Z;
  latitude : Q;
  longitude : Q;
  timezone : string;
  city : string;
  county : string;
  state : string;
  country : string;
  cell_type : string
}.

(** [record["state"] = s] *)
Definition set_state (r : record_dict) (s : string) : record_dict :=
  {| page := page r; item := item r;
     utc_datetime := utc_datetime r; local_datetime := local_datetime r;
     latitude := latitude r; longitude := longitude r;
     timezone := timezone r; city := city r; county := county r;
     state := s;
     country := country r; cell_type := cell_type r |}.

(** The object [TowerJumpAnalyzer]. *)
Record TowerJumpAnalyzer : Type := {
  filename : string;
  data : list record_dict;
  time_window_minutes : Q;
  min_confidence : Q
}.

(** [__init__] *)
Definition init (filename : string) : TowerJumpAnalyzer :=
  {| filename := filename; data := [];
     time_window_minutes := 5; min_confidence := 6 # 10 |}.

Definition set_data (self : TowerJumpAnalyzer) (d : list record_dict)
  : TowerJumpAnalyzer :=
  {| filename := filename self; data := d;
     time_window_minutes := time_window_minutes self;
     min_confidence := min_confidence self |}.

(** *** Loading *)
Section Loading.
(** The library functions the loader calls: [datetime.strptime dt_str fmt]
    ([None] for its [ValueError]), [float] and [int]. *)
Variable strptime : string -> string -> option Z.
Variable float : string -> option Q.
Variable int : string -> option Z.

(** A row of [csv.DictReader]: column name to cell. *)
Definition csv_row : Type := gmap string string.

(** [row[k]] *)
Definition getitem (row : csv_row) (k : string) : result string :=
  match row !! k with
  | Some v => Ok v
  | None => Raise KeyError
  end.

Definition or_value_error {A} (o : option A) : result A :=
  match o with
  | Some a => Ok a
  | None => Raise ValueError
  end.

Definition _parse_datetime (dt_str : string) : option Z :=
  match strptime dt_str "%m/%d/%y %H:%M" with
  | Some t => Some t
  | None =>
      match strptime dt_str "%Y-%m-%d %H:%M:%S" with
      | Some t => Some t
      | None => None
      end
  end.

(** [float(row[k]) if row[k] else 0.0] *)
Definition coordinate (row : csv_row) (k : string) : result Q :=
  c <- getitem row k;
  if truthy c then or_value_error (float c) else Ok 0%Q.

(** The exceptions [_process_row] handles. *)
Definition value_or_key_error (e : exn) : bool :=
  match e with
  | ValueError | KeyError => true
  | _ => false
  end.

Definition _process_row (row : csv_row) : result (option record_dict) :=
  catch value_or_key_error
    (utc_s <- getitem row "UTCDateTime";
     let utc_dt := _parse_datetime utc_s in
     local_s <- getitem row "LocalDateTime";
     let local_dt := _parse_datetime local_s in
     lat <- coordinate row "Latitude";
     lon <- coordinate row "Longitude";
     page_s <- getitem row "Page";
     page <- or_value_error (int page_s);
     item_s <- getitem row "Item";
     item <- or_value_error (int item_s);
     timezone <- getitem row "TimeZone";
     city <- getitem row "City";
     county <- getitem row "County";
     state <- getitem row "State";
     country <- getitem row "Country";
     cell_type <- getitem row "CellType";
     Ok (Some {| page := page; item := item;
                 utc_datetime := utc_dt; local_datetime := local_dt;
                 latitude := lat; longitude := lon;
                 timezone := timezone; city := city; county := county;
                 state := state; country := country;
                 cell_type := cell_type |}))
    (Ok None).

(** [load_data], on the rows the reader yields. *)
Fixpoint load_rows (rows : list csv_row) (data : list record_dict)
  : result (list record_dict) :=
  match rows with
  | [] => Ok data
  | row :: rows' =>
      processed_row <- _process_row row;
      match processed_row with
      | Some r => load_rows rows' (data ++ [r])%list
      | None => load_rows rows' data
      end
  end.

Definition load_data (self : TowerJumpAnalyzer) (rows : list csv_row)
  : result TowerJumpAnalyzer :=
  d <- load_rows rows (data self);
  Ok (set_data self d).
End Loading.

(** *** Imputation of missing states *)

(** [x != 0] *)
Definition nonzero (x : Q) : bool := negb (Qeq_bool x 0).

(** [(round(record["latitude"], 3), round(record["longitude"], 3))], each
    component counted in thousandths. *)
Definition coord_key (record : record_dict) : Z * Z :=
  (round_units (latitude record) 3, round_units (longitude record) 3).

(** The test of the first loop: a state that is neither empty nor blank, and
    both coordinates different from zero. *)
Definition has_known_state (record : record_dict) : bool :=
  truthy (state record) && truthy (strip (state record))
  && nonzero (latitude record) && nonzero (longitude record).

(** Body of the first loop: the state of [record] is appended to the list
    of its rounded coordinates. *)
Definition collect_step (coord_to_state : gmap (Z * Z) (list string))
    (record : record_dict) : gmap (Z * Z) (list string) :=
  if has_known_state record then
    let k := coord_key record in
    <[k := default [] (coord_to_state !! k) ++ [state record]]> coord_to_state
  else coord_to_state.

(** First loop: the states seen at each rounded coordinate, in order. *)
Definition collect_states (data : list record_dict)
  : gmap (Z * Z) (list string) :=
  foldl collect_step ∅ data.

(** [Counter(states).most_common(1)[0][0]] *)
Definition most_common_state (states : list string) : result string :=
  x <- item0 (most_common_1 (Counter states));
  Ok x.1.

(** Second loop: every list of states is replaced by its most common one. *)
Definition most_common_states (coord_to_state : gmap (Z * Z) (list string))
  : result (gmap (Z * Z) string) :=
  map_fold (fun coord states acc =>
              m <- acc;
              s <- most_common_state states;
              Ok (<[coord := s]> m)) (Ok ∅) coord_to_state.

(** The test of the third loop. *)
Definition state_missing (record : record_dict) : bool :=
  negb (truthy (state record)) || negb (truthy (strip (state record))).

(** Body of the third loop. *)
Definition fill_record (coord_to_state : gmap (Z * Z) string)
    (record : record_dict) : record_dict :=
  if state_missing record then
    if nonzero (latitude record) && nonzero (longitude record) then
      match coord_to_state !! coord_key record with
      | Some s => set_state record s
      | None => record
      end
    else record
  else record.

Definition fill_missing_states (self : TowerJumpAnalyzer)
  : result TowerJumpAnalyzer :=
  coord_to_state <- most_common_states (collect_states (data self));
  Ok (set_data self (map (fill_record coord_to_state) (data self))).

(** *** Segmentation and classification *)

(** The interval in progress. *)
Record interval : Type := {
  iv_start_time : option Z;
  iv_end_time : option Z;
  iv_states : list string;
  iv_records : list record_dict
}.

(** A row of the report. *)
Record interval_result : Type := {
  start_time : option Z;
  end_time : option Z;
  res_state : string;
  is_tower_jump : string;
  confidence_percentage : Q;
  total_records : nat;
  states_count : list (string * nat)
}.

(** [a < b] on two [utc_datetime] keys: [None] cannot be ordered. *)
Definition key_lt (a b : option Z) : result bool :=
  match a, b with
  | Some x, Some y => Ok (x <? y)%Z
  | _, _ => Raise TypeError
  end.

(** Stable insertion of [record] in front of an ordered list. *)
Fixpoint insert_by_time (record : record_dict) (l : list record_dict)
  : result (list record_dict) :=
  match l with
  | [] => Ok [record]
  | x :: l' =>
      b <- key_lt (utc_datetime x) (utc_datetime record);
      if b then (l'' <- insert_by_time record l'; Ok (x :: l''))
      else Ok (record :: x :: l')
  end.

(** [sorted(data, key=lambda x: x["utc_datetime"])]: a stable sort that
    compares keys with [<]. *)
Fixpoint sorted_by_time (data : list record_dict) : result (list record_dict) :=
  match data with
  | [] => Ok []
  | record :: data' =>
      s <- sorted_by_time data';
      insert_by_time record s
  end.

(** [(a - b).total_seconds() / 60] *)
Definition minutes_between (a b : option Z) : result Q :=
  match a, b with
  | Some x, Some y => Ok (inject_Z (x - y) / 60)%Q
  | _, _ => Raise TypeError
  end.

Definition _process_interval (self : TowerJumpAnalyzer) (interval : interval)
  : result interval_result :=
  let state_counter := Counter (iv_states interval) in
  let total_records := length (iv_states interval) in
  mc <- item0 (most_common_1 state_counter);
  let most_common_state := mc.1 in
  let count := mc.2 in
  let confidence := truediv count total_records in
  let jump :=
    (1 <? length state_counter)%nat && Qltb confidence (min_confidence self) in
  Ok {| start_time := iv_start_time interval;
        end_time := iv_end_time interval;
        res_state := most_common_state;
        is_tower_jump := if jump then "yes" else "no";
        confidence_percentage := round (confidence * 100) 2;
        total_records := total_records;
        states_count := state_counter |}.

(** The interval opened by [record]. *)
Definition new_interval (record : record_dict) : interval :=
  {| iv_start_time := utc_datetime record;
     iv_end_time := utc_datetime record;
     iv_states := [state record];
     iv_records := [record] |}.

(** [record] added to the current interval. *)
Definition add_to_interval (current_interval : interval) (record : record_dict)
  : interval :=
  {| iv_start_time := iv_start_time current_interval;
     iv_end_time := utc_datetime record;
     iv_states := (iv_states current_interval ++ [state record])%list;
     iv_records := (iv_records current_interval ++ [record])%list |}.

(** The [for] loop of [analyze_tower_jumps], from the state
    [(current_interval, results)]. *)
Fixpoint analyze_loop (self : TowerJumpAnalyzer)
    (sorted_data : list record_dict)
    (current_interval : option interval) (results : list interval_result)
  : result (option interval * list interval_result) :=
  match sorted_data with
  | [] => Ok (current_interval, results)
  | record :: rest =>
      if state_missing record then
        analyze_loop self rest current_interval results
      else
        match current_interval with
        | None => analyze_loop self rest (Some (new_interval record)) results
        | Some cur =>
            time_diff <- minutes_between (utc_datetime record)
                           (iv_end_time cur);
            if Qle_bool time_diff (time_window_minutes self) then
              analyze_loop self rest (Some (add_to_interval cur record)) results
            else
              result <- _process_interval self cur;
              analyze_loop self rest (Some (new_interval record))
                (results ++ [result])%list
        end
  end.

Definition analyze_tower_jumps (self : TowerJumpAnalyzer)
  : result (list interval_result) :=
  sorted_data <- sorted_by_time (data self);
  st <- analyze_loop self sorted_data None [];
  match st.1 with
  | Some cur =>
      result <- _process_interval self cur;
      Ok (st.2 ++ [result])%list
  | None => Ok st.2
  end.

(** The intervals that the loop hands to [_process_interval], in order: the
    same loop with the closed interval itself recorded. *)
Fixpoint interval_loop (self : TowerJumpAnalyzer)
    (sorted_data : list record_dict)
    (current_interval : option interval) (closed : list interval)
  : result (option interval * list interval) :=
  match sorted_data with
  | [] => Ok (current_interval, closed)
  | record :: rest =>
      if state_missing record then
        interval_loop self rest current_interval closed
      else
        match current_interval with
        | None => interval_loop self rest (Some (new_interval record)) closed
        | Some cur =>
            time_diff <- minutes_between (utc_datetime record)
                           (iv_end_time cur);
            if Qle_bool time_diff (time_window_minutes self) then
              interval_loop self rest (Some (add_to_interval cur record)) closed
            else
              interval_loop self rest (Some (new_interval record))
                (closed ++ [cur])%list
        end
  end.

Definition closed_intervals (self : TowerJumpAnalyzer)
  : result (list interval) :=
  sorted_data <- sorted_by_time (data self);
  st <- interval_loop self sorted_data None [];
  match st.1 with
  | Some cur => Ok (st.2 ++ [cur])%list
  | None => Ok st.2
  end.

(** The part of [generate_report] before the report is written. *)
Definition generate_report (self : TowerJumpAnalyzer)
  : result (TowerJumpAnalyzer * list interval_result) :=
  self' <- fill_missing_states self;
  results <- analyze_tower_jumps self';
  Ok (self', results).

(** *** The summary of [main] *)






End Processor.

(** ** [src/test.py] *)
Module TestPy.

(** A row of the data frame, with the columns the analysis reads. A cell that
    pandas holds as NaN is [None]. *)
Record row : Type := {
  UTCDateTime : Z;
  Latitude : option Q;
  Longitude : option Q;
  State : option string
}.

(** [self.df.at[idx, "State"] = s] *)
Definition set_State (r : row) (s : string) : row :=
  {| UTCDateTime := UTCDateTime r; Latitude := Latitude r;
     Longitude := Longitude r; State := Some s |}.

(** The object [TowerJumpAnalyzer]. *)
Record TowerJumpAnalyzer : Type := {
  df : list row
}.

(** [pd.isna(x)] *)
Definition isna {A} (x : option A) : bool :=
  match x with
  | None => true
  | Some _ => false
  end.

(** [x != 0] on a cell: NaN is different from everything. *)
Definition ne_zero (x : option Q) : bool :=
  match x with
  | Some q => negb (Qeq_bool q 0)
  | None => true
  end.

(** [x == ""] on a cell. *)
Definition eq_empty (x : option string) : bool :=
  match x with
  | Some EmptyString => true
  | _ => false
  end.

(** The guard on the coordinates, the same in the first and the third loop. *)
Definition has_coordinates (row : TestPy.row) : bool :=
  negb (isna (Latitude row)) && ne_zero (Latitude row)
  && negb (isna (Longitude row)) && ne_zero (Longitude row).

(** [round(x, 4)] in ten-thousandths (a NaN never reaches it). *)
Definition round4 (x : option Q) : Z :=
  match x with
  | Some q => round_units q 4
  | None => 0
  end.

Definition coord_key (row : TestPy.row) : Z * Z :=
  (round4 (Latitude row), round4 (Longitude row)).

(** Body of the first loop of [_fill_missing_locations]. *)
Definition collect_step (coord_state_map : gmap (Z * Z) (list string))
    (row : TestPy.row) : gmap (Z * Z) (list string) :=
  if has_coordinates row then
    let k := coord_key row in
    match State row with
    | Some s =>
        if negb (eq_empty (State row)) then
          <[k := default [] (coord_state_map !! k) ++ [s]]> coord_state_map
        else coord_state_map
    | None => coord_state_map
    end
  else coord_state_map.

(** First loop of [_fill_missing_locations]. *)
Definition collect_states (df : list row) : gmap (Z * Z) (list string) :=
  foldl collect_step ∅ df.

(** [Counter(states).most_common(1)[0][0]] *)
Definition most_common_state (states : list string) : result string :=
  x <- item0 (most_common_1 (Counter states));
  Ok x.1.

(** Second loop. *)
Definition most_common_states (coord_state_map : gmap (Z * Z) (list string))
  : result (gmap (Z * Z) string) :=
  map_fold (fun coord states acc =>
              m <- acc;
              s <- most_common_state states;
              Ok (<[coord := s]> m)) (Ok ∅) coord_state_map.

(** Body of the third loop. *)
Definition fill_row (coord_state_map : gmap (Z * Z) string) (row : TestPy.row)
  : TestPy.row :=
  if (isna (State row) || eq_empty (State row)) && has_coordinates row then
    match coord_state_map !! coord_key row with
    | Some s => set_State row s
    | None => row
    end
  else row.

Definition _fill_missing_locations (self : TowerJumpAnalyzer)
  : result TowerJumpAnalyzer :=
  coord_state_map <- most_common_states (collect_states (df self));
  Ok {| df := map (fill_row coord_state_map) (df self) |}.

(** A row of the result frame. *)
Record result_row : Type := {
  start_time : option Z;
  end_time : Z;
  state : string;
  is_tower_jump : string;
  confidence : Q
}.

(** The block that closes an interval (written twice in the source, in the
    loop and after it): dominant state, jump flag, confidence in percent. *)
Definition close_interval (current_interval_start : option Z) (end_time : Z)
    (state_records : list string) (min_confidence : Q) : result result_row :=
  let state_counter := Counter state_records in
  mc <- item0 (most_common_1 state_counter);
  let most_common_state := mc.1 in
  let count := mc.2 in
  let confidence := truediv count (length state_records) in
  let jump :=
    (1 <? length state_counter)%nat && Qltb confidence min_confidence in
  Ok {| start_time := current_interval_start;
        end_time := end_time;
        state := most_common_state;
        is_tower_jump := if jump then "yes" else "no";
        confidence := (confidence * 100)%Q |}.

(** The state of the loop of [analyze_tower_jumps]. *)
Record loop_state : Type := {
  current_interval_start : option Z;
  state_records : list string;
  results : list result_row
}.

(** The [for] loop of [analyze_tower_jumps]. *)
Fixpoint analyze_loop (time_window_minutes min_confidence : Q) (rows : list row)
    (st : loop_state) : result loop_state :=
  match rows with
  | [] => Ok st
  | row :: rest =>
      match State row with
      | None => analyze_loop time_window_minutes min_confidence rest st
      | Some EmptyString =>
          analyze_loop time_window_minutes min_confidence rest st
      | Some s =>
          let record_time := UTCDateTime row in
          match current_interval_start st with
          | None =>
              analyze_loop time_window_minutes min_confidence rest
                {| current_interval_start := Some record_time;
                   state_records := [s];
                   results := results st |}
          | Some start =>
              let time_diff := (inject_Z (record_time - start) / 60)%Q in
              if Qle_bool time_diff time_window_minutes then
                analyze_loop time_window_minutes min_confidence rest
                  {| current_interval_start := Some start;
                     state_records := (state_records st ++ [s])%list;
                     results := results st |}
              else
                r <- close_interval (Some start) (record_time - 60)
                       (state_records st) min_confidence;
                analyze_loop time_window_minutes min_confidence rest
                  {| current_interval_start := Some record_time;
                     state_records := [s];
                     results := (results st ++ [r])%list |}
          end
      end
  end.

Definition analyze_tower_jumps (self : TowerJumpAnalyzer)
    (time_window_minutes min_confidence : Q) : result (list result_row) :=
  st <- analyze_loop time_window_minutes min_confidence (df self)
          {| current_interval_start := None;
             state_records := [];
             results := [] |};
  match state_records st with
  | [] => Ok (results st)
  | _ :: _ =>
      last_row <- item_last (df self);
      r <- close_interval (current_interval_start st) (UTCDateTime last_row)
             (state_records st) min_confidence;
      Ok (results st ++ [r])%list
  end.

End TestPy.

(** ** Reference instances of the library functions of the loader

    [Processor._process_row] is parametric in [strptime], [float] and [int].
    The instances below accept the canonical spellings (zero-padded
    timestamps, plain decimal numbers) and are used to run the loader on
    concrete rows. *)
Module Lib.

Definition digit (c : ascii) : option Z :=
  let n := nat_of_ascii c in
  if (48 <=? n)%nat && (n <=? 57)%nat then Some (Z.of_nat (n - 48)) else None.

Fixpoint digits (s : string) (acc : Z) : option Z :=
  match s with
  | EmptyString => Some acc
  | String c s' =>
      match digit c with
      | Some d => digits s' (10 * acc + d)%Z
      | None => None
      end
  end.

(** An unsigned decimal numeral, at least one digit. *)
Definition numeral (s : string) : option Z :=
  match s with
  | EmptyString => None
  | _ => digits s 0
  end.

Definition int (s : string) : option Z :=
  match s with
  | String "-" s' => Z.opp <$> numeral s'
  | _ => numeral s
  end.

(** The text before and after the first occurrence of [sep]. *)
Fixpoint split_at (sep : ascii) (s : string) : string * option string :=
  match s with
  | EmptyString => (EmptyString, None)
  | String c s' =>
      if decide (c = sep) then (EmptyString, Some s')
      else let p := split_at sep s' in (String c p.1, p.2)
  end.

Definition unsigned_float (s : string) : option Q :=
  match split_at "." s with
  | (whole, None) => inject_Z <$> numeral whole
  | (whole, Some frac) =>
      match numeral whole, numeral frac with
      | Some w, Some f =>
          let scale := (10 ^ Pos.of_nat (String.length frac))%positive in
          Some (Qmake (w * Zpos scale + f) scale)
      | _, _ => None
      end
  end.

Definition float (s : string) : option Q :=
  match s with
  | String "-" s' => Qopp <$> unsigned_float s'
  | _ => unsigned_float s
  end.

Definition is_leap (y : Z) : bool :=
  ((y mod 4 =? 0) && negb (y mod 100 =? 0) || (y mod 400 =? 0))%Z.

Definition days_in_month (y m : Z) : Z :=
  if (m =? 2)%Z then (if is_leap y then 29 else 28)
  else if ((m =? 4) || (m =? 6) || (m =? 9) || (m =? 11))%Z then 30
  else 31.

(** Days from 1970-01-01 to the civil date [y-m-d]. *)
Definition days_from_civil (y m d : Z) : Z :=
  let y' := (if m <=? 2 then y - 1 else y)%Z in
  let era := (y' / 400)%Z in
  let yoe := (y' - era * 400)%Z in
  let mp := ((m + 9) mod 12)%Z in
  let doy := ((153 * mp + 2) / 5 + d - 1)%Z in
  let doe := (yoe * 365 + yoe / 4 - yoe / 100 + doy)%Z in
  (era * 146097 + doe - 719468)%Z.

Definition timestamp (y m d hh mm ss : Z) : option Z :=
  if ((1 <=? m) && (m <=? 12) && (1 <=? d) && (d <=? days_in_month y m)
      && (hh <=? 23) && (mm <=? 59) && (ss <=? 59))%Z
  then Some (((days_from_civil y m d * 24 + hh) * 60 + mm) * 60 + ss)%Z
  else None.

(** A field of [n] digits followed by the rest of the text. *)
Definition field (n : nat) (s : string) : option (Z * string) :=
  if (String.length s <? n)%nat then None
  else
    match digits (String.substring 0 n s) 0 with
    | Some v => Some (v, String.substring n (String.length s - n) s)
    | None => None
    end.

(** Exactly the character [c], followed by the rest of the text. *)
Definition expect (c : ascii) (s : string) : option string :=
  match s with
  | String c' s' => if decide (c = c') then Some s' else None
  | EmptyString => None
  end.

(** ["%m/%d/%y %H:%M"] on [MM/DD/YY HH:MM]. *)
Definition strptime_mdy (s : string) : option Z :=
  '(m, s) ← field 2 s; s ← expect "/" s;
  '(d, s) ← field 2 s; s ← expect "/" s;
  '(y, s) ← field 2 s; s ← expect " " s;
  '(hh, s) ← field 2 s; s ← expect ":" s;
  '(mm, s) ← field 2 s;
  match s with
  | EmptyString =>
      timestamp (if (y <? 69)%Z then 2000 + y else 1900 + y)%Z m d hh mm 0
  | _ => None
  end.

(** ["%Y-%m-%d %H:%M:%S"] on [YYYY-MM-DD HH:MM:SS]. *)
Definition strptime_ymd (s : string) : option Z :=
  '(y, s) ← field 4 s; s ← expect "-" s;
  '(m, s) ← field 2 s; s ← expect "-" s;
  '(d, s) ← field 2 s; s ← expect " " s;
  '(hh, s) ← field 2 s; s ← expect ":" s;
  '(mm, s) ← field 2 s; s ← expect ":" s;
  '(ss, s) ← field 2 s;
  match s with
  | EmptyString => timestamp y m d hh mm ss
  | _ => None
  end.

Definition strptime (dt_str fmt : string) : option Z :=
  if decide (fmt = "%m/%d/%y %H:%M") then strptime_mdy dt_str
  else if decide (fmt = "%Y-%m-%d %H:%M:%S") then strptime_ymd dt_str
  else None.

End Lib.

(** ** Sample inputs *)
Module Sample.
Import Processor.

(** A loaded record with timestamp [t], coordinates [(lat, lon)] and state
    [s]. *)
Definition record_at (t : Z) (lat lon : Q) (s : string) : record_dict :=
  {| page := 1; item := 1;
     utc_datetime := Some t; local_datetime := Some t;
     latitude := lat; longitude := lon;
     timezone := "UTC"; city := "Albany"; county := "Albany";
     state := s; country := "US"; cell_type := "LTE" |}.

(** An analyzer with the default window and threshold, holding [d]. *)
Definition analyzer (d : list record_dict) : TowerJumpAnalyzer :=
  set_data (init "carrier.csv") d.

(** The same analyzer with another [min_confidence]. *)
Definition with_min_confidence (self : TowerJumpAnalyzer) (mc : Q)
  : TowerJumpAnalyzer :=
  {| filename := filename self; data := data self;
     time_window_minutes := time_window_minutes self;
     min_confidence := mc |}.

(** Six records at [T], [T+1], [T+2], [T+10], [T+11] and [T+20] minutes with
    the labels [A, A, B, A, B, A]. *)
Definition scenario (T : Z) (A B : string) : list record_dict :=
  [ record_at T (407 # 10) (-74) A;
    record_at (T + 60) (407 # 10) (-74) A;
    record_at (T + 120) (407 # 10) (-74) B;
    record_at (T + 600) (407 # 10) (-74) A;
    record_at (T + 660) (407 # 10) (-74) B;
    record_at (T + 1200) (407 # 10) (-74) A ].

(** A row of the data frame with timestamp [t] and state cell [s]. *)
Definition row_at (t : Z) (s : option string) : TestPy.row :=
  {| TestPy.UTCDateTime := t;
     TestPy.Latitude := Some (407 # 10)%Q;
     TestPy.Longitude := Some (-74)%Q;
     TestPy.State := s |}.

(** The data frame of [src/test.py] holding [rows]. *)
Definition frame (rows : list TestPy.row) : TestPy.TowerJumpAnalyzer :=
  {| TestPy.df := rows |}.

(** The loaded records and the data frame for the same events: the
    timestamps with their labels. *)
Definition records_of (events : list (Z * string))
  : list Processor.record_dict :=
  map (fun ev => record_at ev.1 (407 # 10) (-74) ev.2) events.

Definition rows_of (events : list (Z * string)) : list TestPy.row :=
  map (fun ev => row_at ev.1 (Some ev.2)) events.

(** Three records four minutes apart: each within the window of the one
    before, the third more than a window after the first. *)
Definition chain : list (Z * string) :=
  [(0, "A"); (240, "A"); (480, "A")]%Z.

(** Two records ten minutes apart. *)
Definition gap : list (Z * string) := [(0, "A"); (600, "A")]%Z.

(** Three records within two minutes, two labels. *)
Definition two_to_one : list (Z * string) :=
  [(0, "A"); (60, "A"); (120, "B")]%Z.

(** A row of the carrier file with the UTC timestamp [utc]. *)
Definition csv (utc : string) : Processor.csv_row :=
  list_to_map
    [ ("Page", "1"); ("Item", "2"); ("UTCDateTime", utc);
      ("LocalDateTime", "07/09/25 10:05"); ("Latitude", "40.7");
      ("Longitude", "-74.0"); ("TimeZone", "America/New_York");
      ("City", "Albany"); ("County", "Albany"); ("State", "NY");
      ("Country", "US"); ("CellType", "LTE") ].

End Sample.

(** ** Notions of the specification *)
Module Spec.

(** Number of members of an interval that carry the label [x]. *)
Fixpoint occurrences (x : string) (labels : list string) : nat :=
  match labels with
  | [] => 0
  | y :: labels' =>
      ((if decide (x = y) then 1 else 0) + occurrences x labels')%nat
  end.

(** The count a counter holds for [k] ([0] when absent). *)
Fixpoint counter_get (k : string) (c : list (string * nat)) : nat :=
  match c with
  | [] => 0
  | (k', n) :: c' => if decide (k = k') then n else counter_get k c'
  end.

(** A label that is empty or made of white space only. *)
Definition blank (s : string) : bool :=
  negb (truthy s) || negb (truthy (strip s)).

(** The share of the label [d] among the members: its confidence. *)
Definition share (d : string) (labels : list string) : Q :=
  truediv (occurrences d labels) (length labels).

(** More than one distinct label among the members. *)
Definition several_labels (labels : list string) : Prop :=
  ∃ a b, a ∈ labels ∧ b ∈ labels ∧ a ≠ b.

(** [d] is a most frequent label of the interval. *)
Definition dominant (d : string) (labels : list string) : Prop :=
  d ∈ labels ∧ ∀ x, (occurrences x labels ≤ occurrences d labels)%nat.

(** The classification rule: the flag is ["yes"] exactly when several
    labels are present and the share of the dominant label [d] is strictly
    below the threshold. *)
Definition jump_rule (labels : list string) (min_confidence : Q)
    (d flag : string) : Prop :=
  (flag = "yes" ∨ flag = "no")
  ∧ (flag = "yes" ↔
     several_labels labels
     ∧ (share d labels < min_confidence)%Q).

(** *** Notions about the loop of [Processor.analyze_tower_jumps] *)
Section ProcessorNotions.
Import Processor.

(** [_process_interval] on each closed interval. *)
Definition processed (self : TowerJumpAnalyzer) (iv : interval)
    (r : interval_result) : Prop :=
  _process_interval self iv = Ok r.

Definition has_members (iv : interval) : Prop := iv_states iv ≠ [].

(** The records that take part in the segmentation. *)
Definition labelled (record : record_dict) : bool :=
  negb (state_missing record).

(** An interval holds its members in order, with their states. *)
Definition well_formed (iv : interval) : Prop :=
  iv_records iv ≠ []
  ∧ iv_states iv = map state (iv_records iv)
  ∧ Forall (fun r => labelled r = true) (iv_records iv)
  ∧ iv_start_time iv = head (iv_records iv) ≫= utc_datetime
  ∧ iv_end_time iv = last (iv_records iv) ≫= utc_datetime.

(** The members of the closed intervals and of the interval in progress. *)
Definition members (closed : list interval) (cur : option interval)
  : list record_dict :=
  concat (map iv_records closed) ++ from_option iv_records [] cur.

(** The record carries a parsed timestamp. *)
Definition timed (record : record_dict) : Prop := utc_datetime record ≠ None.

(** Both records carry a timestamp and the first is not later than the
    second. *)
Definition not_later (a b : record_dict) : Prop :=
  match utc_datetime a, utc_datetime b with
  | Some x, Some y => (x ≤ y)%Z
  | _, _ => False
  end.

(** A chronologically sorted sequence of records with timestamps. *)
Definition chronological (l : list record_dict) : Prop :=
  Forall timed l ∧ StronglySorted not_later l.

End ProcessorNotions.

(** *** Notions about the loop of [TestPy.analyze_tower_jumps] *)

(** A state cell that is NaN or empty. *)
Definition no_state (row : TestPy.row) : bool :=
  TestPy.isna (TestPy.State row) || TestPy.eq_empty (TestPy.State row).

(** The label of a row ([""] for NaN). *)
Definition label_of (row : TestPy.row) : string :=
  default "" (TestPy.State row).

(** An interval closed inside the loop: its member rows and the row, out of
    the window, that closed it. *)
Record closed_group : Type := {
  group_members : list TestPy.row;
  closing_row : TestPy.row
}.

(** The rows that the loop of [src/test.py] gathers: the groups closed so far
    and the members of the interval in progress.  It takes the branches of
    [TestPy.analyze_loop], whose [current_interval_start] is the timestamp of
    the first member. *)
Fixpoint group_loop (time_window_minutes : Q) (rows : list TestPy.row)
    (cur : list TestPy.row) (closed : list closed_group)
  : list closed_group * list TestPy.row :=
  match rows with
  | [] => (closed, cur)
  | row :: rest =>
      if no_state row then group_loop time_window_minutes rest cur closed
      else
        match cur with
        | [] => group_loop time_window_minutes rest [row] closed
        | first :: _ =>
            if Qle_bool
                 (inject_Z (TestPy.UTCDateTime row - TestPy.UTCDateTime first)
                  / 60)
                 time_window_minutes
            then group_loop time_window_minutes rest (cur ++ [row]) closed
            else group_loop time_window_minutes rest [row]
                   (closed ++ [{| group_members := cur; closing_row := row |}])
        end
  end.

(** The labels of the members of every interval that the loop of
    [src/test.py] closes, the one still open at the end included. *)
Definition interval_labels (time_window_minutes : Q) (df : list TestPy.row)
  : list (list string) :=
  let g := group_loop time_window_minutes df [] [] in
  map (fun c => map label_of (group_members c)) g.1
  ++ match g.2 with
     | [] => []
     | cur => [map label_of cur]
     end.

(** The loop state that corresponds to the members gathered so far. *)
Definition gathered (cur : list TestPy.row) (st : TestPy.loop_state) : Prop :=
  TestPy.current_interval_start st = TestPy.UTCDateTime <$> head cur
  ∧ TestPy.state_records st = map label_of cur.

(** The result row of a group closed inside the loop. *)
Definition group_result (min_confidence : Q) (g : closed_group)
    (r : TestPy.result_row) : Prop :=
  group_members g ≠ []
  ∧ TestPy.close_interval (TestPy.UTCDateTime <$> head (group_members g))
      (TestPy.UTCDateTime (closing_row g) - 60)
      (map label_of (group_members g)) min_confidence = Ok r.

(** *** Notions to compare the two programs *)

(** [d] seconds are within the window of [w] minutes. *)
Definition within_minutes (w : Q) (d : Z) : Prop :=
  Qle_bool (inject_Z d / 60) w = true.

(** From [start] to [e] there are at most [w] minutes. *)
Definition span_within (w : Q) (start e : option Z) : Prop :=
  match start, e with
  | Some s, Some e => within_minutes w (e - s)
  | _, _ => False
  end.

(** A loaded record and a row of the data frame for the same event, with a
    label that both programs take as present. *)
Definition same_event (record : Processor.record_dict) (row : TestPy.row)
  : Prop :=
  Processor.utc_datetime record = Some (TestPy.UTCDateTime row)
  ∧ TestPy.State row = Some (Processor.state record)
  ∧ blank (Processor.state record) = false.

(** Equal result rows: same bounds, dominant label, flag and confidence. *)
Definition same_result (p : Processor.interval_result) (t : TestPy.result_row)
  : Prop :=
  Processor.start_time p = TestPy.start_time t
  ∧ Processor.end_time p = Some (TestPy.end_time t)
  ∧ Processor.res_state p = TestPy.state t
  ∧ Processor.is_tower_jump p = TestPy.is_tower_jump t
  ∧ (Processor.confidence_percentage p == TestPy.confidence t)%Q.

(** Result rows that agree on the start, the dominant label and the flag,
    the percentage of [src/processor.py] being that of [src/test.py] rounded
    to two decimals. *)
Definition agree (p : Processor.interval_result) (t : TestPy.result_row)
  : Prop :=
  Processor.start_time p = TestPy.start_time t
  ∧ Processor.res_state p = TestPy.state t
  ∧ Processor.is_tower_jump p = TestPy.is_tower_jump t
  ∧ Processor.confidence_percentage p = round (TestPy.confidence t) 2.

(** The interval in progress starts at [s] and ends at [e], not later than
    any of the records still to come. *)
Definition open_before (iv : Processor.interval)
    (l : list Processor.record_dict) : Prop :=
  ∃ s e, Processor.iv_start_time iv = Some s
         ∧ Processor.iv_end_time iv = Some e
         ∧ (s ≤ e)%Z
         ∧ Forall (fun r => ∃ t, Processor.utc_datetime r = Some t ∧ (e ≤ t)%Z)
             l.

(** The interval spans at most the window of the analyzer. *)
Definition span_ok (self : Processor.TowerJumpAnalyzer)
    (iv : Processor.interval) : Prop :=
  span_within (Processor.time_window_minutes self)
    (Processor.iv_start_time iv) (Processor.iv_end_time iv).

(** The two loops hold the same interval in progress. *)
Definition synced (cur : option Processor.interval) (st : TestPy.loop_state)
  : Prop :=
  match cur with
  | None =>
      TestPy.current_interval_start st = None ∧ TestPy.state_records st = []
  | Some iv =>
      TestPy.current_interval_start st = Processor.iv_start_time iv
      ∧ TestPy.state_records st = Processor.iv_states iv
      ∧ Processor.iv_states iv ≠ []
  end.

(** [t] is the row that [src/test.py] emits for the members of [iv]. *)
Definition closed_as (min_confidence : Q) (iv : Processor.interval)
    (t : TestPy.result_row) : Prop :=
  ∃ e, TestPy.close_interval (Processor.iv_start_time iv) e
         (Processor.iv_states iv) min_confidence = Ok t.

(** *** Notions about the imputation *)

(** The most common label of a list ([""] for the empty list). *)
Definition majority (states : list string) : string :=
  match most_common_1 (Counter states) with
  | x :: _ => x.1
  | [] => ""
  end.

(** A record whose latitude or longitude is exactly zero. *)
Definition sentinel (record : Processor.record_dict) : Prop :=
  (Processor.latitude record == 0)%Q ∨ (Processor.longitude record == 0)%Q.

(** A row of the data frame whose latitude or longitude is exactly zero. *)
Definition sentinel_row (row : TestPy.row) : Prop :=
  (∃ q, TestPy.Latitude row = Some q ∧ (q == 0)%Q)
  ∨ (∃ q, TestPy.Longitude row = Some q ∧ (q == 0)%Q).

(** A bucket holds at least one label, and only labels that are present. *)
Definition good_bucket (states : list string) : Prop :=
  states ≠ [] ∧ Forall (fun s => blank s = false) states.

(** *** Notions about the loader *)

(** [record] with another [utc_datetime]. *)
Definition with_utc (record : Processor.record_dict) (t : option Z)
  : Processor.record_dict :=
  {| Processor.page := Processor.page record;
     Processor.item := Processor.item record;
     Processor.utc_datetime := t;
     Processor.local_datetime := Processor.local_datetime record;
     Processor.latitude := Processor.latitude record;
     Processor.longitude := Processor.longitude record;
     Processor.timezone := Processor.timezone record;
     Processor.city := Processor.city record;
     Processor.county := Processor.county record;
     Processor.state := Processor.state record;
     Processor.country := Processor.country record;
     Processor.cell_type := Processor.cell_type record |}.

(** [dt_str] matches neither accepted format. *)
Definition unparseable (strptime : string → string → option Z)
    (dt_str : string) : Prop :=
  strptime dt_str "%m/%d/%y %H:%M" = None
  ∧ strptime dt_str "%Y-%m-%d %H:%M:%S" = None.

(** *** Notions about the shape of the segmentation *)

(** [R] holds between every element of the list and the next one. *)
Fixpoint adjacent {A} (R : A → A → Prop) (l : list A) : Prop :=
  match l with
  | x :: (y :: _) as l' => R x y ∧ adjacent R l'
  | _ => True
  end.

(** From [a] to [b] there are more than [w] minutes. *)
Definition gap_over (w : Q) (a b : option Z) : Prop :=
  match a, b with
  | Some x, Some y => Qle_bool (inject_Z (y - x) / 60) w = false
  | _, _ => False
  end.

(** [b] comes at most [w] minutes after [a]. *)
Definition gap_within (w : Q) (a b : option Z) : Prop :=
  match a, b with
  | Some x, Some y => Qle_bool (inject_Z (y - x) / 60) w = true
  | _, _ => False
  end.

(** The timestamp of [r'] is more than [w] minutes after that of [r]. *)
Definition breaks_before (w : Q) (r r' : Processor.record_dict) : bool :=
  match Processor.utc_datetime r, Processor.utc_datetime r' with
  | Some x, Some y => negb (Qle_bool (inject_Z (y - x) / 60) w)
  | _, _ => false
  end.

(** Number of records that come more than [w] minutes after the record
    before them. *)
Fixpoint breaks (w : Q) (l : list Processor.record_dict) : nat :=
  match l with
  | r :: (r' :: _) as l' => (if breaks_before w r r' then 1 else 0) + breaks w l'
  | _ => 0
  end.

(** [iv'] starts more than [w] minutes after the end of [iv]. *)
Definition separated (w : Q) (iv iv' : Processor.interval) : Prop :=
  gap_over w (Processor.iv_end_time iv) (Processor.iv_start_time iv').

(** Every member of [iv] comes at most [w] minutes after the member before
    it. *)
Definition chained (w : Q) (iv : Processor.interval) : Prop :=
  adjacent (fun r r' => gap_within w (Processor.utc_datetime r)
                          (Processor.utc_datetime r'))
    (Processor.iv_records iv).

(** The intervals closed so far and the one in progress, in order. *)
Definition intervals_so_far (closed : list Processor.interval)
    (cur : option Processor.interval) : list Processor.interval :=
  closed ++ option_list cur.

(** The shape that the loop of [Processor.analyze_tower_jumps] keeps. *)
Definition seg_shape (w : Q) (closed : list Processor.interval)
    (cur : option Processor.interval) : Prop :=
  (cur = None → closed = [])
  ∧ adjacent (separated w) (intervals_so_far closed cur)
  ∧ Forall (chained w) (intervals_so_far closed cur)
  ∧ Forall well_formed (intervals_so_far closed cur).

(** The record carries the timestamp [t]. *)
Definition at_time (t : Z) (record : Processor.record_dict) : bool :=
  match Processor.utc_datetime record with
  | Some u => (u =? t)%Z
  | None => false
  end.

(** The known states at the rounded coordinates [k], in the order of the
    data: the states of the records that have a state, coordinates different
    from zero, and [k] as rounded coordinates. *)
Definition bucket (data : list Processor.record_dict) (k : Z * Z)
  : list string :=
  map Processor.state
    (List.filter (fun r => Processor.has_known_state r
                           && bool_decide (Processor.coord_key r = k)) data).




(** *** Notions about the intervals of [src/test.py] *)

(** The row [m] comes at most [w] minutes after the row [f]. *)
Definition row_within (w : Q) (f m : TestPy.row) : Prop :=
  Qle_bool (inject_Z (TestPy.UTCDateTime m - TestPy.UTCDateTime f) / 60) w
  = true.

(** The row [m] comes more than [w] minutes after the row [f]. *)
Definition row_over (w : Q) (f m : TestPy.row) : Prop :=
  Qle_bool (inject_Z (TestPy.UTCDateTime m - TestPy.UTCDateTime f) / 60) w
  = false.

(** Every row after the first comes at most [w] minutes after the first. *)
Definition within_first (w : Q) (rows : list TestPy.row) : Prop :=
  match rows with
  | [] => True
  | f :: rest => Forall (row_within w f) rest
  end.

(** A group closed inside the loop: members with a state, all within the
    window of the first, and a closing row with a state beyond it. *)
Definition group_ok (w : Q) (g : closed_group) : Prop :=
  Forall (fun m => no_state m = false) (group_members g)
  ∧ within_first w (group_members g)
  ∧ no_state (closing_row g) = false
  ∧ ∃ f, head (group_members g) = Some f ∧ row_over w f (closing_row g).

(** The shape that the loop of [TestPy.analyze_tower_jumps] keeps: every
    interval opens with the row that closed the one before. *)
Definition group_shape (w : Q) (closed : list closed_group)
    (cur : list TestPy.row) : Prop :=
  Forall (group_ok w) closed
  ∧ Forall (fun m => no_state m = false) cur
  ∧ within_first w cur
  ∧ adjacent (fun g g' => head (group_members g') = Some (closing_row g))
      closed
  ∧ match last closed with
    | Some g => head cur = Some (closing_row g)
    | None => True
    end.

(** The member rows of every interval of [src/test.py], the one still open
    at the end of the frame included. *)
Definition interval_rows (time_window_minutes : Q) (df : list TestPy.row)
  : list (list TestPy.row) :=
  let g := group_loop time_window_minutes df [] [] in
  map group_members g.1
  ++ match g.2 with
     | [] => []
     | cur => [cur]
     end.

(** The first row of [rows'] comes more than [w] minutes after the first row
    of [rows]. *)
Definition starts_over (w : Q) (rows rows' : list TestPy.row) : Prop :=
  ∃ f f', head rows = Some f ∧ head rows' = Some f' ∧ row_over w f f'.

(** *** Notions about the imputation of [src/test.py] *)

(** A row that the first loop of [_fill_missing_locations] gathers: usable
    coordinates and a state. *)
Definition known_row (row : TestPy.row) : bool :=
  TestPy.has_coordinates row && negb (no_state row).

(** The states of the rows gathered at the rounded coordinates [k], in the
    order of the frame. *)
Definition row_bucket (df : list TestPy.row) (k : Z * Z) : list string :=
  map label_of
    (List.filter (fun r => known_row r && bool_decide (TestPy.coord_key r = k))
       df).

(** A row that the third loop looks up: no state, usable coordinates. *)
Definition fillable (row : TestPy.row) : bool :=
  no_state row && TestPy.has_coordinates row.

End Spec.

Import Spec.

(** * Properties *)

(** ** Counters and the most common label *)

Lemma counter_get_incr k k' c :
  counter_get k (counter_incr k' c)
  = (counter_get k c + (if decide (k = k') then 1 else 0))%nat.
Proof.
  induction c as [|[k0 n] c IH]; simpl.
  - destruct (decide (k = k')); reflexivity.
  - destruct (decide (k' = k0)) as [->|Hne]; simpl.
    + destruct (decide (k = k0)); lia.
    + destruct (decide (k = k0)) as [->|]; [|exact IH].
      destruct (decide (k0 = k')); [congruence|lia].
Qed.

Lemma counter_get_foldl k xs c :
  counter_get k (foldl (fun c k => counter_incr k c) c xs)
  = (counter_get k c + occurrences k xs)%nat.
Proof.
  revert c; induction xs as [|x xs IH]; intros c; simpl; [lia|].
  rewrite IH, counter_get_incr. lia.
Qed.

Lemma counter_get_Counter k xs :
  counter_get k (Counter xs) = occurrences k xs.
Proof. unfold Counter. rewrite counter_get_foldl. reflexivity. Qed.

Lemma counter_incr_keys k c :
  (counter_incr k c).*1 = if decide (k ∈ c.*1) then c.*1 else c.*1 ++ [k].
Proof.
  induction c as [|[k0 n] c IH].
  - destruct (decide (k ∈ [].*1)) as [Hin|_]; [|reflexivity].
    apply elem_of_nil in Hin. contradiction.
  - cbn [counter_incr]. rewrite fmap_cons. cbn [fst].
    destruct (decide (k = k0)) as [->|Hne].
    + rewrite fmap_cons. cbn [fst].
      rewrite decide_True by (left). reflexivity.
    + rewrite fmap_cons, IH. cbn [fst].
      destruct (decide (k ∈ c.*1)) as [Hin|Hnin].
      * rewrite decide_True by (right; exact Hin). reflexivity.
      * rewrite decide_False; [reflexivity|].
        intros [?|?]%elem_of_cons; congruence.
Qed.

Lemma counter_incr_NoDup k c : NoDup c.*1 → NoDup (counter_incr k c).*1.
Proof.
  intros Hnd. rewrite counter_incr_keys.
  destruct (decide (k ∈ c.*1)); [exact Hnd|].
  apply NoDup_app. split; [exact Hnd|]. split.
  - intros x Hx ->%list_elem_of_singleton. contradiction.
  - apply NoDup_singleton.
Qed.

Lemma counter_incr_elem k x c : x ∈ (counter_incr k c).*1 ↔ x = k ∨ x ∈ c.*1.
Proof.
  rewrite counter_incr_keys. destruct (decide (k ∈ c.*1)) as [Hin|Hnin].
  - split; [auto|]. intros [->|?]; assumption.
  - rewrite elem_of_app, list_elem_of_singleton. tauto.
Qed.

Lemma Counter_keys_foldl xs c :
  NoDup c.*1 →
  NoDup (foldl (fun c k => counter_incr k c) c xs).*1
  ∧ ∀ x, x ∈ (foldl (fun c k => counter_incr k c) c xs).*1 ↔ x ∈ xs ∨ x ∈ c.*1.
Proof.
  revert c; induction xs as [|y xs IH]; intros c Hnd; simpl.
  - split; [exact Hnd|]. intros x. rewrite elem_of_nil. tauto.
  - destruct (IH (counter_incr y c) (counter_incr_NoDup y c Hnd)) as [H1 H2].
    split; [exact H1|]. intros x. rewrite H2, counter_incr_elem, elem_of_cons.
    tauto.
Qed.

Lemma Counter_NoDup xs : NoDup (Counter xs).*1.
Proof. apply (Counter_keys_foldl xs []). apply NoDup_nil_2. Qed.

Lemma Counter_elem x xs : x ∈ (Counter xs).*1 ↔ x ∈ xs.
Proof.
  destruct (Counter_keys_foldl xs [] (NoDup_nil_2)) as [_ H].
  unfold Counter. rewrite H. simpl. rewrite elem_of_nil. tauto.
Qed.

Lemma counter_get_elem k n c : NoDup c.*1 → (k, n) ∈ c → counter_get k c = n.
Proof.
  induction c as [|[k0 n0] c IH]; simpl; intros Hnd Hin.
  - apply elem_of_nil in Hin. contradiction.
  - apply NoDup_cons in Hnd as [Hnotin Hnd].
    apply elem_of_cons in Hin as [Heq|Hin].
    + inversion Heq; subst. rewrite decide_True by reflexivity. reflexivity.
    + destruct (decide (k = k0)) as [->|Hne]; [|apply IH; assumption].
      exfalso. apply Hnotin. apply list_elem_of_fmap. exists (k0, n). auto.
Qed.

Lemma max_by_count_elem best c : max_by_count best c ∈ best :: c.
Proof.
  revert best; induction c as [|x c IH]; intros best; simpl.
  - left.
  - specialize (IH (if (best.2 <? x.2)%nat then x else best)).
    destruct (best.2 <? x.2)%nat; apply elem_of_cons in IH as [->|IH];
      auto using list_elem_of_here, list_elem_of_further.
Qed.

Lemma max_by_count_max best c x :
  x ∈ best :: c → (x.2 ≤ (max_by_count best c).2)%nat.
Proof.
  revert best x; induction c as [|y c IH]; intros best x; simpl.
  - intros ->%list_elem_of_singleton. lia.
  - intros Hin.
    pose proof (IH (if (best.2 <? y.2)%nat then y else best)) as Hb.
    destruct (Nat.ltb_spec best.2 y.2) as [Hlt|Hge].
    + apply elem_of_cons in Hin as [->|Hin].
      * specialize (Hb y (list_elem_of_here _ _)). lia.
      * apply Hb. exact Hin.
    + apply elem_of_cons in Hin as [->|Hin]; [apply Hb; left|].
      apply elem_of_cons in Hin as [->|Hin].
      * specialize (Hb best (list_elem_of_here _ _)). lia.
      * apply Hb. right. exact Hin.
Qed.

Lemma counter_get_cases x c : counter_get x c = 0 ∨ (x, counter_get x c) ∈ c.
Proof.
  induction c as [|[k n] c IH]; simpl; [left; reflexivity|].
  destruct (decide (x = k)) as [->|Hne].
  - right. left.
  - destruct IH as [IH|IH]; [left; exact IH|right; right; exact IH].
Qed.

Lemma Counter_nonempty labels : labels ≠ [] → Counter labels ≠ [].
Proof.
  destruct labels as [|l labels]; [congruence|]. intros _ Hnil.
  assert (Hin : l ∈ (Counter (l :: labels)).*1) by (apply Counter_elem; left).
  rewrite Hnil in Hin. apply elem_of_nil in Hin. exact Hin.
Qed.

(** The most common entry of a counter is a dominant label of the list the
    counter was built from, with its number of occurrences. *)
Lemma most_common_dominant labels :
  labels ≠ [] →
  ∃ d, item0 (most_common_1 (Counter labels)) = Ok (d, occurrences d labels)
       ∧ dominant d labels.
Proof.
  intros Hne. pose proof (Counter_nonempty labels Hne) as Hc.
  pose proof (Counter_NoDup labels) as Hnd.
  destruct (Counter labels) as [|b c] eqn:Ec; [congruence|]. simpl.
  pose proof (max_by_count_elem b c) as Hin.
  destruct (max_by_count b c) as [d n] eqn:Em.
  assert (Hn : n = occurrences d labels).
  { rewrite <- counter_get_Counter, Ec. symmetry.
    apply counter_get_elem; [exact Hnd|exact Hin]. }
  exists d. split; [rewrite Hn; reflexivity|]. split.
  - apply Counter_elem. rewrite Ec. apply list_elem_of_fmap.
    exists (d, n). split; [reflexivity|exact Hin].
  - intros x. rewrite <- Hn, <- (counter_get_Counter x), Ec.
    destruct (counter_get_cases x (b :: c)) as [->|Hx]; [lia|].
    pose proof (max_by_count_max b c _ Hx) as Hle. rewrite Em in Hle.
    exact Hle.
Qed.

Lemma several_labels_Counter labels :
  (1 <? length (Counter labels)) = true ↔ several_labels labels.
Proof.
  rewrite Nat.ltb_lt, <- (length_fmap fst).
  pose proof (Counter_NoDup labels) as Hnd.
  pose proof (fun x => Counter_elem x labels) as Hel.
  destruct ((Counter labels).*1) as [|k1 [|k2 ks]]; simpl.
  - split; [lia|]. intros (a & _ & Ha & _). apply Hel in Ha.
    apply elem_of_nil in Ha. contradiction.
  - split; [lia|]. intros (a & b & Ha & Hb & Hab).
    apply Hel, list_elem_of_singleton in Ha.
    apply Hel, list_elem_of_singleton in Hb. congruence.
  - split; [intros _|lia]. exists k1, k2. split; [apply Hel; left|].
    split; [apply Hel; right; left|].
    apply NoDup_cons in Hnd as [Hnotin _]. intros ->. apply Hnotin. left.
Qed.

Lemma Qltb_lt a b : Qltb a b = true ↔ (a < b)%Q.
Proof.
  unfold Qltb. rewrite negb_true_iff, <- not_true_iff_false, Qle_bool_iff.
  split; [apply Qnot_le_lt|apply Qlt_not_le].
Qed.

(** The flag computed by both programs obeys the classification rule. *)
Lemma flag_jump_rule labels min_confidence d :
  jump_rule labels min_confidence d
    (if (1 <? length (Counter labels))
        && Qltb (truediv (occurrences d labels) (length labels)) min_confidence
     then "yes" else "no").
Proof.
  unfold jump_rule, share.
  destruct (_ && _) eqn:E.
  - split; [left; reflexivity|]. split; [intros _|reflexivity].
    apply andb_true_iff in E as [E1 E2].
    split; [apply several_labels_Counter, E1|apply Qltb_lt, E2].
  - split; [right; reflexivity|]. split; [discriminate|].
    intros [H1 H2]. apply several_labels_Counter in H1.
    apply Qltb_lt in H2. rewrite H1, H2 in E. discriminate.
Qed.

Lemma several_labels_single labels : length labels = 1 → ¬ several_labels labels.
Proof.
  destruct labels as [|l [|l' labels]]; simpl; try lia. intros _.
  intros (a & b & Ha & Hb & Hab).
  apply list_elem_of_singleton in Ha, Hb. congruence.
Qed.

Lemma several_labels_uniform labels l :
  (∀ x, x ∈ labels → x = l) → ¬ several_labels labels.
Proof.
  intros Hall (a & b & Ha & Hb & Hab).
  apply Hall in Ha, Hb. congruence.
Qed.

(** What [_process_interval] returns on an interval that has members. *)
Lemma process_interval_spec self iv :
  Processor.iv_states iv ≠ [] →
  ∃ r, Processor._process_interval self iv = Ok r
       ∧ Processor.start_time r = Processor.iv_start_time iv
       ∧ Processor.end_time r = Processor.iv_end_time iv
       ∧ Processor.total_records r = length (Processor.iv_states iv)
       ∧ Processor.states_count r = Counter (Processor.iv_states iv)
       ∧ dominant (Processor.res_state r) (Processor.iv_states iv)
       ∧ Processor.confidence_percentage r
         = round (truediv (occurrences (Processor.res_state r)
                             (Processor.iv_states iv))
                    (length (Processor.iv_states iv)) * 100) 2
       ∧ jump_rule (Processor.iv_states iv) (Processor.min_confidence self)
           (Processor.res_state r) (Processor.is_tower_jump r).
Proof.
  intros Hne. destruct (most_common_dominant _ Hne) as (d & Hd & Hdom).
  unfold Processor._process_interval. rewrite Hd. simpl.
  eexists. split; [reflexivity|]. simpl.
  repeat (split; [first [reflexivity|exact Hdom]|]).
  apply flag_jump_rule.
Qed.

(** ** The loop of [Processor.analyze_tower_jumps] *)

Section ProcessorLoop.
Import Processor.
Variable self : TowerJumpAnalyzer.

Lemma new_interval_has_members record : has_members (new_interval record).
Proof. unfold has_members. simpl. congruence. Qed.

Lemma add_to_interval_has_members cur record :
  has_members (add_to_interval cur record).
Proof.
  unfold has_members. simpl. intros H. apply app_eq_nil in H as [_ H].
  congruence.
Qed.

(** The loop that records the closed intervals and the loop of the source
    take the same branches: the results are the closed intervals, each
    passed through [_process_interval]. *)
Lemma interval_loop_analyze_loop l : ∀ cur closed results,
  Forall2 (processed self) closed results →
  (∀ iv, cur = Some iv → has_members iv) →
  match interval_loop self l cur closed with
  | Ok (cur', closed') =>
      ∃ results', analyze_loop self l cur results = Ok (cur', results')
                  ∧ Forall2 (processed self) closed' results'
                  ∧ (∀ iv, cur' = Some iv → has_members iv)
  | Raise e => analyze_loop self l cur results = Raise e
  end.
Proof.
  induction l as [|record rest IH]; intros cur closed results HF Hcur; simpl.
  - exists results. auto.
  - destruct (state_missing record); [apply IH; assumption|].
    destruct cur as [cur|].
    + destruct (minutes_between _ _) as [time_diff|e]; simpl; [|reflexivity].
      destruct (Qle_bool time_diff (time_window_minutes self)).
      * apply IH; [assumption|]. intros iv [= <-].
        apply add_to_interval_has_members.
      * destruct (process_interval_spec self cur (Hcur cur eq_refl))
          as (r & Hr & _).
        rewrite Hr. simpl. apply IH.
        -- apply Forall2_app; [assumption|]. constructor; [exact Hr|constructor].
        -- intros iv [= <-]. apply new_interval_has_members.
    + apply IH; [assumption|]. intros iv [= <-].
      apply new_interval_has_members.
Qed.

Lemma closed_intervals_analyze :
  match closed_intervals self with
  | Ok ivs =>
      ∃ results, analyze_tower_jumps self = Ok results
                 ∧ Forall2 (processed self) ivs results
  | Raise e => analyze_tower_jumps self = Raise e
  end.
Proof.
  unfold closed_intervals, analyze_tower_jumps.
  destruct (sorted_by_time (data self)) as [sorted|e]; simpl; [|reflexivity].
  pose proof (interval_loop_analyze_loop sorted None [] [] ltac:(constructor)) as H.
  destruct (interval_loop self sorted None []) as [[cur' closed']|e]; simpl.
  - destruct H as (results' & -> & HF & Hcur); [discriminate|]. simpl.
    destruct cur' as [cur|]; [|exists results'; auto].
    destruct (process_interval_spec self cur (Hcur cur eq_refl)) as (r & Hr & _).
    rewrite Hr. simpl. exists (results' ++ [r]). split; [reflexivity|].
    apply Forall2_app; [assumption|]. constructor; [exact Hr|constructor].
  - rewrite H; [reflexivity|discriminate].
Qed.

(** *** Shape of the closed intervals *)

Lemma new_interval_well_formed record :
  labelled record = true → well_formed (new_interval record).
Proof.
  intros Hl. unfold well_formed. simpl.
  repeat split; [congruence|]. constructor; [exact Hl|constructor].
Qed.

Lemma add_to_interval_well_formed cur record :
  labelled record = true → well_formed cur →
  well_formed (add_to_interval cur record).
Proof.
  intros Hl (Hne & Hst & Hall & Hs & He). unfold well_formed. simpl.
  split; [intros H; apply app_eq_nil in H as [_ H]; congruence|].
  split; [rewrite map_app, Hst; reflexivity|].
  split; [apply Forall_app; split; [exact Hall|]; constructor;
          [exact Hl|constructor]|].
  split.
  - rewrite Hs. destruct (iv_records cur); [congruence|reflexivity].
  - rewrite last_snoc. reflexivity.
Qed.

Lemma interval_loop_members l : ∀ cur closed cur' closed',
  interval_loop self l cur closed = Ok (cur', closed') →
  members closed' cur' = members closed cur ++ List.filter labelled l.
Proof.
  induction l as [|record rest IH]; intros cur closed cur' closed'; simpl.
  - intros [= <- <-]. rewrite app_nil_r. reflexivity.
  - unfold labelled at 1.
    destruct (state_missing record) eqn:Em; simpl; [apply IH|].
    destruct cur as [cur|].
    + destruct (minutes_between _ _) as [time_diff|e]; simpl; [|discriminate].
      destruct (Qle_bool time_diff (time_window_minutes self));
        intros H; apply IH in H; rewrite H; unfold members; simpl.
      * rewrite <- !app_assoc. reflexivity.
      * rewrite map_app, concat_app. simpl. rewrite app_nil_r, <- !app_assoc.
        reflexivity.
    + intros H; apply IH in H; rewrite H; unfold members; simpl.
      rewrite <- !app_assoc. reflexivity.
Qed.

Lemma interval_loop_well_formed l : ∀ cur closed cur' closed',
  interval_loop self l cur closed = Ok (cur', closed') →
  Forall well_formed closed → (∀ iv, cur = Some iv → well_formed iv) →
  Forall well_formed closed' ∧ (∀ iv, cur' = Some iv → well_formed iv).
Proof.
  induction l as [|record rest IH]; intros cur closed cur' closed'; simpl.
  - intros [= <- <-]. auto.
  - destruct (state_missing record) eqn:Em; [apply IH|].
    assert (Hl : labelled record = true) by (unfold labelled; rewrite Em; auto).
    destruct cur as [cur|].
    + destruct (minutes_between _ _) as [time_diff|e]; simpl; [|discriminate].
      destruct (Qle_bool time_diff (time_window_minutes self));
        intros H Hcl Hcur; apply IH in H; auto.
      * intros iv [= <-]. apply add_to_interval_well_formed; auto.
      * apply Forall_app. split; [assumption|]. constructor; auto.
      * intros iv [= <-]. apply new_interval_well_formed; assumption.
    + intros H Hcl Hcur; apply IH in H; auto.
      intros iv [= <-]. apply new_interval_well_formed; assumption.
Qed.

End ProcessorLoop.

(** ** The sort of [Processor.analyze_tower_jumps] *)

Section ProcessorSort.
Import Processor.

Lemma insert_by_time_Permutation record l l' :
  insert_by_time record l = Ok l' → Permutation (record :: l) l'.
Proof.
  revert l'; induction l as [|x l IH]; intros l'; simpl.
  - intros [= <-]. reflexivity.
  - destruct (key_lt _ _) as [[]|e]; simpl; [| |discriminate].
    + destruct (insert_by_time record l) as [l''|e]; simpl; [|discriminate].
      intros [= <-]. rewrite perm_swap. constructor. apply IH. reflexivity.
    + intros [= <-]. reflexivity.
Qed.

Lemma sorted_by_time_Permutation data s :
  sorted_by_time data = Ok s → Permutation data s.
Proof.
  revert s; induction data as [|record data IH]; intros s; simpl.
  - intros [= <-]. reflexivity.
  - destruct (sorted_by_time data) as [s'|e]; simpl; [|discriminate].
    intros H%insert_by_time_Permutation. rewrite <- H. constructor.
    apply IH. reflexivity.
Qed.

Lemma key_lt_timed a b :
  a ≠ None → b ≠ None → ∃ c, key_lt a b = Ok c.
Proof. destruct a, b; simpl; try congruence. eauto. Qed.

Lemma insert_by_time_total record l :
  timed record → Forall timed l → ∃ l', insert_by_time record l = Ok l'.
Proof.
  intros Hr Hl. induction Hl as [|x l Hx Hl IH]; simpl; [eauto|].
  destruct (key_lt_timed (utc_datetime x) (utc_datetime record) Hx Hr)
    as [c ->]. simpl.
  destruct c; [|eauto]. destruct IH as [l' ->]. simpl. eauto.
Qed.

Lemma sorted_by_time_total data :
  Forall timed data → ∃ s, sorted_by_time data = Ok s.
Proof.
  induction 1 as [|record data Hr Hd IH]; simpl; [eauto|].
  destruct IH as [s Hs]. rewrite Hs. simpl.
  apply insert_by_time_total; [exact Hr|].
  apply sorted_by_time_Permutation in Hs. rewrite <- Hs. exact Hd.
Qed.

Lemma insert_by_time_TypeError record l e :
  insert_by_time record l = Raise e → e = TypeError.
Proof.
  induction l as [|x l IH]; simpl; [discriminate|].
  destruct (utc_datetime x), (utc_datetime record); simpl;
    try (intros [= <-]; reflexivity).
  destruct (_ <? _)%Z; [|discriminate].
  destruct (insert_by_time record l); simpl; [discriminate|].
  intros [= <-]. apply IH. reflexivity.
Qed.

Lemma sorted_by_time_TypeError data e :
  sorted_by_time data = Raise e → e = TypeError.
Proof.
  revert e; induction data as [|record data IH]; intros e; simpl;
    [discriminate|].
  destruct (sorted_by_time data) as [s|e']; simpl.
  - apply insert_by_time_TypeError.
  - intros [= <-]. apply IH. reflexivity.
Qed.

Lemma insert_by_time_Ok_timed record y l s :
  insert_by_time record (y :: l) = Ok s → timed record ∧ timed y.
Proof.
  unfold timed. simpl.
  destruct (utc_datetime y), (utc_datetime record); simpl; try discriminate.
  intros _. split; congruence.
Qed.

(** A sort that succeeds on two records or more has compared every key. *)
Lemma sorted_by_time_Ok_timed data s :
  sorted_by_time data = Ok s → (length data ≤ 1)%nat ∨ Forall timed data.
Proof.
  revert s; induction data as [|record data IH]; intros s; [left; simpl; lia|].
  cbn [sorted_by_time].
  destruct (sorted_by_time data) as [s'|e'] eqn:Es; simpl; [|discriminate].
  intros Hi.
  pose proof (sorted_by_time_Permutation _ _ Es) as Hp.
  destruct data as [|x data]; [left; simpl; lia|right].
  destruct s' as [|y s'']; [apply Permutation_sym, Permutation_nil in Hp;
                            discriminate|].
  apply insert_by_time_Ok_timed in Hi as [Hr Hy].
  constructor; [exact Hr|].
  destruct (IH _ eq_refl) as [Hlen|Hall]; [|exact Hall].
  destruct data; [|simpl in Hlen; lia].
  apply Permutation_singleton_l in Hp. injection Hp as <- <-.
  constructor; [exact Hy|constructor].
Qed.

(** With two records or more, one of them without a timestamp, the sort
    raises [TypeError]. *)
Lemma sorted_by_time_untimed data :
  (2 ≤ length data)%nat → ¬ Forall timed data →
  sorted_by_time data = Raise TypeError.
Proof.
  intros Hlen Hex. destruct (sorted_by_time data) as [s|e] eqn:Es.
  - apply sorted_by_time_Ok_timed in Es as [?|?]; [lia|contradiction].
  - apply sorted_by_time_TypeError in Es. rewrite Es. reflexivity.
Qed.

Lemma insert_by_time_first record l :
  timed record → Forall (not_later record) l →
  insert_by_time record l = Ok (record :: l).
Proof.
  intros Hr Hl. destruct Hl as [|x l Hx Hl]; simpl; [reflexivity|].
  unfold not_later in Hx.
  destruct (utc_datetime record) as [t|], (utc_datetime x) as [u|];
    try contradiction.
  simpl. destruct (Z.ltb_spec u t); [lia|reflexivity].
Qed.

(** The sort leaves a chronologically sorted sequence as it is. *)
Lemma sorted_by_time_chronological data :
  chronological data → sorted_by_time data = Ok data.
Proof.
  intros [Ht Hs]. induction Hs as [|record data Hs IH Hr]; simpl;
    [reflexivity|].
  apply Forall_cons in Ht as [Hrt Ht].
  rewrite (IH Ht). simpl. apply insert_by_time_first; assumption.
Qed.

Lemma insert_by_time_sorted record l l' :
  timed record → Forall timed l → StronglySorted not_later l →
  insert_by_time record l = Ok l' → StronglySorted not_later l'.
Proof.
  intros Hr Hl Hs. revert l'.
  induction Hs as [|x l Hs IH Hx]; intros l'; simpl.
  - intros [= <-]. repeat constructor.
  - apply Forall_cons in Hl as [Hxt Hl]. unfold timed in Hr, Hxt.
    destruct (utc_datetime x) as [xt|] eqn:Ex; [|congruence].
    destruct (utc_datetime record) as [rt|] eqn:Er; [|congruence]. simpl.
    destruct (Z.ltb_spec xt rt) as [Hlt|Hge].
    + destruct (insert_by_time record l) as [l''|e] eqn:Ei; simpl;
        [|discriminate].
      intros [= <-]. constructor; [apply IH; [exact Hl|reflexivity]|].
      apply insert_by_time_Permutation in Ei. rewrite <- Ei.
      constructor; [|exact Hx]. unfold not_later. rewrite Ex, Er. lia.
    + intros [= <-]. constructor; [constructor; assumption|].
      constructor; [unfold not_later; rewrite Ex, Er; exact Hge|].
      eapply Forall_impl; [exact Hx|]. intros y. unfold not_later.
      rewrite Ex, Er. destruct (utc_datetime y); [lia|contradiction].
Qed.

(** The sort returns the records in chronological order. *)
Lemma sorted_by_time_sorted data s :
  Forall timed data → sorted_by_time data = Ok s → chronological s.
Proof.
  intros Ht Hs. split.
  - apply sorted_by_time_Permutation in Hs. rewrite <- Hs. exact Ht.
  - revert s Hs. induction Ht as [|record data Hr Ht IH]; intros s; simpl.
    + intros [= <-]. constructor.
    + destruct (sorted_by_time data) as [s'|e] eqn:Es; simpl; [|discriminate].
      apply insert_by_time_sorted; [exact Hr| |apply IH; reflexivity].
      apply sorted_by_time_Permutation in Es. rewrite <- Es. exact Ht.
Qed.

End ProcessorSort.

(** ** Totality and coverage of the segmentation *)

Section ProcessorCoverage.
Import Processor.
Variable self : TowerJumpAnalyzer.

Lemma interval_loop_total l : ∀ cur closed,
  Forall timed l → (∀ iv, cur = Some iv → iv_end_time iv ≠ None) →
  ∃ out, interval_loop self l cur closed = Ok out.
Proof.
  induction l as [|record rest IH]; intros cur closed Hl Hcur; simpl;
    [eauto|].
  apply Forall_cons in Hl as [Hr Hl].
  destruct (state_missing record); [apply IH; assumption|].
  destruct cur as [cur|].
  - specialize (Hcur cur eq_refl). unfold timed in Hr.
    destruct (utc_datetime record) as [t|] eqn:Et; [|congruence].
    destruct (iv_end_time cur) as [u|]; [|congruence]. simpl.
    destruct (Qle_bool _ _); apply IH; try assumption;
      intros iv [= <-]; simpl; congruence.
  - apply IH; [assumption|]. intros iv [= <-]. simpl. exact Hr.
Qed.

Lemma closed_intervals_total :
  Forall timed (data self) → ∃ ivs, closed_intervals self = Ok ivs.
Proof.
  intros Ht. unfold closed_intervals.
  destruct (sorted_by_time_total _ Ht) as [s Hs]. rewrite Hs. simpl.
  apply sorted_by_time_Permutation in Hs. rewrite Hs in Ht.
  destruct (interval_loop_total s None [] Ht) as [[cur closed] ->];
    [discriminate|].
  simpl. destruct cur; eauto.
Qed.

(** The closed intervals cut the labelled records, in sorted order, into
    consecutive runs. *)
Lemma closed_intervals_partition ivs :
  closed_intervals self = Ok ivs →
  ∃ sorted, sorted_by_time (data self) = Ok sorted
            ∧ concat (map iv_records ivs) = List.filter labelled sorted
            ∧ Forall well_formed ivs.
Proof.
  unfold closed_intervals.
  destruct (sorted_by_time (data self)) as [s|e]; simpl; [|discriminate].
  destruct (interval_loop self s None []) as [[cur closed]|e] eqn:El; simpl;
    [|discriminate].
  pose proof (interval_loop_members _ _ _ _ _ _ El) as Hm.
  destruct (interval_loop_well_formed _ _ _ _ _ _ El) as [Hw Hc];
    [constructor|discriminate|].
  unfold members in Hm. simpl in Hm.
  destruct cur as [cur|]; intros [= <-]; exists s; (split; [reflexivity|]).
  - split.
    + rewrite map_app, concat_app. simpl. rewrite app_nil_r. exact Hm.
    + apply Forall_app. split; [exact Hw|]. constructor; [|constructor].
      apply Hc. reflexivity.
  - split; [|exact Hw]. simpl in Hm. rewrite app_nil_r in Hm. exact Hm.
Qed.

Lemma filter_length_Permutation {A} (f : A → bool) l l' :
  Permutation l l' → length (List.filter f l) = length (List.filter f l').
Proof.
  induction 1 as [|x l l' _ IH|x y l|l l' l'' _ IH1 _ IH2]; simpl.
  - reflexivity.
  - destruct (f x); simpl; congruence.
  - destruct (f x), (f y); reflexivity.
  - congruence.
Qed.

Lemma total_records_sum ivs results :
  Forall2 (processed self) ivs results → Forall well_formed ivs →
  sum_list_with total_records results = length (concat (map iv_records ivs)).
Proof.
  induction 1 as [|iv r ivs results Hp _ IH]; intros Hw; simpl;
    [reflexivity|].
  apply Forall_cons in Hw as [(Hne & Hst & _) Hw].
  rewrite length_app, (IH Hw). f_equal.
  assert (Hm : has_members iv).
  { unfold has_members. rewrite Hst. destruct (iv_records iv); simpl;
      congruence. }
  destruct (process_interval_spec self iv Hm) as (r' & Hr' & _ & _ & Ht & _).
  unfold processed in Hp. rewrite Hp in Hr'. injection Hr' as <-.
  rewrite Ht, Hst, length_map. reflexivity.
Qed.

End ProcessorCoverage.

(** C3. Coverage: the analysis returns when every loaded record has a
    timestamp, and whenever it returns, the intervals it closes cut the
    sequence of non-blank-label records (in sorted order) into consecutive
    runs: each such record is a member of exactly one interval, every member
    has a non-blank label, and the [total_records] of the results add up to
    the number of non-blank-label input records. *)
Theorem coverage (self : Processor.TowerJumpAnalyzer) :
  (Forall timed (Processor.data self) →
   ∃ results, Processor.analyze_tower_jumps self = Ok results)
  ∧ (∀ results,
       Processor.analyze_tower_jumps self = Ok results →
       ∃ sorted ivs,
         Processor.sorted_by_time (Processor.data self) = Ok sorted
         ∧ Permutation (Processor.data self) sorted
         ∧ Processor.closed_intervals self = Ok ivs
         ∧ Forall2 (fun iv r =>
                      Processor._process_interval self iv = Ok r
                      ∧ Processor.total_records r
                        = length (Processor.iv_records iv)) ivs results
         ∧ concat (map Processor.iv_records ivs) = List.filter labelled sorted
         ∧ Forall (fun iv =>
                     Forall (fun r => Processor.state_missing r = false)
                       (Processor.iv_records iv)) ivs
         ∧ sum_list_with Processor.total_records results
           = length (List.filter labelled (Processor.data self))).
Proof.
  pose proof (closed_intervals_analyze self) as Ha. split.
  - intros Ht. destruct (closed_intervals_total self Ht) as [ivs Hivs].
    rewrite Hivs in Ha. destruct Ha as (results & Hres & _). eauto.
  - intros results Hres.
    destruct (Processor.closed_intervals self) as [ivs|e] eqn:Hivs;
      [|rewrite Ha in Hres; discriminate].
    destruct Ha as (results' & Hres' & HF).
    rewrite Hres in Hres'. injection Hres' as <-.
    destruct (closed_intervals_partition self ivs Hivs)
      as (s & Hs & Hcat & Hw).
    pose proof (sorted_by_time_Permutation _ _ Hs) as Hp.
    exists s, ivs. repeat (split; [assumption || reflexivity|]).
    split; [|split; [exact Hcat|split]].
    + clear Hcat Hivs Hres. induction HF as [|iv r ivs results Hr _ IH];
        constructor.
      * split; [exact Hr|]. apply Forall_cons in Hw as [(Hne & Hst & _) _].
        assert (Hm : has_members iv).
        { unfold has_members. rewrite Hst.
          destruct (Processor.iv_records iv); simpl; congruence. }
        destruct (process_interval_spec self iv Hm)
          as (r' & Hr' & _ & _ & Hl & _).
        unfold processed in Hr. rewrite Hr in Hr'. injection Hr' as <-.
        rewrite Hl, Hst, length_map. reflexivity.
      * apply IH. apply Forall_cons in Hw as [_ Hw]. exact Hw.
    + eapply Forall_impl; [exact Hw|]. intros iv (_ & _ & Hall & _).
      eapply Forall_impl; [exact Hall|]. intros r. unfold labelled.
      destruct (Processor.state_missing r); simpl; congruence.
    + rewrite (total_records_sum self ivs results HF Hw), Hcat.
      symmetry. apply filter_length_Permutation. exact Hp.
Qed.

(** ** The classification rule *)

Lemma jump_rule_single labels mc d flag :
  jump_rule labels mc d flag → length labels = 1 → flag = "no".
Proof.
  intros [[ -> | -> ] Hiff] Hlen; [|reflexivity].
  destruct Hiff as [Hyes _]. destruct (Hyes eq_refl) as [Hs _].
  apply several_labels_single in Hlen. contradiction.
Qed.

Lemma jump_rule_uniform labels mc d flag l :
  jump_rule labels mc d flag → (∀ x, x ∈ labels → x = l) → flag = "no".
Proof.
  intros [[ -> | -> ] Hiff] Hall; [|reflexivity].
  destruct Hiff as [Hyes _]. destruct (Hyes eq_refl) as [Hs _].
  apply several_labels_uniform in Hall. contradiction.
Qed.

(** What the closing block of [src/test.py] returns. *)
Lemma close_interval_spec start e labels mc r :
  TestPy.close_interval start e labels mc = Ok r →
  labels ≠ []
  ∧ TestPy.start_time r = start
  ∧ TestPy.end_time r = e
  ∧ dominant (TestPy.state r) labels
  ∧ TestPy.confidence r
    = (truediv (occurrences (TestPy.state r) labels) (length labels) * 100)%Q
  ∧ jump_rule labels mc (TestPy.state r) (TestPy.is_tower_jump r).
Proof.
  intros H. assert (Hne : labels ≠ []) by (intros ->; discriminate).
  destruct (most_common_dominant _ Hne) as (d & Hd & Hdom).
  unfold TestPy.close_interval in H. rewrite Hd in H. simpl in H.
  injection H as <-. simpl.
  repeat (split; [first [assumption|reflexivity]|]).
  apply flag_jump_rule.
Qed.

(** ** The end-to-end scenario *)

Lemma within_window d w :
  Qle_bool (inject_Z d / 60) (inject_Z w) = (d <=? 60 * w)%Z.
Proof.
  apply eq_true_iff_eq. rewrite Qle_bool_iff, Z.leb_le.
  unfold Qle, Qdiv, Qmult, Qinv, inject_Z. simpl. lia.
Qed.

Lemma Counter_A_A_B A B :
  A ≠ B → Counter [A; A; B] = [(A, 2); (B, 1)].
Proof.
  intros Hne. unfold Counter. simpl.
  rewrite decide_True by reflexivity. simpl.
  rewrite decide_False by congruence. reflexivity.
Qed.

Lemma Counter_A_B A B : A ≠ B → Counter [A; B] = [(A, 1); (B, 1)].
Proof.
  intros Hne. unfold Counter. simpl.
  rewrite decide_False by congruence. reflexivity.
Qed.

Section LoopSteps.
Import Processor.
Variable self : TowerJumpAnalyzer.
Variables (record : record_dict) (rest : list record_dict).
Hypothesis record_labelled : state_missing record = false.

Lemma interval_loop_open closed :
  interval_loop self (record :: rest) None closed
  = interval_loop self rest (Some (new_interval record)) closed.
Proof. simpl. rewrite record_labelled. reflexivity. Qed.

Lemma interval_loop_join cur closed t u w :
  utc_datetime record = Some t → iv_end_time cur = Some u →
  time_window_minutes self = inject_Z w → (t - u ≤ 60 * w)%Z →
  interval_loop self (record :: rest) (Some cur) closed
  = interval_loop self rest (Some (add_to_interval cur record)) closed.
Proof.
  intros Ht Hu Hw Hle. simpl. rewrite record_labelled, Ht, Hu, Hw. simpl.
  rewrite within_window.
  destruct (Z.leb_spec (t - u) (60 * w)); [reflexivity|lia].
Qed.

Lemma interval_loop_close cur closed t u w :
  utc_datetime record = Some t → iv_end_time cur = Some u →
  time_window_minutes self = inject_Z w → (60 * w < t - u)%Z →
  interval_loop self (record :: rest) (Some cur) closed
  = interval_loop self rest (Some (new_interval record)) (closed ++ [cur]).
Proof.
  intros Ht Hu Hw Hle. simpl. rewrite record_labelled, Ht, Hu, Hw. simpl.
  rewrite within_window.
  destruct (Z.leb_spec (t - u) (60 * w)); [lia|reflexivity].
Qed.

End LoopSteps.

Section Scenario.
Import Processor Sample.
Variables (T : Z) (A B : string).
Hypothesis A_not_B : A ≠ B.
Hypothesis A_label : blank A = false.
Hypothesis B_label : blank B = false.

Lemma scenario_chronological : chronological (scenario T A B).
Proof.
  split.
  - repeat constructor; discriminate.
  - repeat (constructor; [|repeat constructor; unfold not_later; simpl; lia]).
    constructor.
Qed.

Lemma scenario_intervals :
  closed_intervals (analyzer (scenario T A B))
  = Ok [ {| iv_start_time := Some T; iv_end_time := Some (T + 120)%Z;
            iv_states := [A; A; B];
            iv_records := firstn 3 (scenario T A B) |};
         {| iv_start_time := Some (T + 600)%Z; iv_end_time := Some (T + 660)%Z;
            iv_states := [A; B];
            iv_records := firstn 2 (skipn 3 (scenario T A B)) |};
         {| iv_start_time := Some (T + 1200)%Z;
            iv_end_time := Some (T + 1200)%Z;
            iv_states := [A];
            iv_records := skipn 5 (scenario T A B) |} ].
Proof.
  unfold closed_intervals. cbn [data analyzer set_data].
  rewrite (sorted_by_time_chronological _ scenario_chronological).
  unfold scenario. cbn [bind].
  rewrite interval_loop_open by assumption.
  erewrite interval_loop_join with (w := 5%Z);
    [|assumption|reflexivity|reflexivity|reflexivity|simpl; lia].
  erewrite interval_loop_join with (w := 5%Z);
    [|assumption|reflexivity|reflexivity|reflexivity|simpl; lia].
  erewrite interval_loop_close with (w := 5%Z);
    [|assumption|reflexivity|reflexivity|reflexivity|simpl; lia].
  erewrite interval_loop_join with (w := 5%Z);
    [|assumption|reflexivity|reflexivity|reflexivity|simpl; lia].
  erewrite interval_loop_close with (w := 5%Z);
    [|assumption|reflexivity|reflexivity|reflexivity|simpl; lia].
  reflexivity.
Qed.

End Scenario.

(** C4. The end-to-end scenario: six records at [T], [T+1], [T+2], [T+10],
    [T+11] and [T+20] minutes with the labels [A, A, B, A, B, A], a window of
    5 minutes and a threshold of 0.6 give three intervals: [[T, T+2]] with
    counts [{A:2, B:1}] and confidence 2/3 (reported as 66.67), not a jump;
    [[T+10, T+11]] with counts [{A:1, B:1}] and confidence 1/2, a jump;
    [[T+20, T+20]] with counts [{A:1}] and confidence 1, not a jump. *)
Theorem end_to_end_scenario (T : Z) (A B : string) :
  A ≠ B → blank A = false → blank B = false →
  let self := Sample.analyzer (Sample.scenario T A B) in
  Processor.time_window_minutes self = 5%Q
  ∧ Processor.min_confidence self = (6 # 10)%Q
  ∧ (∃ ivs, Processor.closed_intervals self = Ok ivs
            ∧ map Processor.iv_states ivs = [[A; A; B]; [A; B]; [A]])
  ∧ Processor.analyze_tower_jumps self
    = Ok [ {| Processor.start_time := Some T;
              Processor.end_time := Some (T + 120)%Z;
              Processor.res_state := A;
              Processor.is_tower_jump := "no";
              Processor.confidence_percentage := (6667 # 100)%Q;
              Processor.total_records := 3;
              Processor.states_count := [(A, 2); (B, 1)] |};
           {| Processor.start_time := Some (T + 600)%Z;
              Processor.end_time := Some (T + 660)%Z;
              Processor.res_state := A;
              Processor.is_tower_jump := "yes";
              Processor.confidence_percentage := (5000 # 100)%Q;
              Processor.total_records := 2;
              Processor.states_count := [(A, 1); (B, 1)] |};
           {| Processor.start_time := Some (T + 1200)%Z;
              Processor.end_time := Some (T + 1200)%Z;
              Processor.res_state := A;
              Processor.is_tower_jump := "no";
              Processor.confidence_percentage := (10000 # 100)%Q;
              Processor.total_records := 1;
              Processor.states_count := [(A, 1)] |} ]
  ∧ (share A [A; A; B] == 2 # 3)%Q
  ∧ (share A [A; B] == 1 # 2)%Q
  ∧ (share A [A] == 1)%Q.
Proof.
  intros Hne HA HB self. split; [reflexivity|]. split; [reflexivity|].
  pose proof (scenario_intervals T A B HA HB) as Hivs. fold self in Hivs.
  split; [eexists; split; [exact Hivs|reflexivity]|]. split.
  - pose proof (closed_intervals_analyze self) as Ha. rewrite Hivs in Ha.
    destruct Ha as (results & -> & HF). f_equal.
    apply Forall2_cons_inv_l in HF as (r1 & rs1 & H1 & HF & ->).
    apply Forall2_cons_inv_l in HF as (r2 & rs2 & H2 & HF & ->).
    apply Forall2_cons_inv_l in HF as (r3 & rs3 & H3 & HF & ->).
    apply Forall2_nil_inv_l in HF as ->.
    unfold processed, Processor._process_interval in H1, H2, H3.
    cbn [Processor.iv_states Processor.iv_start_time Processor.iv_end_time]
      in H1, H2, H3.
    rewrite (Counter_A_A_B A B Hne) in H1. rewrite (Counter_A_B A B Hne) in H2.
    vm_compute in H1, H2, H3.
    injection H1 as <-. injection H2 as <-. injection H3 as <-. reflexivity.
  - unfold share. simpl.
    rewrite !decide_True by reflexivity. rewrite !decide_False by congruence.
    repeat split; reflexivity.
Qed.

(** The scenario with the labels ["A"] and ["B"]. *)
Lemma end_to_end_scenario_witness :
  Processor.analyze_tower_jumps (Sample.analyzer (Sample.scenario 0 "A" "B"))
  = Ok [ {| Processor.start_time := Some 0%Z;
            Processor.end_time := Some 120%Z;
            Processor.res_state := "A";
            Processor.is_tower_jump := "no";
            Processor.confidence_percentage := (6667 # 100)%Q;
            Processor.total_records := 3;
            Processor.states_count := [("A", 2); ("B", 1)] |};
         {| Processor.start_time := Some 600%Z;
            Processor.end_time := Some 660%Z;
            Processor.res_state := "A";
            Processor.is_tower_jump := "yes";
            Processor.confidence_percentage := (5000 # 100)%Q;
            Processor.total_records := 2;
            Processor.states_count := [("A", 1); ("B", 1)] |};
         {| Processor.start_time := Some 1200%Z;
            Processor.end_time := Some 1200%Z;
            Processor.res_state := "A";
            Processor.is_tower_jump := "no";
            Processor.confidence_percentage := (10000 # 100)%Q;
            Processor.total_records := 1;
            Processor.states_count := [("A", 1)] |} ].
Proof.
  assert (Hne : "A" ≠ "B") by discriminate.
  exact (proj1 (proj2 (proj2 (proj2
           (end_to_end_scenario 0 "A" "B" Hne eq_refl eq_refl))))).
Defined.

(** ** The threshold boundary *)

Lemma occurrences_Permutation x l l' :
  Permutation l l' → occurrences x l = occurrences x l'.
Proof.
  induction 1 as [|y l l' _ IH|y z l|l l' l'' _ IH1 _ IH2]; simpl; lia.
Qed.

(** In a 3:2 split the dominant label is the one with three members, and its
    share is 3/5. *)
Lemma split_3_2 labels a b d :
  a ≠ b → Permutation labels [a; a; a; b; b] → dominant d labels →
  several_labels labels ∧ share d labels = truediv 3 5.
Proof.
  intros Hne Hp [Hin Hmax]. split.
  - exists a, b. rewrite !Hp. repeat split; [left|do 3 right; left|exact Hne].
  - unfold share. rewrite (Permutation_length Hp). simpl. f_equal.
    specialize (Hmax a). rewrite !(occurrences_Permutation _ _ _ Hp) in *.
    rewrite Hp in Hin. simpl in *.
    rewrite !(decide_True (P := a = a)) in Hmax by reflexivity.
    rewrite !(decide_False (P := a = b)) in Hmax by congruence.
    repeat (apply elem_of_cons in Hin as [->|Hin]);
      try (rewrite !decide_True by reflexivity;
           rewrite !decide_False by congruence; reflexivity);
      try (rewrite !(decide_True (P := b = b)) in Hmax by reflexivity;
           rewrite !(decide_False (P := b = a)) in Hmax by congruence;
           simpl in Hmax; lia).
    apply elem_of_nil in Hin. contradiction.
Qed.

(** C5. The jump decision compares the share of the dominant label, not
    rounded, with [min_confidence], strictly: a 3:2 split (confidence 3/5) is
    not a jump at threshold 0.6 and is one at 0.61.  The reported percentage
    is rounded to two decimals after the decision: at threshold 0.6667 a 2:1
    split (2/3, reported as 66.67) is a jump, which the rounded value would
    not give. *)
Theorem threshold_boundary :
  (∀ self iv a b,
     a ≠ b → Permutation (Processor.iv_states iv) [a; a; a; b; b] →
     ∃ r, Processor._process_interval self iv = Ok r
          ∧ (Processor.is_tower_jump r = "yes"
             ↔ (3 # 5 < Processor.min_confidence self)%Q)
          ∧ ((Processor.min_confidence self == 6 # 10)%Q →
             Processor.is_tower_jump r = "no")
          ∧ ((Processor.min_confidence self == 61 # 100)%Q →
             Processor.is_tower_jump r = "yes"))
  ∧ (∀ self iv r,
       Processor._process_interval self iv = Ok r →
       Processor.is_tower_jump r = "yes"
       ↔ several_labels (Processor.iv_states iv)
         ∧ (share (Processor.res_state r) (Processor.iv_states iv)
            < Processor.min_confidence self)%Q)
  ∧ (∀ iv,
       Processor.iv_states iv = ["A"; "A"; "B"] →
       ∃ r, Processor._process_interval
              (Sample.with_min_confidence (Sample.analyzer []) (6667 # 10000))
              iv = Ok r
            ∧ Processor.is_tower_jump r = "yes"
            ∧ Processor.confidence_percentage r = (6667 # 100)%Q
            ∧ ¬ (Processor.confidence_percentage r / 100 < 6667 # 10000)%Q).
Proof.
  split; [|split].
  - intros self iv a b Hne Hp.
    assert (Hm : has_members iv).
    { intros Hnil. rewrite Hnil in Hp. apply Permutation_nil in Hp.
      discriminate. }
    destruct (process_interval_spec self iv Hm)
      as (r & Hr & _ & _ & _ & _ & Hdom & _ & [Hflag Hrule]).
    destruct (split_3_2 _ a b _ Hne Hp Hdom) as [Hsev Hshare].
    rewrite Hshare in Hrule. exists r. split; [exact Hr|].
    assert (Hiff : Processor.is_tower_jump r = "yes"
                   ↔ (3 # 5 < Processor.min_confidence self)%Q).
    { rewrite Hrule. split; [intros [_ H]|intros H; split; [exact Hsev|]].
      - exact H.
      - exact H. }
    split; [exact Hiff|]. split.
    + intros Hmc. destruct Hflag as [Hy|Hn]; [|exact Hn].
      apply Hiff in Hy. rewrite Hmc in Hy. exfalso. revert Hy.
      unfold Qlt. simpl. lia.
    + intros Hmc. apply Hiff. rewrite Hmc. unfold Qlt. simpl. lia.
  - intros self iv r Hr.
    assert (Hm : has_members iv).
    { intros Hnil. unfold Processor._process_interval in Hr.
      rewrite Hnil in Hr. discriminate. }
    destruct (process_interval_spec self iv Hm)
      as (r' & Hr' & _ & _ & _ & _ & _ & _ & [_ Hrule]).
    rewrite Hr in Hr'. injection Hr' as <-. exact Hrule.
  - intros iv Hst. unfold Processor._process_interval. rewrite Hst.
    eexists. split; [vm_compute; reflexivity|]. simpl.
    split; [reflexivity|]. split; [reflexivity|].
    unfold Qlt. simpl. lia.
Qed.

Lemma threshold_boundary_witness :
  let iv := {| Processor.iv_start_time := Some 0%Z;
               Processor.iv_end_time := Some 240%Z;
               Processor.iv_states := ["NY"; "NJ"; "NY"; "NJ"; "NY"];
               Processor.iv_records := [] |} in
  (∃ r, Processor._process_interval (Sample.analyzer []) iv = Ok r
        ∧ Processor.is_tower_jump r = "no")
  ∧ (∃ r, Processor._process_interval
            (Sample.with_min_confidence (Sample.analyzer []) (61 # 100)) iv
          = Ok r
          ∧ Processor.is_tower_jump r = "yes").
Proof.
  intros iv.
  assert (Hne : "NY" ≠ "NJ") by discriminate.
  assert (Hp : Permutation (Processor.iv_states iv)
                 ["NY"; "NY"; "NY"; "NJ"; "NJ"]).
  { simpl. apply perm_skip.
    transitivity ["NY"; "NJ"; "NJ"; "NY"]; [apply perm_swap|].
    apply perm_skip. symmetry.
    exact (Permutation_cons_append ["NJ"; "NJ"] "NY"). }
  split.
  - destruct (proj1 threshold_boundary (Sample.analyzer []) iv _ _ Hne Hp)
      as (r & Hr & _ & H6 & _).
    exists r. split; [exact Hr|]. apply H6. reflexivity.
  - destruct (proj1 threshold_boundary
                (Sample.with_min_confidence (Sample.analyzer []) (61 # 100))
                iv _ _ Hne Hp) as (r & Hr & _ & _ & H61).
    exists r. split; [exact Hr|]. apply H61. reflexivity.
Defined.

(** ** The loop of [TestPy.analyze_tower_jumps] *)

Lemma close_interval_total start e labels mc :
  labels ≠ [] → ∃ r, TestPy.close_interval start e labels mc = Ok r.
Proof.
  intros Hne. destruct (most_common_dominant _ Hne) as (d & Hd & _).
  unfold TestPy.close_interval. rewrite Hd. simpl. eauto.
Qed.

Lemma no_state_false row :
  no_state row = false →
  ∃ c s, TestPy.State row = Some (String c s).
Proof.
  unfold no_state. destruct (TestPy.State row) as [[|c s]|]; simpl;
    try discriminate. eauto.
Qed.

Lemma no_state_true_cases row :
  no_state row = true →
  TestPy.State row = None ∨ TestPy.State row = Some EmptyString.
Proof.
  unfold no_state. destruct (TestPy.State row) as [[|c s]|]; simpl;
    try discriminate; auto.
Qed.

(** The loop of the source and the loop that gathers the member rows take
    the same branches. *)
Lemma test_analyze_loop_groups w mc rows : ∀ cur closed st,
  gathered cur st →
  Forall2 (group_result mc) closed (TestPy.results st) →
  ∃ st', TestPy.analyze_loop w mc rows st = Ok st'
         ∧ gathered (group_loop w rows cur closed).2 st'
         ∧ Forall2 (group_result mc) (group_loop w rows cur closed).1
             (TestPy.results st').
Proof.
  induction rows as [|row rest IH]; intros cur closed st Hg HF; simpl.
  - exists st. auto.
  - destruct (no_state row) eqn:En.
    + apply no_state_true_cases in En as [-> | ->]; apply IH; assumption.
    + destruct (no_state_false _ En) as (c & s & Es). rewrite Es.
      assert (Hl : label_of row = String c s)
        by (unfold label_of; rewrite Es; reflexivity).
      destruct Hg as [Hstart Hrec].
      destruct cur as [|first cur]; simpl in Hstart; rewrite Hstart.
      * apply IH; [|exact HF]. split; [reflexivity|]. simpl.
        rewrite Hl. reflexivity.
      * destruct (Qle_bool _ _).
        -- apply IH; [|exact HF]. split; [reflexivity|].
           cbn [TestPy.state_records]. rewrite (map_app label_of), <- Hrec.
           cbn [map].
           rewrite Hl. reflexivity.
        -- destruct (close_interval_total (Some (TestPy.UTCDateTime first))
                       (TestPy.UTCDateTime row - 60)
                       (TestPy.state_records st) mc) as [r Hr].
           { rewrite Hrec. discriminate. }
           rewrite Hr. simpl. apply IH.
           ++ split; [reflexivity|]. simpl. rewrite Hl. reflexivity.
           ++ simpl. apply Forall2_app; [exact HF|].
              constructor; [|constructor]. split; [discriminate|].
              cbn [group_members closing_row]. rewrite <- Hrec. exact Hr.
Qed.

Lemma group_loop_no_rows w :
  group_loop w [] [] [] = ([], []).
Proof. reflexivity. Qed.

(** [TestPy.analyze_tower_jumps] always returns: the rows of the groups
    closed inside the loop, then the row of the interval still open at the
    end, if any, whose [end_time] is taken from the last row of the frame. *)
Lemma test_analyze_groups self w mc :
  ∃ rs,
    Forall2 (group_result mc) (group_loop w (TestPy.df self) [] []).1 rs
    ∧ match (group_loop w (TestPy.df self) [] []).2 with
      | [] => TestPy.analyze_tower_jumps self w mc = Ok rs
      | first :: cur =>
          ∃ last_row r,
            last (TestPy.df self) = Some last_row
            ∧ TestPy.close_interval (Some (TestPy.UTCDateTime first))
                (TestPy.UTCDateTime last_row)
                (map label_of (first :: cur)) mc = Ok r
            ∧ TestPy.analyze_tower_jumps self w mc = Ok (rs ++ [r])
      end.
Proof.
  unfold TestPy.analyze_tower_jumps.
  destruct (test_analyze_loop_groups w mc (TestPy.df self) [] []
              {| TestPy.current_interval_start := None;
                 TestPy.state_records := [];
                 TestPy.results := [] |})
    as (st & -> & [Hstart Hrec] & HF); [split; reflexivity|constructor|].
  exists (TestPy.results st). split; [exact HF|]. simpl.
  destruct ((group_loop w (TestPy.df self) [] []).2) as [|first cur] eqn:Ec.
  - simpl in Hrec. rewrite Hrec. reflexivity.
  - cbn [map] in Hrec. rewrite Hrec. simpl in Hstart. rewrite Hstart.
    destruct (last (TestPy.df self)) as [last_row|] eqn:El.
    + unfold item_last. rewrite El. simpl.
      destruct (close_interval_total (Some (TestPy.UTCDateTime first))
                  (TestPy.UTCDateTime last_row)
                  (label_of first :: map label_of cur) mc) as [r Hr];
        [discriminate|].
      rewrite Hr. simpl. exists last_row, r. auto.
    + apply last_None in El. rewrite El in Ec. discriminate.
Qed.

(** C1. Every interval closed by either program, the final one included,
    is flagged as a tower jump exactly when its member labels hold more than
    one distinct label and the share of the dominant label is strictly below
    [min_confidence]; an interval with a single member, or whose members all
    carry the same label, is never flagged. *)
Theorem classification_rule :
  (∀ self results,
     Processor.analyze_tower_jumps self = Ok results →
     ∃ ivs,
       Processor.closed_intervals self = Ok ivs
       ∧ Forall2 (fun iv r =>
            let labels := map Processor.state (Processor.iv_records iv) in
            Processor._process_interval self iv = Ok r
            ∧ labels ≠ []
            ∧ dominant (Processor.res_state r) labels
            ∧ jump_rule labels (Processor.min_confidence self)
                (Processor.res_state r) (Processor.is_tower_jump r)
            ∧ (length labels = 1 → Processor.is_tower_jump r = "no")
            ∧ (∀ l, (∀ x, x ∈ labels → x = l) →
                    Processor.is_tower_jump r = "no")) ivs results)
  ∧ (∀ self w mc,
       ∃ results,
         TestPy.analyze_tower_jumps self w mc = Ok results
         ∧ Forall2 (fun labels r =>
              labels ≠ []
              ∧ dominant (TestPy.state r) labels
              ∧ jump_rule labels mc (TestPy.state r) (TestPy.is_tower_jump r)
              ∧ (length labels = 1 → TestPy.is_tower_jump r = "no")
              ∧ (∀ l, (∀ x, x ∈ labels → x = l) →
                      TestPy.is_tower_jump r = "no"))
             (interval_labels w (TestPy.df self)) results).
Proof.
  split.
  - intros self results Hres.
    pose proof (closed_intervals_analyze self) as Ha.
    destruct (Processor.closed_intervals self) as [ivs|e] eqn:Hivs;
      [|rewrite Ha in Hres; discriminate].
    destruct Ha as (results' & Hres' & HF).
    rewrite Hres in Hres'. injection Hres' as <-.
    exists ivs. split; [reflexivity|].
    destruct (closed_intervals_partition self ivs Hivs) as (_ & _ & _ & Hw).
    clear Hres Hivs. induction HF as [|iv r ivs results Hr _ IH]; constructor.
    + apply Forall_cons in Hw as [(Hne & Hst & _) _]. cbv zeta.
      rewrite <- Hst.
      assert (Hm : has_members iv).
      { unfold has_members. rewrite Hst.
        destruct (Processor.iv_records iv); simpl; congruence. }
      destruct (process_interval_spec self iv Hm)
        as (r' & Hr' & _ & _ & _ & _ & Hdom & _ & Hrule).
      unfold processed in Hr. rewrite Hr in Hr'. injection Hr' as <-.
      split; [exact Hr|]. split; [exact Hm|]. split; [exact Hdom|].
      split; [exact Hrule|]. split.
      * eapply jump_rule_single. exact Hrule.
      * intros l. eapply jump_rule_uniform. exact Hrule.
    + apply IH. apply Forall_cons in Hw as [_ Hw]. exact Hw.
  - intros self w mc.
    assert (Hclose : ∀ start e labels r,
              TestPy.close_interval start e labels mc = Ok r →
              labels ≠ []
              ∧ dominant (TestPy.state r) labels
              ∧ jump_rule labels mc (TestPy.state r) (TestPy.is_tower_jump r)
              ∧ (length labels = 1 → TestPy.is_tower_jump r = "no")
              ∧ (∀ l, (∀ x, x ∈ labels → x = l) →
                      TestPy.is_tower_jump r = "no")).
    { intros start e labels r Hc.
      destruct (close_interval_spec _ _ _ _ _ Hc)
        as (Hne & _ & _ & Hdom & _ & Hrule).
      split; [exact Hne|]. split; [exact Hdom|]. split; [exact Hrule|]. split.
      - eapply jump_rule_single. exact Hrule.
      - intros l. eapply jump_rule_uniform. exact Hrule. }
    destruct (test_analyze_groups self w mc) as (rs & HF & Hfin).
    unfold interval_labels. cbv zeta.
    assert (HF' : Forall2 (fun labels r =>
              labels ≠ []
              ∧ dominant (TestPy.state r) labels
              ∧ jump_rule labels mc (TestPy.state r) (TestPy.is_tower_jump r)
              ∧ (length labels = 1 → TestPy.is_tower_jump r = "no")
              ∧ (∀ l, (∀ x, x ∈ labels → x = l) →
                      TestPy.is_tower_jump r = "no"))
             (map (fun c => map label_of (group_members c))
                (group_loop w (TestPy.df self) [] []).1) rs).
    { clear Hfin. induction HF as [|g r gs rs' [_ Hc] _ IH]; simpl;
        constructor; [|exact IH].
      eapply Hclose. exact Hc. }
    destruct ((group_loop w (TestPy.df self) [] []).2) as [|first cur].
    + exists rs. split; [exact Hfin|]. rewrite app_nil_r. exact HF'.
    + destruct Hfin as (last_row & r & _ & Hc & Ha).
      exists (rs ++ [r]). split; [exact Ha|].
      apply Forall2_app; [exact HF'|]. constructor; [|constructor].
      eapply Hclose. exact Hc.
Qed.

(** C10. In [src/test.py], an interval closed by an out-of-window record is
    emitted with an [end_time] one minute before that record, and the
    interval still open at the end of the frame gets the timestamp of the
    last row of the whole frame; either can be strictly later than every
    member of the interval (a gap before the closing record, trailing rows
    without a state). *)
Theorem test_end_time_policy :
  (∀ self w mc,
     ∃ results rs final,
       TestPy.analyze_tower_jumps self w mc = Ok results
       ∧ results = rs ++ final
       ∧ Forall2 (fun g r =>
                    TestPy.end_time r
                    = (TestPy.UTCDateTime (closing_row g) - 60)%Z
                    ∧ TestPy.start_time r
                      = TestPy.UTCDateTime <$> head (group_members g))
           (group_loop w (TestPy.df self) [] []).1 rs
       ∧ match (group_loop w (TestPy.df self) [] []).2 with
         | [] => final = []
         | first :: _ =>
             ∃ r last_row,
               final = [r]
               ∧ last (TestPy.df self) = Some last_row
               ∧ TestPy.end_time r = TestPy.UTCDateTime last_row
               ∧ TestPy.start_time r = Some (TestPy.UTCDateTime first)
         end)
  ∧ (∃ r1 r2,
       TestPy.analyze_tower_jumps
         (Sample.frame [Sample.row_at 0 (Some "A");
                        Sample.row_at 600 (Some "A")]) 5 (6 # 10)
       = Ok [r1; r2]
       ∧ (group_loop 5 [Sample.row_at 0 (Some "A");
                        Sample.row_at 600 (Some "A")] [] []).1
         = [ {| group_members := [Sample.row_at 0 (Some "A")];
                closing_row := Sample.row_at 600 (Some "A") |} ]
       ∧ TestPy.end_time r1 = 540%Z)
  ∧ (∃ r,
       TestPy.analyze_tower_jumps
         (Sample.frame [Sample.row_at 0 (Some "A"); Sample.row_at 600 None])
         5 (6 # 10)
       = Ok [r]
       ∧ (group_loop 5 [Sample.row_at 0 (Some "A"); Sample.row_at 600 None]
            [] []).2
         = [Sample.row_at 0 (Some "A")]
       ∧ TestPy.end_time r = 600%Z).
Proof.
  split; [|split].
  - intros self w mc.
    destruct (test_analyze_groups self w mc) as (rs & HF & Hfin).
    assert (HF' : Forall2 (fun g r =>
                    TestPy.end_time r
                    = (TestPy.UTCDateTime (closing_row g) - 60)%Z
                    ∧ TestPy.start_time r
                      = TestPy.UTCDateTime <$> head (group_members g))
                    (group_loop w (TestPy.df self) [] []).1 rs).
    { eapply Forall2_impl; [exact HF|]. intros g r [_ Hc].
      apply close_interval_spec in Hc as (_ & Hs & He & _). auto. }
    destruct ((group_loop w (TestPy.df self) [] []).2) as [|first cur].
    + exists rs, rs, []. rewrite app_nil_r. auto.
    + destruct Hfin as (last_row & r & Hl & Hc & Ha).
      exists (rs ++ [r]), rs, [r]. repeat (split; [assumption || reflexivity|]).
      exists r, last_row.
      apply close_interval_spec in Hc as (_ & Hs & He & _). auto.
  - eexists _, _. split; [vm_compute; reflexivity|].
    split; reflexivity.
  - eexists. split; [vm_compute; reflexivity|]. split; reflexivity.
Qed.

(** ** Rolling and fixed-start boundaries *)

Lemma within_minutes_mono w a b :
  (a ≤ b)%Z → within_minutes w b → within_minutes w a.
Proof.
  unfold within_minutes. rewrite !Qle_bool_iff. intros Hab Hb.
  eapply Qle_trans; [|exact Hb].
  unfold Qle, Qdiv, Qmult, Qinv, inject_Z. simpl. lia.
Qed.

Section RollingFixed.
Import Processor.
Variable self : TowerJumpAnalyzer.

Lemma chronological_cons record l :
  chronological (record :: l) →
  ∃ t, utc_datetime record = Some t
       ∧ chronological l
       ∧ Forall (fun r => ∃ u, utc_datetime r = Some u ∧ (t ≤ u)%Z) l.
Proof.
  intros [Ht Hs]. apply Forall_cons in Ht as [Hr Ht].
  apply StronglySorted_inv in Hs as [Hs Hall]. unfold timed in Hr.
  destruct (utc_datetime record) as [t|] eqn:Et; [|congruence].
  exists t. split; [reflexivity|]. split; [split; assumption|].
  eapply Forall_impl; [exact Hall|]. intros r. unfold not_later.
  rewrite Et. destruct (utc_datetime r) as [u|]; [eauto|contradiction].
Qed.

Lemma new_interval_open_before record l t :
  utc_datetime record = Some t →
  Forall (fun r => ∃ u, utc_datetime r = Some u ∧ (t ≤ u)%Z) l →
  open_before (new_interval record) l.
Proof.
  intros Ht Hl. exists t, t. simpl. repeat split; try assumption. lia.
Qed.

(** If the intervals that come out of the loop span at most the window, so
    did the interval in progress at any earlier point: with sorted records an
    interval only grows. *)
Lemma span_ok_backward l : ∀ cur closed cur' closed',
  interval_loop self l cur closed = Ok (cur', closed') →
  chronological l → (∀ iv, cur = Some iv → open_before iv l) →
  Forall (span_ok self) closed' → (∀ iv, cur' = Some iv → span_ok self iv) →
  Forall (span_ok self) closed ∧ (∀ iv, cur = Some iv → span_ok self iv).
Proof.
  induction l as [|record rest IH]; intros cur closed cur' closed'; simpl.
  - intros [= <- <-]. auto.
  - intros Hloop Hch Hopen Hcl Hcur.
    destruct (chronological_cons _ _ Hch) as (t & Ht & Hch' & Hge).
    assert (Hopen' : ∀ iv, cur = Some iv → open_before iv rest).
    { intros iv Hiv. destruct (Hopen iv Hiv) as (s & e & Hs & He & Hse & Hall).
      apply Forall_cons in Hall as [_ Hall]. exists s, e. auto. }
    destruct (state_missing record); [eapply IH; eassumption|].
    destruct cur as [iv|].
    + destruct (Hopen iv eq_refl) as (s & e & Hs & He & Hse & Hall).
      apply Forall_cons in Hall as [(t' & Ht' & Het) Hall].
      rewrite Ht in Ht'. injection Ht' as <-.
      rewrite Ht, He in Hloop. simpl in Hloop.
      destruct (Qle_bool _ _).
      * eapply IH in Hloop as [HF Hc]; try eassumption.
        -- split; [exact HF|]. intros iv' [= <-].
           specialize (Hc _ eq_refl). unfold span_ok, span_within in *.
           simpl in Hc. rewrite Hs, Ht in Hc. rewrite Hs, He.
           eapply within_minutes_mono; [|exact Hc]. lia.
        -- intros iv' [= <-]. exists s, t. simpl.
           repeat split; try assumption. lia.
      * eapply IH in Hloop as [HF Hc]; try eassumption.
        -- apply Forall_app in HF as [HF Hiv]. split; [exact HF|].
           intros iv' [= <-]. apply Forall_cons in Hiv as [Hiv _]. exact Hiv.
        -- intros iv' [= <-]. eapply new_interval_open_before; eassumption.
    + eapply IH in Hloop as [HF Hc]; try eassumption.
      * split; [exact HF|]. discriminate.
      * intros iv' [= <-]. eapply new_interval_open_before; eassumption.
Qed.

Lemma same_event_labelled record row :
  same_event record row →
  state_missing record = false
  ∧ ∃ c s, state record = String c s ∧ TestPy.State row = Some (String c s).
Proof.
  intros (_ & Hst & Hb). split; [exact Hb|].
  destruct (state record) as [|c s] eqn:Es; [discriminate|].
  exists c, s. split; [reflexivity|exact Hst].
Qed.

(** On sorted records, as long as the intervals closed under the rolling
    boundary span at most the window, the loop of [src/test.py] (fixed start)
    takes the same decisions and closes intervals with the same members. *)
Lemma rolling_fixed l df :
  Forall2 same_event l df →
  ∀ cur closed st cur' closed',
    interval_loop self l cur closed = Ok (cur', closed') →
    chronological l → (∀ iv, cur = Some iv → open_before iv l) →
    Forall (span_ok self) closed' → (∀ iv, cur' = Some iv → span_ok self iv) →
    synced cur st →
    Forall2 (closed_as (min_confidence self)) closed (TestPy.results st) →
    ∃ st', TestPy.analyze_loop (time_window_minutes self) (min_confidence self)
             df st = Ok st'
           ∧ synced cur' st'
           ∧ Forall2 (closed_as (min_confidence self)) closed'
               (TestPy.results st').
Proof.
  induction 1 as [|record row l df Hev _ IH];
    intros cur closed st cur' closed' Hloop Hch Hopen Hcl Hcur Hsync HF.
  - simpl in Hloop. injection Hloop as <- <-. exists st. auto.
  - destruct (chronological_cons _ _ Hch) as (t & Ht & Hch' & Hge).
    destruct (same_event_labelled _ _ Hev) as (Hlab & c & s & Hs & Hrow).
    destruct Hev as (Hutc & _ & _). rewrite Ht in Hutc. injection Hutc as Hutc.
    pose proof Hloop as Hloop0.
    cbn [interval_loop] in Hloop. rewrite Hlab in Hloop.
    cbn [TestPy.analyze_loop]. rewrite Hrow, <- Hutc.
    destruct cur as [iv|].
    + destruct (Hopen iv eq_refl) as (s0 & e & Hs0 & He & Hse & Hall).
      apply Forall_cons in Hall as [(t' & Ht' & Het) Hall].
      rewrite Ht in Ht'. injection Ht' as <-.
      destruct Hsync as (Hstart & Hrec & Hne).
      rewrite Hstart, Hs0.
      rewrite Ht, He in Hloop. simpl in Hloop.
      destruct (Qle_bool (inject_Z (t - e) / 60) (time_window_minutes self))
        eqn:Eroll.
      * assert (Hopen1 : ∀ iv', Some (add_to_interval iv record) = Some iv' →
                                open_before iv' l).
        { intros iv' [= <-]. exists s0, t. simpl.
          repeat split; try assumption. lia. }
        destruct (span_ok_backward l _ _ _ _ Hloop Hch' Hopen1 Hcl Hcur)
          as [_ Hspan].
        specialize (Hspan _ eq_refl). unfold span_ok, span_within in Hspan.
        simpl in Hspan. rewrite Hs0, Ht in Hspan.
        unfold within_minutes in Hspan. rewrite Hspan.
        eapply IH; try eassumption.
        split; [simpl; symmetry; exact Hs0|]. simpl. rewrite Hrec, Hs.
        split; [reflexivity|]. intros H. apply app_eq_nil in H as [_ H].
        discriminate.
      * assert (Efix : Qle_bool (inject_Z (t - s0) / 60)
                         (time_window_minutes self) = false).
        { destruct (Qle_bool (inject_Z (t - s0) / 60) _) eqn:E;
            [|reflexivity].
          assert (Hw : within_minutes (time_window_minutes self) (t - e)).
          { eapply within_minutes_mono; [|exact E]. lia. }
          unfold within_minutes in Hw. congruence. }
        rewrite Efix.
        destruct (close_interval_total (Some s0) (t - 60)
                    (TestPy.state_records st) (min_confidence self))
          as [r Hr]; [rewrite Hrec; exact Hne|].
        rewrite Hr. simpl. eapply IH; try eassumption.
        -- intros iv' [= <-]. eapply new_interval_open_before; eassumption.
        -- simpl. rewrite Ht, Hs. repeat split; discriminate.
        -- simpl. apply Forall2_app; [exact HF|]. constructor; [|constructor].
           exists (t - 60)%Z. rewrite Hs0, <- Hrec. exact Hr.
    + destruct Hsync as [Hstart Hrec]. rewrite Hstart.
      eapply IH; try eassumption.
      * intros iv' [= <-]. eapply new_interval_open_before; eassumption.
      * simpl. rewrite Ht, Hs. repeat split; discriminate.
Qed.

(** The two closing blocks agree on everything but the end of the interval
    and the rounding of the percentage. *)
Lemma processed_closed_as_agree iv p t :
  processed self iv p → closed_as (min_confidence self) iv t → agree p t.
Proof.
  unfold processed, _process_interval. intros Hp [e Ht].
  unfold TestPy.close_interval in Ht.
  destruct (item0 (most_common_1 (Counter (iv_states iv)))) as [mc|];
    simpl in *; [|discriminate].
  injection Hp as <-. injection Ht as <-. repeat split.
Qed.

Lemma Forall2_agree ivs : ∀ ps ts,
  Forall2 (processed self) ivs ps →
  Forall2 (closed_as (min_confidence self)) ivs ts →
  Forall2 agree ps ts.
Proof.
  induction ivs as [|iv ivs IH]; intros ps ts Hp Ht.
  - apply Forall2_nil_inv_l in Hp as ->. apply Forall2_nil_inv_l in Ht as ->.
    constructor.
  - apply Forall2_cons_inv_l in Hp as (p & ps' & Hp & Hps & ->).
    apply Forall2_cons_inv_l in Ht as (t & ts' & Ht & Hts & ->).
    constructor; [eapply processed_closed_as_agree; eassumption|].
    apply IH; assumption.
Qed.

Lemma processed_span_ok ivs ps :
  Forall2 (processed self) ivs ps →
  Forall (fun p => span_within (time_window_minutes self)
                     (start_time p) (end_time p)) ps →
  Forall (span_ok self) ivs.
Proof.
  induction 1 as [|iv p ivs ps Hp _ IH]; intros Hs; [constructor|].
  apply Forall_cons in Hs as [Hs Hss]. constructor; [|apply IH; exact Hss].
  unfold processed, _process_interval in Hp.
  destruct (item0 _); simpl in Hp; [|discriminate].
  injection Hp as <-. exact Hs.
Qed.

End RollingFixed.

(** C2, as it holds. On a chronologically sorted sequence of labelled
    records, whenever every interval that [src/processor.py] closes spans at
    most the window from its first member, [src/test.py] emits as many
    intervals, with the same start, dominant label and jump flag; the
    percentage of [src/processor.py] is that of [src/test.py] rounded to two
    decimals.  (The ends of the intervals follow different policies.) *)
Theorem boundary_policies_agree (self : Processor.TowerJumpAnalyzer)
    (df : list TestPy.row) (rp : list Processor.interval_result) :
  chronological (Processor.data self) →
  Forall2 same_event (Processor.data self) df →
  Processor.analyze_tower_jumps self = Ok rp →
  Forall (fun p => span_within (Processor.time_window_minutes self)
                     (Processor.start_time p) (Processor.end_time p)) rp →
  ∃ rt,
    TestPy.analyze_tower_jumps (Sample.frame df)
      (Processor.time_window_minutes self) (Processor.min_confidence self)
    = Ok rt
    ∧ Forall2 agree rp rt.
Proof.
  intros Hch Hev Hrp Hspan.
  pose proof (closed_intervals_analyze self) as Ha.
  destruct (Processor.closed_intervals self) as [ivs|e] eqn:Hivs;
    [|rewrite Ha in Hrp; discriminate].
  destruct Ha as (rp' & Hrp' & Hproc).
  rewrite Hrp in Hrp'. injection Hrp' as <-.
  pose proof (processed_span_ok self ivs rp Hproc Hspan) as Hok.
  unfold Processor.closed_intervals in Hivs.
  rewrite (sorted_by_time_chronological _ Hch) in Hivs. simpl in Hivs.
  destruct (Processor.interval_loop self (Processor.data self) None [])
    as [[cur' closed']|e] eqn:Hloop; simpl in Hivs; [|discriminate].
  assert (Hsplit : Forall (span_ok self) closed'
                   ∧ ∀ iv, cur' = Some iv → span_ok self iv).
  { destruct cur' as [iv|]; injection Hivs as <-.
    - apply Forall_app in Hok as [Hcl Hiv]. split; [exact Hcl|].
      intros iv' [= <-]. apply Forall_cons in Hiv as [Hiv _]. exact Hiv.
    - split; [exact Hok|discriminate]. }
  destruct Hsplit as [Hcl Hcur].
  destruct (rolling_fixed self _ _ Hev None [] 
              {| TestPy.current_interval_start := None;
                 TestPy.state_records := [];
                 TestPy.results := [] |} cur' closed' Hloop Hch)
    as (st' & Hst' & Hsync & HF); try assumption;
    [discriminate|split; reflexivity|constructor|].
  unfold TestPy.analyze_tower_jumps, Sample.frame. cbn [TestPy.df].
  rewrite Hst'. simpl.
  destruct cur' as [iv|]; injection Hivs as <-.
  - destruct Hsync as (Hstart & Hrec & Hne).
    destruct (TestPy.state_records st') as [|l0 ls] eqn:Est;
      [congruence|].
    assert (Hdf : df ≠ []).
    { intros ->. apply Forall2_nil_inv_r in Hev. rewrite Hev in Hloop.
      simpl in Hloop. discriminate. }
    destruct (last df) as [last_row|] eqn:El;
      [|apply last_None in El; contradiction].
    unfold item_last. rewrite El. simpl.
    destruct (close_interval_total (TestPy.current_interval_start st')
                (TestPy.UTCDateTime last_row) (l0 :: ls)
                (Processor.min_confidence self)) as [r Hr]; [discriminate|].
    rewrite Hr. simpl. eexists. split; [reflexivity|].
    apply (Forall2_agree self (closed' ++ [iv])); [exact Hproc|].
    apply Forall2_app; [exact HF|]. constructor; [|constructor].
    exists (TestPy.UTCDateTime last_row). rewrite <- Hstart, <- Hrec.
    exact Hr.
  - destruct Hsync as [_ Hrec]. rewrite Hrec. eexists.
    split; [reflexivity|].
    apply (Forall2_agree self closed'); assumption.
Qed.

Lemma boundary_policies_agree_witness :
  ∃ rp rt,
    Processor.analyze_tower_jumps
      (Sample.analyzer (Sample.records_of Sample.gap)) = Ok rp
    ∧ TestPy.analyze_tower_jumps (Sample.frame (Sample.rows_of Sample.gap))
        5 (6 # 10) = Ok rt
    ∧ Forall2 agree rp rt.
Proof.
  set (self := Sample.analyzer (Sample.records_of Sample.gap)).
  assert (Hch : chronological (Processor.data self)).
  { split; [repeat constructor; discriminate|].
    repeat (constructor; [|repeat constructor; unfold not_later; simpl; lia]).
    constructor. }
  assert (Hev : Forall2 same_event (Processor.data self)
                  (Sample.rows_of Sample.gap)).
  { repeat constructor. }
  destruct (Processor.analyze_tower_jumps self) as [rp|e] eqn:Hrp;
    [|vm_compute in Hrp; discriminate].
  assert (Hspan : Forall (fun p => span_within (Processor.time_window_minutes self)
                     (Processor.start_time p) (Processor.end_time p)) rp).
  { vm_compute in Hrp. injection Hrp as <-. repeat constructor. }
  destruct (boundary_policies_agree self _ rp Hch Hev Hrp Hspan)
    as (rt & Hrt & Hag).
  exists rp, rt. split; [reflexivity|]. split; [exact Hrt|exact Hag].
Defined.

(** C2, as stated, fails: the two programs do not emit equal interval
    sequences.  On three records four minutes apart the rolling boundary of
    [src/processor.py] gives one interval and the fixed start of
    [src/test.py] gives two; on two records ten minutes apart the intervals
    start alike and end differently (last member against one minute before
    the closing record); on a 2:1 split the percentages differ (66.67
    against 200/3). *)
Lemma implementations_differ :
  let self_of events := Sample.analyzer (Sample.records_of events) in
  let frame_of events := Sample.frame (Sample.rows_of events) in
  (∀ events, In events [Sample.chain; Sample.gap; Sample.two_to_one] →
     chronological (Processor.data (self_of events))
     ∧ Forall2 same_event (Processor.data (self_of events))
         (Sample.rows_of events))
  ∧ (∃ rp rt,
       Processor.analyze_tower_jumps (self_of Sample.chain) = Ok rp
       ∧ TestPy.analyze_tower_jumps (frame_of Sample.chain) 5 (6 # 10) = Ok rt
       ∧ length rp = 1 ∧ length rt = 2
       ∧ ¬ Forall2 same_result rp rt)
  ∧ (∃ p1 p2 t1 t2,
       Processor.analyze_tower_jumps (self_of Sample.gap) = Ok [p1; p2]
       ∧ TestPy.analyze_tower_jumps (frame_of Sample.gap) 5 (6 # 10)
         = Ok [t1; t2]
       ∧ Processor.end_time p1 = Some 0%Z ∧ TestPy.end_time t1 = 540%Z
       ∧ ¬ Forall2 same_result [p1; p2] [t1; t2])
  ∧ (∃ p t,
       Processor.analyze_tower_jumps (self_of Sample.two_to_one) = Ok [p]
       ∧ TestPy.analyze_tower_jumps (frame_of Sample.two_to_one) 5 (6 # 10)
         = Ok [t]
       ∧ Processor.confidence_percentage p = (6667 # 100)%Q
       ∧ (TestPy.confidence t == 200 # 3)%Q
       ∧ ¬ Forall2 same_result [p] [t]).
Proof.
  intros self_of frame_of. split; [|split; [|split]].
  - intros events [<-|[<-|[<-|[]]]]; (split; [split|]);
      try (repeat constructor; discriminate);
      repeat (constructor; [|repeat constructor; unfold not_later; simpl; lia]);
      constructor.
  - eexists _, _. split; [vm_compute; reflexivity|].
    split; [vm_compute; reflexivity|]. split; [reflexivity|].
    split; [reflexivity|]. intros H. apply Forall2_length in H. discriminate.
  - eexists _, _, _, _. split; [vm_compute; reflexivity|].
    split; [vm_compute; reflexivity|]. split; [reflexivity|].
    split; [reflexivity|]. intros H.
    apply Forall2_cons_1 in H as [(_ & He & _) _]. discriminate.
  - eexists _, _. split; [vm_compute; reflexivity|].
    split; [vm_compute; reflexivity|]. split; [reflexivity|].
    split; [reflexivity|]. intros H.
    apply Forall2_cons_1 in H as [(_ & _ & _ & _ & Hc) _].
    revert Hc. unfold Qeq. simpl. lia.
Qed.

(** ** The imputation of missing states *)

Lemma majority_elem states : states ≠ [] → majority states ∈ states.
Proof.
  intros Hne. destruct (most_common_dominant _ Hne) as (d & Hd & [Hin _]).
  unfold majority. destruct (most_common_1 (Counter states)); simpl in Hd;
    [discriminate|].
  injection Hd as ->. exact Hin.
Qed.

Lemma majority_present states : good_bucket states → blank (majority states) = false.
Proof.
  intros [Hne Hall]. rewrite Forall_forall in Hall. apply Hall.
  apply majority_elem, Hne.
Qed.

Section ProcessorImputer.
Import Processor.

Lemma most_common_state_majority states :
  states ≠ [] → most_common_state states = Ok (majority states).
Proof.
  intros Hne. destruct (most_common_dominant _ Hne) as (d & Hd & _).
  unfold most_common_state, majority.
  destruct (most_common_1 (Counter states)); simpl in *; [discriminate|].
  injection Hd as ->. reflexivity.
Qed.

(** The second loop never raises: no bucket is empty. *)
Lemma most_common_states_majority (m : gmap (Z * Z) (list string)) :
  map_Forall (fun _ states => good_bucket states) m →
  most_common_states m = Ok (majority <$> m).
Proof.
  unfold most_common_states.
  apply (map_fold_weak_ind
           (fun r m => map_Forall (fun _ states => good_bucket states) m →
                       r = Ok (majority <$> m))).
  - intros _. rewrite fmap_empty. reflexivity.
  - intros k states m' r Hk IH Hall.
    apply map_Forall_insert in Hall as [[Hne _] Hall]; [|exact Hk].
    rewrite (IH Hall). simpl.
    rewrite (most_common_state_majority _ Hne). simpl.
    rewrite fmap_insert. reflexivity.
Qed.

Lemma has_known_state_true record :
  has_known_state record = true →
  state_missing record = false
  ∧ nonzero (latitude record) && nonzero (longitude record) = true.
Proof.
  unfold has_known_state, state_missing.
  destruct (truthy (state record)), (truthy (strip (state record)));
    simpl; try discriminate. auto.
Qed.

Lemma collect_step_good m record :
  map_Forall (fun _ states => good_bucket states) m →
  map_Forall (fun _ states => good_bucket states) (collect_step m record).
Proof.
  intros Hm. unfold collect_step.
  destruct (has_known_state record) eqn:Ek; [|exact Hm].
  apply has_known_state_true in Ek as [Hpresent _].
  apply map_Forall_insert_2; [|exact Hm]. split.
  - intros H. apply app_eq_nil in H as [_ H]. discriminate.
  - apply Forall_app. split; [|constructor; [exact Hpresent|constructor]].
    destruct (m !! coord_key record) as [l|] eqn:El; simpl; [|constructor].
    apply (Hm _ _ El).
Qed.

Lemma collect_foldl_good data : ∀ m,
  map_Forall (fun _ states => good_bucket states) m →
  map_Forall (fun _ states => good_bucket states) (foldl collect_step m data).
Proof.
  induction data as [|record data IH]; intros m Hm; simpl; [exact Hm|].
  apply IH, collect_step_good, Hm.
Qed.

Lemma collect_states_good data :
  map_Forall (fun _ states => good_bucket states) (collect_states data).
Proof. apply collect_foldl_good, map_Forall_empty. Qed.

Lemma collect_step_lookup m record k :
  is_Some (collect_step m record !! k)
  ↔ is_Some (m !! k) ∨ (has_known_state record = true ∧ coord_key record = k).
Proof.
  unfold collect_step. destruct (has_known_state record).
  - cbv zeta. rewrite lookup_insert_is_Some.
    destruct (decide (coord_key record = k)) as [<-|Hne]; [intuition|].
    intuition congruence.
  - intuition congruence.
Qed.

(** The buckets are the rounded coordinates of the records with a known
    state and coordinates different from zero. *)
Lemma collect_foldl_lookup data : ∀ m k,
  is_Some (foldl collect_step m data !! k)
  ↔ is_Some (m !! k)
    ∨ ∃ r, r ∈ data ∧ has_known_state r = true ∧ coord_key r = k.
Proof.
  induction data as [|record data IH]; intros m k; simpl.
  - split; [auto|]. intros [H|(r & Hr & _)]; [exact H|].
    apply elem_of_nil in Hr. contradiction.
  - rewrite IH, collect_step_lookup. split.
    + intros [[H|[Hk Hc]]|(r & Hr & Hk & Hc)]; [auto| |].
      * right. exists record. split; [left|auto].
      * right. exists r. split; [right; exact Hr|auto].
    + intros [H|(r & Hr & Hk & Hc)]; [auto|].
      apply elem_of_cons in Hr as [->|Hr]; [auto|].
      right. exists r. auto.
Qed.

Lemma collect_states_lookup data k :
  is_Some (collect_states data !! k)
  ↔ ∃ r, r ∈ data ∧ has_known_state r = true ∧ coord_key r = k.
Proof.
  unfold collect_states. rewrite collect_foldl_lookup, lookup_empty.
  split; [intros [[? [=]]|H]; exact H|auto].
Qed.

Section SecondRun.
Variable data : list record_dict.
Let filled : gmap (Z * Z) string := majority <$> collect_states data.
Let data' : list record_dict := map (fill_record filled) data.

Lemma filled_present k s : filled !! k = Some s → blank s = false.
Proof.
  unfold filled. rewrite lookup_fmap.
  destruct (collect_states data !! k) as [l|] eqn:El; simpl; [|discriminate].
  intros [= <-]. apply majority_present. apply (collect_states_good data _ _ El).
Qed.

(** A record with a known state after the first run lies in a bucket of the
    first run. *)
Lemma known_after_fill r :
  r ∈ data → has_known_state (fill_record filled r) = true →
  is_Some (collect_states data !! coord_key (fill_record filled r)).
Proof.
  intros Hr. unfold fill_record.
  destruct (state_missing r) eqn:Em.
  - destruct (nonzero (latitude r) && nonzero (longitude r)) eqn:Ez.
    + destruct (filled !! coord_key r) as [s|] eqn:Ef.
      * intros _. unfold filled in Ef. rewrite lookup_fmap in Ef.
        change (coord_key (set_state r s)) with (coord_key r).
        destruct (collect_states data !! coord_key r); [eauto|discriminate].
      * intros Hk. apply has_known_state_true in Hk as [Hk _]. congruence.
    + intros Hk. apply has_known_state_true in Hk as [Hk _]. congruence.
  - intros Hk. apply collect_states_lookup. eauto.
Qed.

Lemma second_buckets k :
  is_Some (collect_states data' !! k) → is_Some (collect_states data !! k).
Proof.
  rewrite collect_states_lookup. intros (r' & Hr' & Hk & <-).
  unfold data' in Hr'. apply list_elem_of_In, in_map_iff in Hr'
    as (r & <- & Hr). apply list_elem_of_In in Hr.
  apply known_after_fill; assumption.
Qed.

(** The second run leaves every record of the first run as it is. *)
Lemma fill_record_fixed r :
  r ∈ data →
  fill_record (majority <$> collect_states data') (fill_record filled r)
  = fill_record filled r.
Proof.
  intros Hr. unfold fill_record at 2 3.
  destruct (state_missing r) eqn:Em;
    [|unfold fill_record; rewrite Em; reflexivity].
  destruct (nonzero (latitude r) && nonzero (longitude r)) eqn:Ez;
    [|unfold fill_record; rewrite Em, Ez; reflexivity].
  destruct (filled !! coord_key r) as [s|] eqn:Ef.
  - apply filled_present in Ef. unfold fill_record.
    change (state_missing (set_state r s)) with (blank s). rewrite Ef.
    reflexivity.
  - unfold fill_record. rewrite Em, Ez.
    destruct ((majority <$> collect_states data') !! coord_key r) as [s|]
      eqn:E2; [|reflexivity].
    exfalso. rewrite lookup_fmap in E2.
    destruct (collect_states data' !! coord_key r) as [l|] eqn:El;
      [|discriminate].
    destruct (second_buckets (coord_key r)) as [l' Hl']; [eauto|].
    unfold filled in Ef. rewrite lookup_fmap, Hl' in Ef. discriminate.
Qed.

End SecondRun.

Lemma fill_missing_states_eq self :
  fill_missing_states self
  = Ok (set_data self
          (map (fill_record (majority <$> collect_states (data self)))
             (data self))).
Proof.
  unfold fill_missing_states.
  rewrite (most_common_states_majority _ (collect_states_good _)).
  reflexivity.
Qed.

End ProcessorImputer.

(** C8. The imputer is idempotent: [fill_missing_states] always returns, a
    second run on its result returns that result again, and no record whose
    state is present is changed by a run. *)
Theorem imputer_idempotent (self : Processor.TowerJumpAnalyzer) :
  ∃ self',
    Processor.fill_missing_states self = Ok self'
    ∧ Processor.fill_missing_states self' = Ok self'
    ∧ Forall2 (fun r r' => Processor.state_missing r = false → r' = r)
        (Processor.data self) (Processor.data self').
Proof.
  eexists. split; [apply fill_missing_states_eq|].
  assert (H2 : Processor.fill_missing_states
                 (Processor.set_data self
                    (map (Processor.fill_record
                            (majority <$> Processor.collect_states
                                            (Processor.data self)))
                       (Processor.data self)))
               = Ok (Processor.set_data self
                       (map (Processor.fill_record
                               (majority <$> Processor.collect_states
                                               (Processor.data self)))
                          (Processor.data self)))).
  { rewrite fill_missing_states_eq. cbn [Processor.data Processor.set_data].
    f_equal. unfold Processor.set_data. cbn. f_equal.
    rewrite map_map. apply map_ext_in. intros r Hr.
    apply fill_record_fixed. apply list_elem_of_In. exact Hr. }
  split; [exact H2|].
  cbn [Processor.data Processor.set_data]. clear H2.
  generalize (majority <$> Processor.collect_states (Processor.data self)).
  intros m. induction (Processor.data self) as [|r l IH]; simpl;
    constructor; [|exact IH].
  intros Hm. unfold Processor.fill_record. rewrite Hm. reflexivity.
Qed.

(** ** Sentinel coordinates *)

Lemma nonzero_sentinel record :
  sentinel record →
  Processor.nonzero (Processor.latitude record)
  && Processor.nonzero (Processor.longitude record) = false.
Proof.
  unfold Processor.nonzero. intros [H|H]; apply Qeq_bool_iff in H; rewrite H;
    simpl; [reflexivity|apply andb_false_r].
Qed.

Lemma has_known_state_sentinel record :
  sentinel record → Processor.has_known_state record = false.
Proof.
  intros H%nonzero_sentinel. unfold Processor.has_known_state.
  rewrite <- !andb_assoc, H, !andb_false_r. reflexivity.
Qed.

Lemma fill_record_sentinel m record :
  sentinel record → Processor.fill_record m record = record.
Proof.
  intros H%nonzero_sentinel. unfold Processor.fill_record. rewrite H.
  destruct (Processor.state_missing record); reflexivity.
Qed.

Lemma has_coordinates_sentinel row :
  sentinel_row row → TestPy.has_coordinates row = false.
Proof.
  unfold TestPy.has_coordinates.
  intros [(q & Hq & H0)|(q & Hq & H0)]; rewrite Hq; simpl;
    apply Qeq_bool_iff in H0; rewrite H0; simpl;
    [reflexivity|apply andb_false_r].
Qed.

Lemma Forall2_map_fixed {A} (P : A → Prop) (f : A → A) l :
  (∀ x, P x → f x = x) → Forall2 (fun x y => P x → y = x) l (map f l).
Proof.
  intros Hf. induction l as [|x l IH]; simpl; constructor; auto.
Qed.

(** C7. A record with latitude or longitude exactly zero takes no part in
    the imputation, in either program: the buckets are those of the data
    without it, and the run leaves it as it is; a record at (0, 0) without a
    state stays so next to a record at (0, 0) with a known state. *)
Theorem sentinel_excluded :
  (∀ data1 data2 record,
     sentinel record →
     Processor.collect_states (data1 ++ record :: data2)
     = Processor.collect_states (data1 ++ data2))
  ∧ (∀ self self',
       Processor.fill_missing_states self = Ok self' →
       Forall2 (fun r r' => sentinel r → r' = r)
         (Processor.data self) (Processor.data self'))
  ∧ (let d := [Sample.record_at 0 0 0 "TX"; Sample.record_at 60 0 0 "";
               Sample.record_at 120 0 0 "TX"] in
     Processor.fill_missing_states (Sample.analyzer d)
     = Ok (Sample.analyzer d))
  ∧ (∀ df1 df2 row,
       sentinel_row row →
       TestPy.collect_states (df1 ++ row :: df2)
       = TestPy.collect_states (df1 ++ df2))
  ∧ (∀ self self',
       TestPy._fill_missing_locations self = Ok self' →
       Forall2 (fun r r' => sentinel_row r → r' = r)
         (TestPy.df self) (TestPy.df self'))
  ∧ (let zero_row s :=
       {| TestPy.UTCDateTime := 0; TestPy.Latitude := Some 0%Q;
          TestPy.Longitude := Some 0%Q; TestPy.State := s |} in
     let d := [zero_row (Some "TX"); zero_row None; zero_row (Some "")] in
     TestPy._fill_missing_locations (Sample.frame d) = Ok (Sample.frame d)).
Proof.
  split; [|split; [|split; [|split; [|split]]]].
  - intros data1 data2 record Hs. unfold Processor.collect_states.
    rewrite !foldl_app. simpl. unfold Processor.collect_step at 2.
    rewrite (has_known_state_sentinel _ Hs). reflexivity.
  - intros self self'. rewrite fill_missing_states_eq. intros [= <-].
    cbn [Processor.data Processor.set_data].
    apply Forall2_map_fixed. intros r. apply fill_record_sentinel.
  - vm_compute. reflexivity.
  - intros df1 df2 row Hs. unfold TestPy.collect_states.
    rewrite !foldl_app. simpl. unfold TestPy.collect_step at 2.
    rewrite (has_coordinates_sentinel _ Hs). reflexivity.
  - intros self self'. unfold TestPy._fill_missing_locations.
    destruct (TestPy.most_common_states _) as [m|e]; simpl; [|discriminate].
    intros [= <-]. cbn [TestPy.df].
    apply Forall2_map_fixed. intros r Hs. unfold TestPy.fill_row.
    rewrite (has_coordinates_sentinel _ Hs), andb_false_r. reflexivity.
  - vm_compute. reflexivity.
Qed.

Lemma sentinel_excluded_witness :
  let r := Sample.record_at 60 0 (-74) "TX" in
  let a := Sample.record_at 0 (407 # 10) (-74) "NY" in
  let b := Sample.record_at 120 (407 # 10) (-74) "" in
  sentinel r
  ∧ Processor.collect_states ([a] ++ r :: [b]) = Processor.collect_states ([a] ++ [b])
  ∧ ∃ self',
      Processor.fill_missing_states (Sample.analyzer [a; r; b]) = Ok self'
      ∧ Forall2 (fun r r' => sentinel r → r' = r) [a; r; b]
          (Processor.data self').
Proof.
  intros r a b.
  assert (Hs : sentinel r) by (left; reflexivity).
  split; [exact Hs|]. split.
  - exact (proj1 sentinel_excluded [a] [b] r Hs).
  - eexists. split; [apply fill_missing_states_eq|].
    apply (proj1 (proj2 sentinel_excluded) (Sample.analyzer [a; r; b])).
    apply fill_missing_states_eq.
Defined.

(** ** The loader *)

Section Loader.
Import Processor.
Variable strptime : string → string → option Z.
Variable float : string → option Q.
Variable int : string → option Z.

Lemma parse_datetime_unparseable dt_str :
  unparseable strptime dt_str ↔ _parse_datetime strptime dt_str = None.
Proof.
  unfold unparseable, _parse_datetime. split.
  - intros [-> ->]. reflexivity.
  - destruct (strptime dt_str "%m/%d/%y %H:%M"); [discriminate|].
    destruct (strptime dt_str "%Y-%m-%d %H:%M:%S"); [discriminate|].
    split; reflexivity.
Qed.

Lemma getitem_insert_eq (row : csv_row) k v : getitem (<[k := v]> row) k = Ok v.
Proof. unfold getitem, csv_row in *. rewrite lookup_insert_eq. reflexivity. Qed.

Lemma getitem_insert_ne (row : csv_row) k k' v :
  k ≠ k' → getitem (<[k := v]> row) k' = getitem row k'.
Proof.
  intros Hne. unfold getitem, csv_row in *. rewrite lookup_insert_ne by exact Hne.
  reflexivity.
Qed.

(** Whether a row is kept does not depend on its UTC timestamp: with another
    text in that column, the row gives the same record with the timestamp
    that [_parse_datetime] returns for it, [None] included. *)
Lemma process_row_any_timestamp row s s' r :
  _process_row strptime float int (<["UTCDateTime" := s]> row) = Ok (Some r) →
  _process_row strptime float int (<["UTCDateTime" := s']> row)
  = Ok (Some (with_utc r (_parse_datetime strptime s'))).
Proof.
  unfold _process_row, coordinate.
  rewrite !getitem_insert_eq, !getitem_insert_ne by discriminate.
  cbn [bind].
  repeat (match goal with
          | |- context [getitem row ?k] =>
              destruct (getitem row k); cbn [bind catch]
          | |- context [if truthy ?c then _ else _] =>
              destruct (truthy c); cbn [bind catch]
          | |- context [or_value_error ?o] =>
              destruct o; cbn [bind catch or_value_error]
          end; try (destruct (value_or_key_error _); discriminate));
    try discriminate.
  all: intros [= <-]; reflexivity.
Qed.

(** The timestamp of a loaded record is what [_parse_datetime] returned. *)
Lemma process_row_utc (row : csv_row) u r :
  row !! "UTCDateTime" = Some u →
  _process_row strptime float int row = Ok (Some r) →
  utc_datetime r = _parse_datetime strptime u.
Proof.
  intros Hu. unfold _process_row, coordinate. unfold getitem at 1.
  unfold csv_row in *. rewrite Hu. cbn [bind].
  repeat (match goal with
          | |- context [getitem row ?k] =>
              destruct (getitem row k); cbn [bind catch]
          | |- context [if truthy ?c then _ else _] =>
              destruct (truthy c); cbn [bind catch]
          | |- context [or_value_error ?o] =>
              destruct o; cbn [bind catch or_value_error]
          end; try (destruct (value_or_key_error _); discriminate));
    try discriminate.
  all: intros [= <-]; reflexivity.
Qed.

End Loader.

(** C6, on the code. A row whose UTC timestamp matches neither format is
    not dropped: [_process_row] returns the record it would return with a
    well-formed timestamp, with [utc_datetime] set to [None], and [load_data]
    keeps it. *)
Theorem unparseable_row_is_kept :
  (∀ strptime float int row s bad r,
     unparseable strptime bad →
     Processor._process_row strptime float int (<["UTCDateTime" := s]> row)
     = Ok (Some r) →
     Processor._process_row strptime float int (<["UTCDateTime" := bad]> row)
     = Ok (Some (with_utc r None)))
  ∧ (∃ r1 r2,
       Processor.load_data Lib.strptime Lib.float Lib.int
         (Processor.init "carrier.csv")
         [Sample.csv "not a date"; Sample.csv "07/09/25 14:05"]
       = Ok (Sample.analyzer [r1; r2])
       ∧ unparseable Lib.strptime "not a date"
       ∧ Processor.utc_datetime r1 = None
       ∧ Processor.utc_datetime r2 = Some 1752069900%Z
       ∧ r1 = with_utc r2 None).
Proof.
  split.
  - intros strptime float int row s bad r Hbad Hr.
    apply parse_datetime_unparseable in Hbad.
    rewrite (process_row_any_timestamp _ _ _ _ s bad r Hr), Hbad.
    reflexivity.
  - eexists _, _. split; [vm_compute; reflexivity|].
    split; [split; reflexivity|]. repeat split.
Qed.

Lemma unparseable_row_is_kept_witness :
  ∃ r,
    Processor._process_row Lib.strptime Lib.float Lib.int
      (Sample.csv "2025-07-09T14:05") = Ok (Some r)
    ∧ Processor.utc_datetime r = None.
Proof.
  assert (Hbad : unparseable Lib.strptime "2025-07-09T14:05")
    by (split; reflexivity).
  assert (Hgood : ∃ r, Processor._process_row Lib.strptime Lib.float Lib.int
                         (<["UTCDateTime" := "2025-07-09 14:05:00"]>
                            (Sample.csv "2025-07-09T14:05")) = Ok (Some r))
    by (eexists; vm_compute; reflexivity).
  destruct Hgood as [r Hr].
  pose proof (proj1 unparseable_row_is_kept _ _ _ _ _ _ _ Hbad Hr) as Hkept.
  exists (with_utc r None). split; [|reflexivity].
  rewrite <- Hkept. reflexivity.
Defined.

(** C9. In [src/processor.py] a timestamp that matches neither format gives
    [None], the record is loaded with it, and the sort of
    [analyze_tower_jumps] then raises [TypeError] as soon as the data holds
    two records or more: the analysis returns when every loaded record has a
    parsed timestamp, and raises on a parsed record loaded together with an
    unparsed one. *)
Theorem unparsed_timestamp_raises :
  (∀ strptime float int (row : Processor.csv_row) bad r,
     unparseable strptime bad →
     row !! "UTCDateTime" = Some bad →
     Processor._process_row strptime float int row = Ok (Some r) →
     Processor._parse_datetime strptime bad = None
     ∧ Processor.utc_datetime r = None)
  ∧ (∀ self,
       (2 ≤ length (Processor.data self))%nat →
       ¬ Forall timed (Processor.data self) →
       Processor.analyze_tower_jumps self = Raise TypeError)
  ∧ (∀ self,
       Forall timed (Processor.data self) →
       ∃ results, Processor.analyze_tower_jumps self = Ok results)
  ∧ (∃ self r1 r2,
       Processor.load_data Lib.strptime Lib.float Lib.int
         (Processor.init "carrier.csv")
         [Sample.csv "07/09/25 14:05"; Sample.csv "09-07-2025 14:06"]
       = Ok self
       ∧ Processor.data self = [r1; r2]
       ∧ Processor.utc_datetime r1 = Some 1752069900%Z
       ∧ Processor.utc_datetime r2 = None
       ∧ Processor.analyze_tower_jumps self = Raise TypeError).
Proof.
  split; [|split; [|split]].
  - intros strptime float int row bad r Hbad Hrow Hr.
    apply parse_datetime_unparseable in Hbad. split; [exact Hbad|].
    rewrite (process_row_utc _ _ _ _ _ _ Hrow Hr). exact Hbad.
  - intros self Hlen Hun. unfold Processor.analyze_tower_jumps.
    rewrite (sorted_by_time_untimed _ Hlen Hun). reflexivity.
  - intros self Ht. destruct (closed_intervals_total self Ht) as [ivs Hivs].
    pose proof (closed_intervals_analyze self) as Ha. rewrite Hivs in Ha.
    destruct Ha as (results & Hres & _). eauto.
  - eexists _, _, _. split; [vm_compute; reflexivity|].
    split; [reflexivity|]. split; [reflexivity|]. split; [reflexivity|].
    vm_compute. reflexivity.
Qed.

Lemma unparsed_timestamp_raises_witness :
  let r1 := Sample.record_at 0 (407 # 10) (-74) "NY" in
  let r2 := with_utc (Sample.record_at 60 (407 # 10) (-74) "NY") None in
  Processor.analyze_tower_jumps (Sample.analyzer [r1; r2]) = Raise TypeError
  ∧ ∃ results,
      Processor.analyze_tower_jumps (Sample.analyzer [r1]) = Ok results.
Proof.
  intros r1 r2. split.
  - apply (proj1 (proj2 unparsed_timestamp_raises)); [simpl; lia|].
    intros H. apply Forall_cons in H as [_ H].
    apply Forall_cons in H as [H _]. apply H. reflexivity.
  - apply (proj1 (proj2 (proj2 unparsed_timestamp_raises))).
    repeat constructor. discriminate.
Defined.

(** ** The general properties on the sample inputs *)

Lemma coverage_witness :
  let d := Sample.record_at 30 (407 # 10) (-74) " "
             :: Sample.scenario 0 "A" "B" in
  ∃ ivs results,
    Processor.closed_intervals (Sample.analyzer d) = Ok ivs
    ∧ Processor.analyze_tower_jumps (Sample.analyzer d) = Ok results
    ∧ concat (map Processor.iv_records ivs) = Sample.scenario 0 "A" "B"
    ∧ sum_list_with Processor.total_records results = 6.
Proof.
  intros d.
  assert (Ht : Forall timed (Processor.data (Sample.analyzer d)))
    by (repeat constructor; discriminate).
  destruct (proj1 (coverage (Sample.analyzer d)) Ht) as [results Hres].
  destruct (proj2 (coverage (Sample.analyzer d)) results Hres)
    as (sorted & ivs & Hs & _ & Hivs & _ & Hcat & _ & Hsum).
  exists ivs, results. split; [exact Hivs|]. split; [exact Hres|].
  split; [|exact Hsum].
  rewrite Hcat. vm_compute in Hs. injection Hs as <-. reflexivity.
Defined.

Lemma classification_rule_witness :
  ∃ rp ivs,
    Processor.analyze_tower_jumps
      (Sample.analyzer (Sample.records_of Sample.two_to_one)) = Ok rp
    ∧ Processor.closed_intervals
        (Sample.analyzer (Sample.records_of Sample.two_to_one)) = Ok ivs
    ∧ Forall2 (fun iv r =>
                 jump_rule (map Processor.state (Processor.iv_records iv))
                   (6 # 10) (Processor.res_state r)
                   (Processor.is_tower_jump r)) ivs rp.
Proof.
  set (self := Sample.analyzer (Sample.records_of Sample.two_to_one)).
  destruct (Processor.analyze_tower_jumps self) as [rp|e] eqn:Hrp;
    [|vm_compute in Hrp; discriminate].
  destruct (proj1 classification_rule self rp Hrp) as (ivs & Hivs & HF).
  exists rp, ivs. split; [reflexivity|]. split; [exact Hivs|].
  eapply Forall2_impl; [exact HF|].
  intros iv r (_ & _ & _ & Hrule & _). exact Hrule.
Defined.

(** * Further properties of the code *)

(** ** Shape of the segmentation of [src/processor.py] *)

Lemma adjacent_snoc {A} (R : A → A → Prop) l x :
  adjacent R (l ++ [x])
  ↔ adjacent R l ∧ match last l with Some y => R y x | None => True end.
Proof.
  induction l as [|a [|b l] IH]; simpl in *; [tauto|tauto|].
  rewrite IH. tauto.
Qed.

Lemma adjacent_impl {A} (R R' : A → A → Prop) l :
  (∀ x y, R x y → R' x y) → adjacent R l → adjacent R' l.
Proof.
  intros HR. induction l as [|a [|b l] IH]; simpl; auto.
  intros [H1 H2]. split; [apply HR, H1|apply IH, H2].
Qed.

(** What a run of the analysis that returns is made of: the closed
    intervals, each passed through [_process_interval]. *)
Lemma analyze_Ok_intervals self results :
  Processor.analyze_tower_jumps self = Ok results →
  ∃ sorted ivs,
    Processor.sorted_by_time (Processor.data self) = Ok sorted
    ∧ Processor.closed_intervals self = Ok ivs
    ∧ Forall2 (processed self) ivs results
    ∧ Forall well_formed ivs
    ∧ concat (map Processor.iv_records ivs) = List.filter labelled sorted.
Proof.
  intros Hres. pose proof (closed_intervals_analyze self) as Ha.
  destruct (Processor.closed_intervals self) as [ivs|e] eqn:Hivs;
    [|rewrite Ha in Hres; discriminate].
  destruct Ha as (results' & Hres' & HF).
  rewrite Hres in Hres'. injection Hres' as <-.
  destruct (closed_intervals_partition self ivs Hivs) as (s & Hs & Hcat & Hw).
  exists s, ivs. auto.
Qed.

Lemma processed_bounds self iv r :
  processed self iv r →
  Processor.start_time r = Processor.iv_start_time iv
  ∧ Processor.end_time r = Processor.iv_end_time iv.
Proof.
  unfold processed, Processor._process_interval.
  destruct (item0 _); simpl; [|discriminate]. intros [= <-]. auto.
Qed.

Section SegmentationShape.
Import Processor.
Variable self : TowerJumpAnalyzer.
Local Abbreviation w := (time_window_minutes self).

Lemma well_formed_end iv :
  well_formed iv → iv_end_time iv = last (iv_records iv) ≫= utc_datetime.
Proof. intros (_ & _ & _ & _ & He). exact He. Qed.

Lemma chained_new_interval record : chained w (new_interval record).
Proof. unfold chained. simpl. exact I. Qed.

Lemma chained_add_to_interval iv record q :
  well_formed iv → chained w iv →
  minutes_between (utc_datetime record) (iv_end_time iv) = Ok q →
  Qle_bool q w = true →
  chained w (add_to_interval iv record).
Proof.
  intros Hw Hc Hq Hle. unfold chained. cbn [iv_records add_to_interval].
  apply adjacent_snoc. split; [exact Hc|].
  rewrite (well_formed_end _ Hw) in Hq.
  destruct (last (iv_records iv)) as [p|]; [|exact I]. simpl in Hq.
  unfold minutes_between in Hq. unfold gap_within.
  destruct (utc_datetime record) as [t|]; [|discriminate].
  destruct (utc_datetime p) as [e|]; [|discriminate].
  injection Hq as <-. exact Hle.
Qed.

Lemma separated_new_interval iv record q :
  minutes_between (utc_datetime record) (iv_end_time iv) = Ok q →
  Qle_bool q w = false →
  separated w iv (new_interval record).
Proof.
  unfold separated, gap_over, minutes_between. simpl.
  destruct (utc_datetime record) as [t|]; [|discriminate].
  destruct (iv_end_time iv) as [e|]; [|discriminate].
  intros [= <-] Hle. exact Hle.
Qed.

(** The loop keeps the shape of the segmentation. *)
Lemma interval_loop_shape l : ∀ cur closed cur' closed',
  interval_loop self l cur closed = Ok (cur', closed') →
  seg_shape w closed cur → seg_shape w closed' cur'.
Proof.
  induction l as [|record rest IH]; intros cur closed cur' closed'; simpl.
  - intros [= <- <-]. auto.
  - destruct (state_missing record) eqn:Em; [apply IH|].
    assert (Hl : labelled record = true) by (unfold labelled; rewrite Em; auto).
    destruct cur as [iv|].
    + destruct (minutes_between _ _) as [q|e] eqn:Eq; simpl; [|discriminate].
      destruct (Qle_bool q w) eqn:Ele; intros Hloop (Hnone & Hsep & Hch & Hwf);
        apply IH in Hloop; [exact Hloop| |exact Hloop|];
        unfold intervals_so_far in *; simpl in *.
      * apply adjacent_snoc in Hsep as [Hsep Hlast].
        apply Forall_app in Hch as [Hch Hiv].
        apply Forall_cons in Hiv as [Hiv _].
        apply Forall_app in Hwf as [Hwf Hwiv].
        apply Forall_cons in Hwiv as [Hwiv _].
        split; [discriminate|]. split; [|split].
        -- apply adjacent_snoc. split; [exact Hsep|].
           destruct (last closed); [exact Hlast|exact I].
        -- apply Forall_app. split; [exact Hch|]. constructor; [|constructor].
           eapply chained_add_to_interval; eassumption.
        -- apply Forall_app. split; [exact Hwf|]. constructor; [|constructor].
           apply add_to_interval_well_formed; assumption.
      * split; [discriminate|]. split; [|split].
        -- apply adjacent_snoc. split; [exact Hsep|].
           rewrite last_snoc. eapply separated_new_interval; eassumption.
        -- apply Forall_app. split; [exact Hch|]. constructor; [|constructor].
           apply chained_new_interval.
        -- apply Forall_app. split; [exact Hwf|]. constructor; [|constructor].
           apply new_interval_well_formed. exact Hl.
    + intros Hloop (Hnone & _ & _ & _). apply IH in Hloop; [exact Hloop|].
      rewrite (Hnone eq_refl). unfold intervals_so_far. simpl.
      split; [discriminate|]. split; [exact I|]. split.
      * constructor; [apply chained_new_interval|constructor].
      * constructor; [apply new_interval_well_formed, Hl|constructor].
Qed.

Lemma closed_intervals_shape ivs :
  closed_intervals self = Ok ivs →
  adjacent (separated w) ivs ∧ Forall (chained w) ivs ∧ Forall well_formed ivs.
Proof.
  unfold closed_intervals.
  destruct (sorted_by_time (data self)) as [s|e]; simpl; [|discriminate].
  destruct (interval_loop self s None []) as [[cur closed]|e] eqn:El; simpl;
    [|discriminate].
  apply interval_loop_shape in El.
  - destruct El as (_ & Hsep & Hch & Hwf). unfold intervals_so_far in *.
    destruct cur as [iv|]; intros [= <-]; simpl in *;
      rewrite ?app_nil_r in *; auto.
  - unfold seg_shape, intervals_so_far. simpl. repeat split; constructor.
Qed.

End SegmentationShape.

Lemma adjacent_Forall2 {A B} (P : A → B → Prop) (R : A → A → Prop)
    (R' : B → B → Prop) l l' :
  (∀ x y x' y', P x x' → P y y' → R x y → R' x' y') →
  Forall2 P l l' → adjacent R l → adjacent R' l'.
Proof.
  intros HR HF. induction HF as [|x x' l l' Hx HF IH]; [auto|].
  destruct HF as [|y y' l l' Hy HF]; [simpl; auto|].
  intros [H1 H2]. split; [eapply HR; eassumption|]. apply IH. exact H2.
Qed.

(** X1. Consecutive intervals of a report are more than the window apart:
    each interval starts more than [time_window_minutes] after the end of the
    one before it. *)
Theorem intervals_separated (self : Processor.TowerJumpAnalyzer)
    (results : list Processor.interval_result) :
  Processor.analyze_tower_jumps self = Ok results →
  adjacent (fun r r' =>
              gap_over (Processor.time_window_minutes self)
                (Processor.end_time r) (Processor.start_time r')) results.
Proof.
  intros Hres.
  destruct (analyze_Ok_intervals self results Hres)
    as (s & ivs & _ & Hivs & HF & _).
  destruct (closed_intervals_shape self ivs Hivs) as (Hsep & _).
  eapply adjacent_Forall2; [|exact HF|exact Hsep].
  intros iv iv' r r' [_ He]%processed_bounds [Hs _]%processed_bounds.
  unfold separated. rewrite He, Hs. auto.
Qed.

Lemma intervals_separated_witness :
  ∃ results,
    Processor.analyze_tower_jumps
      (Sample.analyzer (Sample.scenario 0 "A" "B")) = Ok results
    ∧ length results = 3
    ∧ adjacent (fun r r' =>
                  gap_over 5 (Processor.end_time r) (Processor.start_time r'))
        results.
Proof.
  set (self := Sample.analyzer (Sample.scenario 0 "A" "B")).
  destruct (Processor.analyze_tower_jumps self) as [results|e] eqn:Hres;
    [|vm_compute in Hres; discriminate].
  exists results. split; [reflexivity|]. split.
  - vm_compute in Hres. injection Hres as <-. reflexivity.
  - exact (intervals_separated self results Hres).
Defined.

(** X2. An interval of the report runs from the timestamp of its first
    member to that of its last member, and each of its members comes at most
    [time_window_minutes] after the member before it, however long the
    interval gets. *)
Theorem interval_members_chained (self : Processor.TowerJumpAnalyzer)
    (results : list Processor.interval_result) :
  Processor.analyze_tower_jumps self = Ok results →
  ∃ ivs,
    Processor.closed_intervals self = Ok ivs
    ∧ Forall2 (fun iv r =>
                 Processor._process_interval self iv = Ok r
                 ∧ Processor.start_time r
                   = head (Processor.iv_records iv) ≫= Processor.utc_datetime
                 ∧ Processor.end_time r
                   = last (Processor.iv_records iv) ≫= Processor.utc_datetime
                 ∧ adjacent (fun m m' =>
                               gap_within (Processor.time_window_minutes self)
                                 (Processor.utc_datetime m)
                                 (Processor.utc_datetime m'))
                     (Processor.iv_records iv)) ivs results.
Proof.
  intros Hres.
  destruct (analyze_Ok_intervals self results Hres)
    as (s & ivs & _ & Hivs & HF & _).
  destruct (closed_intervals_shape self ivs Hivs) as (_ & Hch & Hwf).
  exists ivs. split; [exact Hivs|]. clear Hivs Hres.
  induction HF as [|iv r ivs results Hr _ IH]; constructor.
  - apply Forall_cons in Hch as [Hc _].
    apply Forall_cons in Hwf as [(_ & _ & _ & Hs & He) _].
    destruct (processed_bounds _ _ _ Hr) as [Hrs Hre].
    split; [exact Hr|]. rewrite Hrs, Hre, Hs, He. auto.
  - apply Forall_cons in Hch as [_ Hch]. apply Forall_cons in Hwf as [_ Hwf].
    apply IH; assumption.
Qed.

Lemma interval_members_chained_witness :
  ∃ results ivs,
    Processor.analyze_tower_jumps
      (Sample.analyzer (Sample.records_of Sample.chain)) = Ok results
    ∧ Processor.closed_intervals
        (Sample.analyzer (Sample.records_of Sample.chain)) = Ok ivs
    ∧ map Processor.end_time results = [Some 480%Z]
    ∧ Forall (chained 5) ivs.
Proof.
  set (self := Sample.analyzer (Sample.records_of Sample.chain)).
  destruct (Processor.analyze_tower_jumps self) as [results|e] eqn:Hres;
    [|vm_compute in Hres; discriminate].
  destruct (interval_members_chained self results Hres) as (ivs & Hivs & HF).
  exists results, ivs. split; [reflexivity|]. split; [exact Hivs|]. split.
  - vm_compute in Hres. injection Hres as <-. reflexivity.
  - clear Hres Hivs. induction HF as [|iv r ivs results (_ & _ & _ & Hc) _ IH];
      constructor; [exact Hc|exact IH].
Defined.

Section IntervalCount.
Import Processor.
Variable self : TowerJumpAnalyzer.

Lemma breaks_cons w r r' l :
  breaks w (r :: r' :: l)
  = (if breaks_before w r r' then 1 else 0) + breaks w (r' :: l).
Proof. reflexivity. Qed.

Lemma interval_loop_count_open l : ∀ iv closed p cur' closed',
  interval_loop self l (Some iv) closed = Ok (cur', closed') →
  iv_end_time iv = utc_datetime p →
  length (intervals_so_far closed' cur')
  = length closed + 1
    + breaks (time_window_minutes self) (p :: List.filter labelled l).
Proof.
  induction l as [|record rest IH]; intros iv closed p cur' closed'.
  - simpl. intros [= <- <-] _. unfold intervals_so_far. rewrite length_app.
    simpl. lia.
  - cbn [interval_loop List.filter]. unfold labelled at 1.
    destruct (state_missing record) eqn:Em; cbn [negb]; [apply IH|].
    intros Hloop He. rewrite He in Hloop. rewrite breaks_cons.
    unfold breaks_before.
    destruct (utc_datetime record) as [t|] eqn:Et;
      [|destruct (utc_datetime p); discriminate].
    destruct (utc_datetime p) as [e|] eqn:Ep; [|discriminate].
    simpl in Hloop.
    destruct (Qle_bool (inject_Z (t - e) / 60) (time_window_minutes self));
      simpl.
    + apply (IH _ _ record) in Hloop; [|simpl; congruence].
      rewrite Hloop. reflexivity.
    + apply (IH _ _ record) in Hloop; [|simpl; congruence].
      rewrite Hloop, length_app. simpl. lia.
Qed.

Lemma interval_loop_count l : ∀ closed cur' closed',
  interval_loop self l None closed = Ok (cur', closed') →
  length (intervals_so_far closed' cur')
  = length closed
    + match List.filter labelled l with
      | [] => 0
      | L => S (breaks (time_window_minutes self) L)
      end.
Proof.
  induction l as [|record rest IH]; intros closed cur' closed'.
  - simpl. intros [= <- <-]. unfold intervals_so_far. simpl.
    rewrite app_nil_r. lia.
  - cbn [interval_loop List.filter]. unfold labelled at 1.
    destruct (state_missing record) eqn:Em; cbn [negb]; [apply IH|].
    intros Hloop.
    apply (interval_loop_count_open _ _ _ record) in Hloop; [|reflexivity].
    rewrite Hloop. lia.
Qed.

End IntervalCount.

(** X3. The report has one interval per run of labelled records: no
    interval when no record has a state, and otherwise one more than the
    number of labelled records that come more than [time_window_minutes]
    after the labelled record before them (in sorted order). *)
Theorem interval_count (self : Processor.TowerJumpAnalyzer)
    (results : list Processor.interval_result) :
  Processor.analyze_tower_jumps self = Ok results →
  ∃ sorted,
    Processor.sorted_by_time (Processor.data self) = Ok sorted
    ∧ length results
      = match List.filter labelled sorted with
        | [] => 0
        | L => S (breaks (Processor.time_window_minutes self) L)
        end
    ∧ (results = [] ↔
       Forall (fun r => Processor.state_missing r = true)
         (Processor.data self)).
Proof.
  intros Hres.
  destruct (analyze_Ok_intervals self results Hres)
    as (s & ivs & Hs & Hivs & HF & _).
  exists s. split; [exact Hs|].
  assert (Hlen : length results
                 = match List.filter labelled s with
                   | [] => 0
                   | L => S (breaks (Processor.time_window_minutes self) L)
                   end).
  { rewrite <- (Forall2_length _ _ _ HF).
    unfold Processor.closed_intervals in Hivs. rewrite Hs in Hivs.
    simpl in Hivs.
    destruct (Processor.interval_loop self s None []) as [[cur closed]|e]
      eqn:El; simpl in Hivs; [|discriminate].
    apply interval_loop_count in El. unfold intervals_so_far in El.
    destruct cur as [iv|]; injection Hivs as <-; simpl in El;
      rewrite ?app_nil_r in El; exact El. }
  split; [exact Hlen|].
  pose proof (sorted_by_time_Permutation _ _ Hs) as Hp.
  assert (Hnil : List.filter labelled s = []
                 ↔ Forall (fun r => Processor.state_missing r = true)
                     (Processor.data self)).
  { rewrite Hp. clear. induction s as [|r s IH]; simpl.
    - split; [constructor|reflexivity].
    - unfold labelled at 1. destruct (Processor.state_missing r) eqn:Em; simpl.
      + rewrite IH. split; [intros H; constructor; assumption|].
        intros H. apply Forall_cons in H as [_ H]. exact H.
      + split; [discriminate|]. intros H. apply Forall_cons in H as [H _].
        congruence. }
  rewrite <- Hnil. destruct (List.filter labelled s) as [|r L].
  - destruct results; [tauto|discriminate].
  - destruct results; [discriminate|]. split; discriminate.
Qed.

Lemma interval_count_witness :
  ∃ results,
    Processor.analyze_tower_jumps
      (Sample.analyzer (Sample.record_at 30 (407 # 10) (-74) " "
                          :: Sample.scenario 0 "A" "B")) = Ok results
    ∧ length results = 3.
Proof.
  set (self := Sample.analyzer _).
  destruct (Processor.analyze_tower_jumps self) as [results|e] eqn:Hres;
    [|vm_compute in Hres; discriminate].
  destruct (interval_count self results Hres) as (s & Hs & Hlen & _).
  exists results. split; [reflexivity|].
  rewrite Hlen. vm_compute in Hs. injection Hs as <-. reflexivity.
Defined.

(** ** The rows of the report *)



Lemma occurrences_elem x l : x ∈ l ↔ 1 ≤ occurrences x l.
Proof.
  induction l as [|y l IH]; simpl.
  - split; [intros H; apply elem_of_nil in H; contradiction|lia].
  - rewrite elem_of_cons, IH. destruct (decide (x = y)); [split; [lia|auto]|].
    split; [intros [?|?]; [contradiction|lia]|intros H; right; lia].
Qed.

Lemma occurrences_le_length x l : occurrences x l ≤ length l.
Proof.
  induction l as [|y l IH]; simpl; [lia|]. destruct (decide (x = y)); lia.
Qed.

Lemma Counter_entry k n xs :
  (k, n) ∈ Counter xs → n = occurrences k xs ∧ k ∈ xs.
Proof.
  intros Hin. split.
  - rewrite <- counter_get_Counter. symmetry.
    apply counter_get_elem; [apply Counter_NoDup|exact Hin].
  - apply Counter_elem, list_elem_of_fmap. exists (k, n). auto.
Qed.









(** ** Ties between labels *)

(** [max_by_count] returns the first entry of largest count: every entry in
    front of it has a strictly smaller count. *)
Lemma max_by_count_first c : ∀ best,
  ∃ c1 c2, best :: c = c1 ++ max_by_count best c :: c2
           ∧ ∀ y, y ∈ c1 → y.2 < (max_by_count best c).2.
Proof.
  induction c as [|x c IH]; intros best; simpl.
  - exists [], []. split; [reflexivity|]. intros y Hy.
    apply elem_of_nil in Hy. contradiction.
  - destruct (Nat.ltb_spec best.2 x.2) as [Hlt|Hge].
    + destruct (IH x) as (c1 & c2 & Heq & Hc1).
      exists (best :: c1), c2. split; [simpl; rewrite <- Heq; reflexivity|].
      intros y [->|Hy]%elem_of_cons; [|apply Hc1, Hy].
      pose proof (max_by_count_max x c x (list_elem_of_here _ _)). lia.
    + destruct (IH best) as (c1 & c2 & Heq & Hc1).
      destruct c1 as [|b c1]; simpl in Heq; injection Heq as Hb Hc.
      * exists [], (x :: c). split; [simpl; rewrite <- Hb; reflexivity|].
        intros y Hy. apply elem_of_nil in Hy. contradiction.
      * subst b. exists (best :: x :: c1), c2.
        split; [simpl; do 2 f_equal; exact Hc|].
        intros y [->|[->|Hy]%elem_of_cons]%elem_of_cons.
        -- apply Hc1. left.
        -- specialize (Hc1 best (list_elem_of_here _ _)). lia.
        -- apply Hc1. right. exact Hy.
Qed.

Lemma Counter_snoc xs y : Counter (xs ++ [y]) = counter_incr y (Counter xs).
Proof. unfold Counter. rewrite foldl_app. reflexivity. Qed.

(** The keys of a counter come in the order in which the labels are first
    seen: the labels in front of some occurrence of the key [d] are among the
    keys in front of [d]. *)
Lemma Counter_key_order xs : ∀ k1 d k2,
  (Counter xs).*1 = k1 ++ d :: k2 →
  ∃ l1 l2, xs = l1 ++ d :: l2 ∧ ∀ x, x ∈ l1 → x ∈ k1.
Proof.
  induction xs as [|y xs IH] using rev_ind; intros k1 d k2 Hk.
  - destruct k1; discriminate.
  - rewrite Counter_snoc, counter_incr_keys in Hk.
    destruct (decide (y ∈ (Counter xs).*1)) as [Hin|Hnin].
    + destruct (IH _ _ _ Hk) as (l1 & l2 & -> & Hl1).
      exists l1, (l2 ++ [y]). split; [|exact Hl1].
      rewrite <- app_assoc. reflexivity.
    + destruct k2 as [|z k2 _] using rev_ind.
      * apply app_inj_tail in Hk as [Hk ->].
        exists xs, []. split; [reflexivity|]. intros x Hx.
        rewrite <- Hk. apply Counter_elem, Hx.
      * rewrite app_comm_cons, app_assoc in Hk.
        apply app_inj_tail in Hk as [Hk _].
        destruct (IH _ _ _ Hk) as (l1 & l2 & -> & Hl1).
        exists l1, (l2 ++ [y]). split; [|exact Hl1].
        rewrite <- app_assoc. reflexivity.
Qed.

(** X5. Ties are broken by first appearance: a label with as many members
    as the reported state does not appear in the interval before the
    reported state does. *)
Theorem dominant_first_seen (self : Processor.TowerJumpAnalyzer)
    (iv : Processor.interval) (r : Processor.interval_result) (x : string) :
  Processor._process_interval self iv = Ok r →
  x ≠ Processor.res_state r →
  occurrences x (Processor.iv_states iv)
  = occurrences (Processor.res_state r) (Processor.iv_states iv) →
  ∃ l1 l2, Processor.iv_states iv = l1 ++ Processor.res_state r :: l2
           ∧ x ∉ l1.
Proof.
  unfold Processor._process_interval. intros Hr Hne Hocc.
  destruct (Counter (Processor.iv_states iv)) as [|b c] eqn:Ec;
    simpl in Hr; [discriminate|].
  injection Hr as <-. simpl in *.
  destruct (max_by_count_first c b) as (c1 & c2 & Heq & Hc1).
  set (m := max_by_count b c) in *.
  assert (Hkeys : (Counter (Processor.iv_states iv)).*1
                  = c1.*1 ++ m.1 :: c2.*1).
  { rewrite Ec, Heq, fmap_app. reflexivity. }
  destruct (Counter_key_order _ _ _ _ Hkeys) as (l1 & l2 & Hst & Hl1).
  exists l1, l2. split; [exact Hst|]. intros Hx. apply Hl1 in Hx.
  apply list_elem_of_fmap in Hx as ([x' n] & -> & Hin).
  specialize (Hc1 _ Hin). simpl in Hc1, Hocc, Hne.
  assert (Hn : n = occurrences x' (Processor.iv_states iv)).
  { apply Counter_entry. rewrite Ec, Heq. apply elem_of_app. left. exact Hin. }
  assert (Hm : m.2 = occurrences m.1 (Processor.iv_states iv)).
  { apply Counter_entry. rewrite Ec, Heq. apply elem_of_app. right.
    destruct m. left. }
  lia.
Qed.

Lemma dominant_first_seen_witness :
  let iv := {| Processor.iv_start_time := Some 0%Z;
               Processor.iv_end_time := Some 180%Z;
               Processor.iv_states := ["NJ"; "NY"; "NY"; "NJ"];
               Processor.iv_records := [] |} in
  ∃ r, Processor._process_interval (Sample.analyzer []) iv = Ok r
       ∧ Processor.res_state r = "NJ"
       ∧ ∃ l1 l2, ["NJ"; "NY"; "NY"; "NJ"] = l1 ++ "NJ" :: l2 ∧ "NY" ∉ l1.
Proof.
  intros iv. eexists. split; [vm_compute; reflexivity|].
  split; [reflexivity|].
  apply (dominant_first_seen (Sample.analyzer []) iv _ "NY" eq_refl);
    [discriminate|reflexivity].
Defined.

(** ** The order in which the records are analysed *)

Section SortFilter.
Import Processor.
Variable f : record_dict → bool.

Lemma insert_by_time_filter record l l' :
  timed record → Forall timed l → StronglySorted not_later l →
  insert_by_time record l = Ok l' →
  if f record
  then insert_by_time record (List.filter f l) = Ok (List.filter f l')
  else List.filter f l' = List.filter f l.
Proof.
  intros Hr Hl Hs. revert l'.
  induction Hs as [|x l Hs IH Hx]; intros l'; simpl.
  - intros [= <-]. simpl. destruct (f record); reflexivity.
  - apply Forall_cons in Hl as [Hxt Hl]. specialize (IH Hl).
    unfold timed in Hr, Hxt.
    destruct (utc_datetime x) as [xt|] eqn:Ex; [|congruence].
    destruct (utc_datetime record) as [rt|] eqn:Er; [|congruence]. simpl.
    destruct (Z.ltb_spec xt rt) as [Hlt|Hge].
    + destruct (insert_by_time record l) as [l''|e]; simpl; [|discriminate].
      intros [= <-]. specialize (IH _ eq_refl). simpl.
      destruct (f record), (f x); simpl; rewrite ?Ex, ?Er; simpl;
        try (destruct (Z.ltb_spec xt rt); [|lia]); rewrite ?IH; auto.
    + intros [= <-]. simpl. destruct (f record) eqn:Ef; [|reflexivity].
      change (if f x then x :: List.filter f l else List.filter f l)
        with (List.filter f (x :: l)).
      apply insert_by_time_first.
      * unfold timed. congruence.
      * assert (Hall : Forall (not_later record) (x :: l)).
        { constructor; [unfold not_later; rewrite Er, Ex; exact Hge|].
          eapply Forall_impl; [exact Hx|]. intros y. unfold not_later.
          rewrite Ex, Er. destruct (utc_datetime y); [lia|contradiction]. }
        rewrite Forall_forall in *. intros y Hy%list_elem_of_In.
        apply filter_In in Hy as [Hy _]. apply Hall, list_elem_of_In, Hy.
Qed.

(** Sorting the records that pass a test gives the sorted records that
    pass it. *)
Lemma sorted_by_time_filter data s :
  Forall timed data → sorted_by_time data = Ok s →
  sorted_by_time (List.filter f data) = Ok (List.filter f s).
Proof.
  intros Ht. revert s. induction Ht as [|record data Hr Ht IH]; intros s; simpl.
  - intros [= <-]. reflexivity.
  - destruct (sorted_by_time data) as [s0|e] eqn:Es; simpl; [|discriminate].
    intros Hi. destruct (sorted_by_time_sorted _ _ Ht Es) as [Ht0 Hs0].
    pose proof (insert_by_time_filter record s0 s Hr Ht0 Hs0 Hi) as Hf.
    destruct (f record); simpl.
    + rewrite (IH _ eq_refl). simpl. exact Hf.
    + rewrite Hf. apply IH. reflexivity.
Qed.

End SortFilter.

Lemma at_time_chronological t l :
  chronological (List.filter (at_time t) l).
Proof.
  assert (Hall : Forall (fun r => Processor.utc_datetime r = Some t)
                   (List.filter (at_time t) l)).
  { rewrite Forall_forall. intros r Hr%list_elem_of_In.
    apply filter_In in Hr as [_ Hr]. unfold at_time in Hr.
    destruct (Processor.utc_datetime r) as [u|]; [|discriminate].
    apply Z.eqb_eq in Hr. congruence. }
  induction Hall as [|r l' Hr Hall [IH1 IH2]]; [split; constructor|]. split.
  - constructor; [unfold timed; congruence|exact IH1].
  - constructor; [exact IH2|]. eapply Forall_impl; [exact Hall|].
    intros y Hy. unfold not_later. rewrite Hr, Hy. lia.
Qed.

(** X6. The records are analysed in chronological order, records with the
    same timestamp in the order of the file: when every record has a
    timestamp, the sort returns a chronologically ordered permutation of the
    data in which the records of any one timestamp keep their order. *)
Theorem sort_is_stable (data : list Processor.record_dict) :
  Forall timed data →
  ∃ sorted,
    Processor.sorted_by_time data = Ok sorted
    ∧ chronological sorted
    ∧ Permutation data sorted
    ∧ ∀ t, List.filter (at_time t) sorted = List.filter (at_time t) data.
Proof.
  intros Ht. destruct (sorted_by_time_total _ Ht) as [s Hs].
  exists s. split; [exact Hs|]. split; [eapply sorted_by_time_sorted; eassumption|].
  split; [eapply sorted_by_time_Permutation; exact Hs|].
  intros t. pose proof (sorted_by_time_filter (at_time t) data s Ht Hs) as Hf.
  rewrite (sorted_by_time_chronological _ (at_time_chronological t data)) in Hf.
  injection Hf as <-. reflexivity.
Qed.

Lemma sort_is_stable_witness :
  let a := Sample.record_at 60 (407 # 10) (-74) "NY" in
  let b := Sample.record_at 0 (407 # 10) (-74) "NJ" in
  let c := Sample.record_at 60 (407 # 10) (-74) "PA" in
  ∃ sorted,
    Processor.sorted_by_time [a; b; c] = Ok sorted
    ∧ List.filter (at_time 60) sorted = [a; c].
Proof.
  intros a b c.
  assert (Ht : Forall timed [a; b; c]) by (repeat constructor; discriminate).
  destruct (sort_is_stable [a; b; c] Ht) as (s & Hs & _ & _ & Hst).
  exists s. split; [exact Hs|]. rewrite Hst. reflexivity.
Defined.

Section AnalyzeInputs.
Import Processor.

(** The loop reads the analyzer for its window and its threshold only. *)
Lemma analyze_loop_settings self self' l : ∀ cur results,
  time_window_minutes self' = time_window_minutes self →
  min_confidence self' = min_confidence self →
  analyze_loop self' l cur results = analyze_loop self l cur results.
Proof.
  intros cur results Hw Hc. revert cur results.
  induction l as [|record rest IH]; intros cur results; simpl; [reflexivity|].
  destruct (state_missing record); [apply IH|].
  destruct cur as [iv|]; [|apply IH].
  destruct (minutes_between _ _); simpl; [|reflexivity]. rewrite Hw.
  destruct (Qle_bool _ _); [apply IH|].
  unfold _process_interval. rewrite Hc.
  destruct (item0 _); simpl; [apply IH|reflexivity].
Qed.

Lemma analyze_settings self self' :
  data self' = data self →
  time_window_minutes self' = time_window_minutes self →
  min_confidence self' = min_confidence self →
  analyze_tower_jumps self' = analyze_tower_jumps self.
Proof.
  intros Hd Hw Hc. unfold analyze_tower_jumps. rewrite Hd.
  destruct (sorted_by_time (data self)) as [s|e]; simpl; [|reflexivity].
  rewrite (analyze_loop_settings self self' s None [] Hw Hc).
  destruct (analyze_loop self s None []) as [[cur results]|e]; simpl;
    [|reflexivity].
  destruct cur as [iv|]; [|reflexivity].
  unfold _process_interval. rewrite Hc. reflexivity.
Qed.

(** The loop passes over the records without a state. *)
Lemma analyze_loop_labelled self l : ∀ cur results,
  analyze_loop self (List.filter labelled l) cur results
  = analyze_loop self l cur results.
Proof.
  induction l as [|record rest IH]; intros cur results; [reflexivity|].
  cbn [List.filter analyze_loop]. unfold labelled at 1.
  destruct (state_missing record) eqn:Em; cbn [negb]; [apply IH|].
  cbn [analyze_loop]. rewrite Em.
  destruct cur as [iv|]; [|apply IH].
  destruct (minutes_between _ _); simpl; [|reflexivity].
  destruct (Qle_bool _ _); [apply IH|].
  destruct (_process_interval self iv); simpl; [apply IH|reflexivity].
Qed.

End AnalyzeInputs.

(** X7. Records without a state are invisible to the analysis: when every
    record has a timestamp, the report is the one obtained from the data
    with those records removed. *)
Theorem blank_records_invisible (self : Processor.TowerJumpAnalyzer) :
  Forall timed (Processor.data self) →
  Processor.analyze_tower_jumps
    (Processor.set_data self (List.filter labelled (Processor.data self)))
  = Processor.analyze_tower_jumps self.
Proof.
  intros Ht. unfold Processor.analyze_tower_jumps.
  cbn [Processor.data Processor.set_data].
  destruct (sorted_by_time_total _ Ht) as [s Hs].
  rewrite (sorted_by_time_filter labelled _ s Ht Hs), Hs. cbn [bind].
  rewrite (analyze_loop_settings self); [|reflexivity|reflexivity].
  rewrite analyze_loop_labelled.
  destruct (Processor.analyze_loop self s None []) as [[cur results]|e];
    [|reflexivity].
  reflexivity.
Qed.

Lemma blank_records_invisible_witness :
  Processor.analyze_tower_jumps
    (Sample.analyzer (Sample.scenario 0 "A" "B"))
  = Processor.analyze_tower_jumps
      (Sample.analyzer (Sample.record_at 30 (407 # 10) (-74) " "
                          :: Sample.scenario 0 "A" "B")).
Proof.
  assert (Ht : Forall timed
                 (Processor.data
                    (Sample.analyzer
                       (Sample.record_at 30 (407 # 10) (-74) " "
                          :: Sample.scenario 0 "A" "B"))))
    by (repeat constructor; discriminate).
  exact (blank_records_invisible _ Ht).
Defined.

Lemma chronological_unique s : ∀ s',
  StronglySorted not_later s → StronglySorted not_later s' →
  Permutation s s' → NoDup (map Processor.utc_datetime s) → s = s'.
Proof.
  induction s as [|x s IH]; intros s' Hs Hs' Hp Hnd.
  - apply Permutation_nil in Hp. congruence.
  - destruct s' as [|y s'];
      [apply Permutation_sym, Permutation_nil in Hp; discriminate|].
    apply StronglySorted_inv in Hs as [Hs Hx].
    apply StronglySorted_inv in Hs' as [Hs' Hy].
    simpl in Hnd. apply NoDup_cons in Hnd as [Hnin Hnd].
    assert (Hxy : x = y).
    { assert (Hx' : x ∈ y :: s') by (rewrite <- Hp; left).
      assert (Hy' : y ∈ x :: s) by (rewrite Hp; left).
      apply elem_of_cons in Hx' as [Hx'|Hx']; [exact Hx'|].
      apply elem_of_cons in Hy' as [Hy'|Hy']; [congruence|].
      rewrite Forall_forall in Hx, Hy.
      specialize (Hx _ Hy'). specialize (Hy _ Hx'). unfold not_later in Hx, Hy.
      exfalso. apply Hnin. apply list_elem_of_In, in_map_iff. exists y.
      split; [|apply list_elem_of_In, Hy'].
      destruct (Processor.utc_datetime x), (Processor.utc_datetime y);
        try contradiction. f_equal. lia. }
    subst y. f_equal. apply IH; try assumption.
    eapply Permutation_cons_inv. exact Hp.
Qed.

(** X8. With pairwise distinct timestamps the report does not depend on the
    order of the records in the data. *)
Theorem order_independent (self : Processor.TowerJumpAnalyzer)
    (data' : list Processor.record_dict) :
  Permutation (Processor.data self) data' →
  Forall timed (Processor.data self) →
  NoDup (map Processor.utc_datetime (Processor.data self)) →
  Processor.analyze_tower_jumps (Processor.set_data self data')
  = Processor.analyze_tower_jumps self.
Proof.
  intros Hp Ht Hnd.
  assert (Ht' : Forall timed data') by (rewrite <- Hp; exact Ht).
  destruct (sorted_by_time_total _ Ht) as [s Hs].
  destruct (sorted_by_time_total _ Ht') as [s' Hs'].
  assert (Heq : s = s').
  { apply chronological_unique.
    - exact (proj2 (sorted_by_time_sorted _ _ Ht Hs)).
    - exact (proj2 (sorted_by_time_sorted _ _ Ht' Hs')).
    - rewrite <- (sorted_by_time_Permutation _ _ Hs),
        <- (sorted_by_time_Permutation _ _ Hs'). exact Hp.
    - assert (Hpm : Permutation (map Processor.utc_datetime (Processor.data self))
                      (map Processor.utc_datetime s)).
      { apply Permutation_map. eapply sorted_by_time_Permutation. exact Hs. }
      rewrite <- Hpm. exact Hnd. }
  unfold Processor.analyze_tower_jumps.
  cbn [Processor.data Processor.set_data]. rewrite Hs, Hs', Heq. cbn [bind].
  rewrite (analyze_loop_settings self); [|reflexivity|reflexivity].
  reflexivity.
Qed.

Lemma order_independent_witness :
  Processor.analyze_tower_jumps
    (Sample.analyzer (rev (Sample.scenario 0 "A" "B")))
  = Processor.analyze_tower_jumps
      (Sample.analyzer (Sample.scenario 0 "A" "B")).
Proof.
  apply (order_independent (Sample.analyzer (Sample.scenario 0 "A" "B"))).
  - apply Permutation_rev.
  - repeat constructor; discriminate.
  - vm_compute.
    repeat (apply NoDup_cons; split;
            [rewrite ?not_elem_of_cons; repeat split; try discriminate;
             apply not_elem_of_nil|]).
    apply NoDup_nil_2.
Defined.

(** ** What the imputation fills in *)

Section ImputerBuckets.
Import Processor.

Lemma bucket_cons record data k :
  bucket (record :: data) k
  = (if has_known_state record && bool_decide (coord_key record = k)
     then [state record] else []) ++ bucket data k.
Proof.
  unfold bucket. simpl. destruct (_ && _); reflexivity.
Qed.

Lemma collect_foldl_bucket data : ∀ m k,
  foldl collect_step m data !! k
  = match bucket data k with
    | [] => m !! k
    | b => Some (default [] (m !! k) ++ b)
    end.
Proof.
  induction data as [|record data IH]; intros m k; [reflexivity|].
  cbn [foldl]. rewrite IH, bucket_cons. unfold collect_step.
  destruct (has_known_state record); cbn [andb]; [|reflexivity].
  cbv zeta. destruct (decide (coord_key record = k)) as [<-|Hne].
  - rewrite bool_decide_eq_true_2 by reflexivity. rewrite lookup_insert_eq.
    cbn [default app]. destruct (bucket data (coord_key record)); simpl.
    + reflexivity.
    + rewrite <- app_assoc. reflexivity.
  - rewrite bool_decide_eq_false_2 by exact Hne.
    rewrite lookup_insert_ne by exact Hne. reflexivity.
Qed.

(** The first loop gathers, under each rounded coordinate, the known states
    found there, in the order of the data. *)
Lemma collect_states_bucket data k :
  collect_states data !! k
  = match bucket data k with
    | [] => None
    | b => Some b
    end.
Proof.
  unfold collect_states. rewrite collect_foldl_bucket, lookup_empty.
  destruct (bucket data k); reflexivity.
Qed.

Lemma majority_dominant states : states ≠ [] → dominant (majority states) states.
Proof.
  intros Hne. destruct (most_common_dominant _ Hne) as (d & Hd & Hdom).
  unfold majority. destruct (most_common_1 (Counter states)); simpl in Hd;
    [discriminate|].
  injection Hd as ->. exact Hdom.
Qed.

Lemma nonzero_not_sentinel record :
  nonzero (latitude record) && nonzero (longitude record) = true ↔
  ¬ sentinel record.
Proof.
  split.
  - intros H Hs. rewrite (nonzero_sentinel _ Hs) in H. discriminate.
  - intros Hns. unfold nonzero.
    destruct (Qeq_bool (latitude record) 0) eqn:E1;
      [exfalso; apply Hns; left; apply Qeq_bool_iff, E1|].
    destruct (Qeq_bool (longitude record) 0) eqn:E2;
      [exfalso; apply Hns; right; apply Qeq_bool_iff, E2|].
    reflexivity.
Qed.

(** What the third loop does to a record. *)
Lemma fill_record_bucket data record :
  let b := bucket data (coord_key record) in
  (fill_record (majority <$> collect_states data) record = record
   ∧ (state_missing record = false ∨ sentinel record ∨ b = []))
  ∨ (state_missing record = true ∧ ¬ sentinel record ∧ b ≠ []
     ∧ fill_record (majority <$> collect_states data) record
       = set_state record (majority b)).
Proof.
  intros b. unfold fill_record.
  destruct (state_missing record) eqn:Em; [|left; auto].
  destruct (nonzero (latitude record) && nonzero (longitude record)) eqn:Ez.
  - apply nonzero_not_sentinel in Ez.
    rewrite lookup_fmap, collect_states_bucket. fold b.
    destruct b as [|s b'] eqn:Eb; simpl.
    + left. auto.
    + right. repeat split; [exact Ez|discriminate].
  - left. split; [reflexivity|]. right. left.
    apply andb_false_iff in Ez as [Ez|Ez]; unfold nonzero in Ez;
      apply negb_false_iff, Qeq_bool_iff in Ez; [left|right]; exact Ez.
Qed.

End ImputerBuckets.

(** X9. [fill_missing_states] always returns and changes nothing but
    states: the records keep their order and their other fields, and a record
    is changed only if its state is blank and both coordinates are different
    from zero, in which case it receives a non-blank state that is most
    frequent among the known states of the records at the same rounded
    coordinates. *)
Theorem fill_majority_of_bucket (self : Processor.TowerJumpAnalyzer) :
  ∃ self',
    Processor.fill_missing_states self = Ok self'
    ∧ Processor.filename self' = Processor.filename self
    ∧ Processor.time_window_minutes self' = Processor.time_window_minutes self
    ∧ Processor.min_confidence self' = Processor.min_confidence self
    ∧ Forall2 (fun r r' =>
                 r' = r
                 ∨ (Processor.state_missing r = true
                    ∧ ¬ sentinel r
                    ∧ ∃ d, r' = Processor.set_state r d
                           ∧ blank d = false
                           ∧ dominant d
                               (bucket (Processor.data self)
                                  (Processor.coord_key r))))
        (Processor.data self) (Processor.data self').
Proof.
  eexists. split; [apply fill_missing_states_eq|].
  cbn [Processor.set_data Processor.filename Processor.time_window_minutes
         Processor.min_confidence Processor.data].
  repeat (split; [reflexivity|]).
  apply Forall2_fmap_r, Forall_Forall2_diag, Forall_forall. intros r _.
  destruct (fill_record_bucket (Processor.data self) r)
    as [[Heq _]|(Hm & Hns & Hb & Heq)]; [left; exact Heq|].
  right. split; [exact Hm|]. split; [exact Hns|].
  exists (majority (bucket (Processor.data self) (Processor.coord_key r))).
  split; [exact Heq|]. split; [|apply majority_dominant, Hb].
  apply majority_present.
  pose proof (collect_states_bucket (Processor.data self)
                (Processor.coord_key r)) as Hl.
  destruct (bucket (Processor.data self) (Processor.coord_key r)) as [|s b]
    eqn:Eb; [congruence|].
  exact (collect_states_good (Processor.data self) _ _ Hl).
Qed.

(** X10. The imputation is complete: after [fill_missing_states], a record
    whose state is still blank has a zero coordinate, or no record of the
    data has a known state at its rounded coordinates. *)
Theorem fill_complete (self self' : Processor.TowerJumpAnalyzer) :
  Processor.fill_missing_states self = Ok self' →
  Forall (fun r' =>
            Processor.state_missing r' = true →
            sentinel r'
            ∨ bucket (Processor.data self) (Processor.coord_key r') = [])
    (Processor.data self').
Proof.
  rewrite fill_missing_states_eq. intros [= <-].
  cbn [Processor.data Processor.set_data].
  apply Forall_forall. intros r' Hr'%list_elem_of_In.
  apply in_map_iff in Hr' as (r & <- & _).
  destruct (fill_record_bucket (Processor.data self) r)
    as [[-> Hcases]|(_ & _ & Hb & ->)].
  - intros Hm. destruct Hcases as [Hc|Hc]; [congruence|exact Hc].
  - change (Processor.state_missing (Processor.set_state r ?s))
      with (blank s).
    intros Hm. exfalso.
    pose proof (collect_states_bucket (Processor.data self)
                  (Processor.coord_key r)) as Hl.
    destruct (bucket (Processor.data self) (Processor.coord_key r)) as [|s b]
      eqn:Eb; [congruence|].
    pose proof (majority_present _
                  (collect_states_good (Processor.data self) _ _ Hl)).
    congruence.
Qed.

Lemma fill_complete_witness :
  let known := Sample.record_at 0 (407 # 10) (-74) "NY" in
  let near := Sample.record_at 60 (40700004 # 1000000) (-74) "" in
  let far := Sample.record_at 120 (41 # 1) (-74) " " in
  let zero := Sample.record_at 180 0 (-74) "" in
  ∃ self',
    Processor.fill_missing_states (Sample.analyzer [known; near; far; zero])
    = Ok self'
    ∧ map Processor.state (Processor.data self') = ["NY"; "NY"; " "; ""]
    ∧ Forall (fun r' =>
                Processor.state_missing r' = true →
                sentinel r'
                ∨ bucket [known; near; far; zero] (Processor.coord_key r') = [])
        (Processor.data self').
Proof.
  intros known near far zero. eexists.
  split; [apply fill_missing_states_eq|]. split; [vm_compute; reflexivity|].
  apply (fill_complete (Sample.analyzer [known; near; far; zero])).
  apply fill_missing_states_eq.
Defined.

(** ** The report pipeline *)

Lemma fill_missing_states_twice self self' :
  Processor.fill_missing_states self = Ok self' →
  Processor.fill_missing_states self' = Ok self'.
Proof.
  rewrite fill_missing_states_eq. intros [= <-].
  rewrite fill_missing_states_eq. cbn [Processor.data Processor.set_data].
  f_equal. unfold Processor.set_data. cbn. f_equal.
  rewrite map_map. apply map_ext_in. intros r Hr.
  apply fill_record_fixed. apply list_elem_of_In. exact Hr.
Qed.

(** X11. [generate_report] analyses the data after imputation and leaves the
    imputed data in the analyzer; generating the report again from that
    analyzer gives the same data and the same report. *)
Theorem generate_report_repeatable (self self' : Processor.TowerJumpAnalyzer)
    (results : list Processor.interval_result) :
  Processor.generate_report self = Ok (self', results) →
  Processor.fill_missing_states self = Ok self'
  ∧ Processor.analyze_tower_jumps self' = Ok results
  ∧ Processor.generate_report self' = Ok (self', results).
Proof.
  unfold Processor.generate_report.
  destruct (Processor.fill_missing_states self) as [s1|e] eqn:Hfill; simpl;
    [|discriminate].
  destruct (Processor.analyze_tower_jumps s1) as [rs|e] eqn:Hres; simpl;
    [|discriminate].
  intros [= <- <-]. split; [reflexivity|]. split; [exact Hres|].
  rewrite (fill_missing_states_twice _ _ Hfill). simpl. rewrite Hres.
  reflexivity.
Qed.

Lemma generate_report_repeatable_witness :
  let known := Sample.record_at 0 (407 # 10) (-74) "NY" in
  let near := Sample.record_at 60 (40700004 # 1000000) (-74) "" in
  ∃ self' results,
    Processor.generate_report (Sample.analyzer [known; near])
    = Ok (self', results)
    ∧ map Processor.total_records results = [2]
    ∧ Processor.generate_report self' = Ok (self', results).
Proof.
  intros known near.
  destruct (Processor.generate_report (Sample.analyzer [known; near]))
    as [[self' results]|e] eqn:Hgen; [|vm_compute in Hgen; discriminate].
  exists self', results. split; [reflexivity|]. split.
  - vm_compute in Hgen. injection Hgen as <- <-. reflexivity.
  - apply (generate_report_repeatable _ _ _ Hgen).
Defined.

Lemma filter_length_map_mono {A} (p : A → bool) (g : A → A) l :
  (∀ x, p x = true → p (g x) = true) →
  length (List.filter p l) ≤ length (List.filter p (map g l)).
Proof.
  intros Hg. induction l as [|x l IH]; simpl; [lia|].
  destruct (p x) eqn:Ex.
  - rewrite (Hg x Ex). simpl. lia.
  - destruct (p (g x)); simpl; lia.
Qed.

(** X12. The report of [generate_report] covers every record that has a
    state after imputation, which are at least the records that had one
    before: the [total_records] add up to the number of records of the
    imputed data with a non-blank state, and imputation never lowers that
    number. *)
Theorem generate_report_covers (self self' : Processor.TowerJumpAnalyzer)
    (results : list Processor.interval_result) :
  Processor.generate_report self = Ok (self', results) →
  sum_list_with Processor.total_records results
  = length (List.filter labelled (Processor.data self'))
  ∧ length (List.filter labelled (Processor.data self))
    ≤ length (List.filter labelled (Processor.data self'))
  ∧ length (Processor.data self') = length (Processor.data self).
Proof.
  unfold Processor.generate_report.
  destruct (Processor.fill_missing_states self) as [s1|e] eqn:Hfill; simpl;
    [|discriminate].
  destruct (Processor.analyze_tower_jumps s1) as [rs|e] eqn:Hres; simpl;
    [|discriminate].
  intros [= <- <-]. split; [|].
  - destruct (analyze_Ok_intervals s1 rs Hres)
      as (s & ivs & Hs & _ & HF & Hw & Hcat).
    rewrite (total_records_sum s1 ivs rs HF Hw), Hcat. symmetry.
    apply filter_length_Permutation.
    eapply sorted_by_time_Permutation. exact Hs.
  - rewrite fill_missing_states_eq in Hfill. injection Hfill as <-.
    cbn [Processor.data Processor.set_data]. split; [|apply length_map].
    apply filter_length_map_mono. intros r. unfold labelled.
    unfold Processor.fill_record.
    destruct (Processor.state_missing r) eqn:Em; [discriminate|].
    rewrite Em. reflexivity.
Qed.

Lemma generate_report_covers_witness :
  let known := Sample.record_at 0 (407 # 10) (-74) "NY" in
  let near := Sample.record_at 60 (40700004 # 1000000) (-74) "" in
  let zero := Sample.record_at 120 0 (-74) "" in
  ∃ self' results,
    Processor.generate_report (Sample.analyzer [known; near; zero])
    = Ok (self', results)
    ∧ sum_list_with Processor.total_records results = 2.
Proof.
  intros known near zero.
  destruct (Processor.generate_report (Sample.analyzer [known; near; zero]))
    as [[self' results]|e] eqn:Hgen; [|vm_compute in Hgen; discriminate].
  exists self', results. split; [reflexivity|].
  rewrite (proj1 (generate_report_covers _ _ _ Hgen)).
  vm_compute in Hgen. injection Hgen as <- <-. reflexivity.
Defined.

(** ** What the loader keeps *)

Section LoaderRows.
Import Processor.
Variable strptime : string → string → option Z.
Variable float : string → option Q.
Variable int : string → option Z.




End LoaderRows.




(** ** The summary of [main] *)











(** ** Shape of the segmentation of [src/test.py] *)

Section TestShape.
Variable w : Q.

Lemma within_first_snoc cur first row :
  head cur = Some first → within_first w cur → row_within w first row →
  within_first w (cur ++ [row]).
Proof.
  destruct cur as [|f cur]; [discriminate|]. intros [= ->] Hw Hr. simpl.
  apply Forall_app. split; [exact Hw|]. constructor; [exact Hr|constructor].
Qed.

Lemma group_loop_shape rows : ∀ cur closed,
  group_shape w closed cur →
  group_shape w (group_loop w rows cur closed).1
    (group_loop w rows cur closed).2.
Proof.
  induction rows as [|row rest IH]; intros cur closed Hsh; simpl; [exact Hsh|].
  destruct (no_state row) eqn:En; [apply IH, Hsh|].
  destruct Hsh as (Hcl & Hst & Hwf & Hadj & Hlast).
  destruct cur as [|first cur].
  - apply IH. split; [exact Hcl|]. split; [repeat constructor; exact En|].
    split; [constructor|]. split; [exact Hadj|].
    destruct (last closed); [discriminate|exact I].
  - destruct (Qle_bool _ _) eqn:Ew.
    + apply IH. split; [exact Hcl|]. split.
      { apply Forall_app. split; [exact Hst|]. repeat constructor. exact En. }
      split; [apply (within_first_snoc (first :: cur) first);
              [reflexivity|exact Hwf|exact Ew]|].
      split; [exact Hadj|exact Hlast].
    + apply IH. split.
      { apply Forall_app. split; [exact Hcl|]. constructor; [|constructor].
        split; [exact Hst|]. split; [exact Hwf|]. split; [exact En|].
        exists first. split; [reflexivity|exact Ew]. }
      split; [repeat constructor; exact En|]. split; [constructor|]. split.
      * apply adjacent_snoc. split; [exact Hadj|].
        destruct (last closed); [exact Hlast|exact I].
      * rewrite last_snoc. reflexivity.
Qed.

Lemma group_loop_cover rows : ∀ cur closed,
  concat (map group_members (group_loop w rows cur closed).1)
  ++ (group_loop w rows cur closed).2
  = concat (map group_members closed) ++ cur
    ++ List.filter (fun r => negb (no_state r)) rows.
Proof.
  induction rows as [|row rest IH]; intros cur closed; simpl.
  - rewrite app_nil_r. reflexivity.
  - destruct (no_state row) eqn:En; simpl; [apply IH|].
    destruct cur as [|first cur]; [rewrite IH; reflexivity|].
    destruct (Qle_bool _ _); rewrite IH.
    + rewrite <- !app_assoc. reflexivity.
    + rewrite map_app, concat_app. simpl. rewrite app_nil_r, <- !app_assoc.
      reflexivity.
Qed.

Lemma group_shape_start : group_shape w [] [].
Proof. repeat split; constructor. Qed.

End TestShape.

Section TestReport.
Variables (self : TestPy.TowerJumpAnalyzer) (w mc : Q).

Lemma interval_rows_starts closed cur :
  Forall (group_ok w) closed →
  adjacent (fun g g' => head (group_members g') = Some (closing_row g)) closed →
  match last closed with
  | Some g => head cur = Some (closing_row g)
  | None => True
  end →
  adjacent (starts_over w)
    (map group_members closed ++ match cur with [] => [] | _ => [cur] end).
Proof.
  induction closed as [|g [|g' closed] IH]; intros Hok Hadj Hlast.
  - simpl. destruct cur; exact I.
  - simpl in *. apply Forall_cons in Hok as [(_ & _ & _ & f & Hf & Hover) _].
    destruct cur as [|c cur]; [discriminate|]. simpl in Hlast.
    injection Hlast as ->. split; [|exact I].
    exists f, (closing_row g). auto.
  - apply Forall_cons in Hok as [(_ & _ & _ & f & Hf & Hover) Hok].
    destruct Hadj as [Hlink Hadj]. split.
    + exists f, (closing_row g). auto.
    + apply IH; assumption.
Qed.

(** The rows of the result frame, interval by interval. *)
Lemma test_results_rows :
  ∃ results,
    TestPy.analyze_tower_jumps self w mc = Ok results
    ∧ Forall2 (fun rows r =>
                 rows ≠ []
                 ∧ TestPy.start_time r = TestPy.UTCDateTime <$> head rows)
        (interval_rows w (TestPy.df self)) results.
Proof.
  destruct (test_analyze_groups self w mc) as (rs & HF & Hfin).
  unfold interval_rows. cbv zeta.
  assert (HF' : Forall2 (fun rows r =>
                   rows ≠ []
                   ∧ TestPy.start_time r = TestPy.UTCDateTime <$> head rows)
                  (map group_members (group_loop w (TestPy.df self) [] []).1)
                  rs).
  { clear Hfin. induction HF as [|g r gs rs' [Hne Hc] _ IH]; simpl;
      constructor; [|exact IH].
    apply close_interval_spec in Hc as (_ & Hs & _). auto. }
  destruct ((group_loop w (TestPy.df self) [] []).2) as [|first cur].
  - exists rs. rewrite app_nil_r. auto.
  - destruct Hfin as (last_row & r & _ & Hc & Ha).
    exists (rs ++ [r]). split; [exact Ha|].
    apply Forall2_app; [exact HF'|]. constructor; [|constructor].
    apply close_interval_spec in Hc as (_ & Hs & _).
    split; [discriminate|exact Hs].
Qed.

Lemma linked_results closed : ∀ rs cur final,
  Forall2 (group_result mc) closed rs →
  Forall (group_ok w) closed →
  adjacent (fun g g' => head (group_members g') = Some (closing_row g)) closed →
  match last closed with
  | Some g => head cur = Some (closing_row g)
  | None => True
  end →
  match cur with
  | [] => final = []
  | f :: _ => ∃ r, final = [r]
                   ∧ TestPy.start_time r = Some (TestPy.UTCDateTime f)
  end →
  adjacent (fun r r' =>
              TestPy.start_time r' = Some (TestPy.end_time r + 60)%Z
              ∧ gap_over w (TestPy.start_time r) (TestPy.start_time r'))
    (rs ++ final).
Proof.
  induction closed as [|g [|g' closed] IH]; intros rs cur final HF Hok Hadj
    Hlast Hfin.
  - apply Forall2_nil_inv_l in HF as ->. simpl.
    destruct cur as [|c cur]; [rewrite Hfin; exact I|].
    destruct Hfin as (r & -> & _). exact I.
  - apply Forall2_cons_inv_l in HF as (r & rs' & [_ Hc] & HF & ->).
    apply Forall2_nil_inv_l in HF as ->.
    apply Forall_cons in Hok as [(_ & _ & _ & f & Hf & Hover) _].
    simpl in Hlast. destruct cur as [|c cur]; [discriminate|].
    injection Hlast as ->. destruct Hfin as (r' & -> & Hs'). simpl.
    apply close_interval_spec in Hc as (_ & Hs & He & _).
    split; [|exact I]. rewrite Hs, He, Hs', Hf. simpl.
    split; [f_equal; lia|exact Hover].
  - apply Forall2_cons_inv_l in HF as (r & rs' & [_ Hc] & HF & ->).
    pose proof HF as HF0.
    apply Forall2_cons_inv_l in HF as (r' & rs'' & [_ Hc'] & _ & ->).
    apply Forall_cons in Hok as [(_ & _ & _ & f & Hf & Hover) Hok].
    destruct Hadj as [Hlink Hadj].
    apply close_interval_spec in Hc as (_ & Hs & He & _).
    apply close_interval_spec in Hc' as (_ & Hs' & _).
    split.
    + rewrite Hs, He, Hs', Hf, Hlink. simpl. split; [f_equal; lia|exact Hover].
    + apply (IH (r' :: rs'') cur final); assumption.
Qed.

Lemma test_results_linked :
  ∃ results,
    TestPy.analyze_tower_jumps self w mc = Ok results
    ∧ adjacent (fun r r' =>
                  TestPy.start_time r' = Some (TestPy.end_time r + 60)%Z
                  ∧ gap_over w (TestPy.start_time r) (TestPy.start_time r'))
        results.
Proof.
  destruct (test_analyze_groups self w mc) as (rs & HF & Hfin).
  destruct (group_loop_shape w (TestPy.df self) [] [] (group_shape_start w))
    as (Hok & _ & _ & Hadj & Hlast).
  destruct ((group_loop w (TestPy.df self) [] []).2) as [|first cur] eqn:Ec.
  - exists rs. split; [exact Hfin|]. rewrite <- (app_nil_r rs).
    eapply (linked_results _ rs []); try eassumption. reflexivity.
  - destruct Hfin as (last_row & r & _ & Hc & Ha).
    exists (rs ++ [r]). split; [exact Ha|].
    eapply (linked_results _ rs (first :: cur)); try eassumption.
    exists r. split; [reflexivity|].
    apply close_interval_spec in Hc as (_ & Hs & _). exact Hs.
Qed.

End TestReport.

(** X17. [analyze_tower_jumps] of [src/test.py] always returns, one row per
    interval; the intervals cut the rows that have a state, in the order of
    the frame, into consecutive runs, each interval starts at the timestamp
    of its first row, and the result is empty exactly when no row has a
    state. *)
Theorem test_coverage (self : TestPy.TowerJumpAnalyzer) (w mc : Q) :
  ∃ results,
    TestPy.analyze_tower_jumps self w mc = Ok results
    ∧ Forall2 (fun rows r =>
                 rows ≠ []
                 ∧ TestPy.start_time r = TestPy.UTCDateTime <$> head rows)
        (interval_rows w (TestPy.df self)) results
    ∧ concat (interval_rows w (TestPy.df self))
      = List.filter (fun r => negb (no_state r)) (TestPy.df self)
    ∧ (results = [] ↔
       Forall (fun r => no_state r = true) (TestPy.df self)).
Proof.
  destruct (test_results_rows self w mc) as (results & Hres & HF).
  exists results. split; [exact Hres|]. split; [exact HF|].
  assert (Hcat : concat (interval_rows w (TestPy.df self))
                 = List.filter (fun r => negb (no_state r)) (TestPy.df self)).
  { pose proof (group_loop_cover w (TestPy.df self) [] []) as Hc.
    simpl in Hc. rewrite <- Hc. unfold interval_rows. cbv zeta.
    rewrite concat_app. f_equal.
    destruct ((group_loop w (TestPy.df self) [] []).2); simpl;
      [reflexivity|rewrite app_nil_r; reflexivity]. }
  split; [exact Hcat|].
  assert (Hnil : List.filter (fun r => negb (no_state r)) (TestPy.df self) = []
                 ↔ Forall (fun r => no_state r = true) (TestPy.df self)).
  { clear. induction (TestPy.df self) as [|r l IH]; simpl.
    - split; [constructor|reflexivity].
    - destruct (no_state r) eqn:En; simpl.
      + rewrite IH. split; [intros H; constructor; assumption|].
        intros H. apply Forall_cons in H as [_ H]. exact H.
      + split; [discriminate|]. intros H. apply Forall_cons in H as [H _].
        congruence. }
  rewrite <- Hnil, <- Hcat. split.
  - intros ->. apply Forall2_nil_inv_r in HF. rewrite HF. reflexivity.
  - intros Hc. destruct HF as [|rows r rs results [Hne _] _]; [reflexivity|].
    simpl in Hc. apply app_eq_nil in Hc as [Hc _]. contradiction.
Qed.

(** X18. [src/test.py] measures the window from the first row of an
    interval: every row of an interval comes at most [time_window_minutes]
    after its first row, consecutive intervals start more than
    [time_window_minutes] apart, and each interval ends one minute before the
    next one starts. *)
Theorem test_fixed_start_window (self : TestPy.TowerJumpAnalyzer) (w mc : Q) :
  ∃ results,
    TestPy.analyze_tower_jumps self w mc = Ok results
    ∧ Forall (within_first w) (interval_rows w (TestPy.df self))
    ∧ adjacent (starts_over w) (interval_rows w (TestPy.df self))
    ∧ adjacent (fun r r' =>
                  TestPy.start_time r' = Some (TestPy.end_time r + 60)%Z
                  ∧ gap_over w (TestPy.start_time r) (TestPy.start_time r'))
        results.
Proof.
  destruct (test_results_linked self w mc) as (results & Hres & Hadj).
  exists results. split; [exact Hres|].
  destruct (group_loop_shape w (TestPy.df self) [] [] (group_shape_start w))
    as (Hok & _ & Hwf & Hlink & Hlast).
  split; [|split; [|exact Hadj]].
  - unfold interval_rows. cbv zeta. apply Forall_app. split.
    + apply Forall_fmap. eapply Forall_impl; [exact Hok|].
      intros g (_ & Hw & _). exact Hw.
    + destruct ((group_loop w (TestPy.df self) [] []).2);
        repeat constructor. exact Hwf.
  - pose proof (interval_rows_starts w _ _ Hok Hlink Hlast) as H.
    unfold interval_rows. cbv zeta.
    destruct ((group_loop w (TestPy.df self) [] []).2); exact H.
Qed.

(** X19. With a window of at least one minute, every interval of
    [src/test.py] that is followed by another one ends after it starts. *)
Theorem test_end_after_start (self : TestPy.TowerJumpAnalyzer) (w mc : Q) :
  (1 <= w)%Q →
  ∃ results,
    TestPy.analyze_tower_jumps self w mc = Ok results
    ∧ adjacent (fun r r' =>
                  ∃ s, TestPy.start_time r = Some s
                       ∧ (s < TestPy.end_time r)%Z) results.
Proof.
  intros Hw. destruct (test_results_linked self w mc) as (results & Hres & Hadj).
  exists results. split; [exact Hres|].
  eapply adjacent_impl; [|exact Hadj]. intros r r' [Hnext Hover].
  rewrite Hnext in Hover. unfold gap_over in Hover.
  destruct (TestPy.start_time r) as [s|]; [|contradiction].
  exists s. split; [reflexivity|].
  apply not_true_iff_false in Hover. rewrite Qle_bool_iff in Hover.
  apply Qnot_le_lt in Hover.
  assert (H1 : (1 < inject_Z (TestPy.end_time r + 60 - s) / 60)%Q).
  { eapply Qle_lt_trans; [exact Hw|exact Hover]. }
  revert H1. unfold Qlt, Qdiv, Qmult, Qinv, inject_Z. simpl. lia.
Qed.

Lemma test_end_after_start_witness :
  ∃ results,
    TestPy.analyze_tower_jumps (Sample.frame (Sample.rows_of Sample.gap))
      5 (6 # 10) = Ok results
    ∧ map TestPy.end_time results = [540; 600]%Z
    ∧ adjacent (fun r r' =>
                  ∃ s, TestPy.start_time r = Some s
                       ∧ (s < TestPy.end_time r)%Z) results.
Proof.
  assert (Hw : (1 <= 5)%Q) by discriminate.
  destruct (test_end_after_start (Sample.frame (Sample.rows_of Sample.gap))
              5 (6 # 10) Hw) as (results & Hres & Hadj).
  exists results. split; [exact Hres|]. split; [|exact Hadj].
  vm_compute in Hres. injection Hres as <-. reflexivity.
Defined.

(** ** The imputation of [src/test.py] *)

Section TestImputer.
Import TestPy.

Lemma test_most_common_state_majority states :
  states ≠ [] → most_common_state states = Ok (majority states).
Proof.
  intros Hne. destruct (most_common_dominant _ Hne) as (d & Hd & _).
  unfold most_common_state, majority.
  destruct (most_common_1 (Counter states)); simpl in *; [discriminate|].
  injection Hd as ->. reflexivity.
Qed.

(** The second loop never raises when no bucket is empty. *)
Lemma test_most_common_states_majority (m : gmap (Z * Z) (list string)) :
  map_Forall (fun _ states => states ≠ []) m →
  most_common_states m = Ok (majority <$> m).
Proof.
  unfold most_common_states.
  apply (map_fold_weak_ind
           (fun r m => map_Forall (fun _ states => states ≠ []) m →
                       r = Ok (majority <$> m))).
  - intros _. rewrite fmap_empty. reflexivity.
  - intros k states m' r Hk IH Hall.
    apply map_Forall_insert in Hall as [Hne Hall]; [|exact Hk].
    rewrite (IH Hall). simpl.
    rewrite (test_most_common_state_majority _ Hne). simpl.
    rewrite fmap_insert. reflexivity.
Qed.

Lemma test_collect_step_known m row :
  collect_step m row
  = if known_row row
    then <[coord_key row :=
             default [] (m !! coord_key row) ++ [label_of row]]> m
    else m.
Proof.
  unfold collect_step, known_row, no_state, label_of.
  destruct (has_coordinates row); [|reflexivity].
  destruct (State row) as [s|]; [|reflexivity].
  simpl. destruct (eq_empty (Some s)); reflexivity.
Qed.

Lemma row_bucket_cons row df k :
  row_bucket (row :: df) k
  = (if known_row row && bool_decide (coord_key row = k)
     then [label_of row] else []) ++ row_bucket df k.
Proof.
  unfold row_bucket. simpl. destruct (_ && _); reflexivity.
Qed.

Lemma test_collect_foldl_bucket df : ∀ m k,
  foldl collect_step m df !! k
  = match row_bucket df k with
    | [] => m !! k
    | b => Some (default [] (m !! k) ++ b)
    end.
Proof.
  induction df as [|row df IH]; intros m k; [reflexivity|].
  cbn [foldl]. rewrite IH, row_bucket_cons, test_collect_step_known.
  destruct (known_row row); cbn [andb]; [|reflexivity].
  destruct (decide (coord_key row = k)) as [<-|Hne].
  - rewrite bool_decide_eq_true_2 by reflexivity. rewrite lookup_insert_eq.
    cbn [default app]. destruct (row_bucket df (coord_key row)); simpl.
    + reflexivity.
    + rewrite <- app_assoc. reflexivity.
  - rewrite bool_decide_eq_false_2 by exact Hne.
    rewrite lookup_insert_ne by exact Hne. reflexivity.
Qed.

(** The first loop gathers, under each rounded coordinate, the states of the
    rows found there, in the order of the frame. *)
Lemma test_collect_states_bucket df k :
  collect_states df !! k
  = match row_bucket df k with
    | [] => None
    | b => Some b
    end.
Proof.
  unfold collect_states. rewrite test_collect_foldl_bucket, lookup_empty.
  destruct (row_bucket df k); reflexivity.
Qed.

Lemma test_collect_states_nonempty df :
  map_Forall (fun _ states => states ≠ []) (collect_states df).
Proof.
  intros k b Hb. rewrite test_collect_states_bucket in Hb.
  destruct (row_bucket df k); [discriminate|]. injection Hb as <-.
  discriminate.
Qed.

Lemma fill_missing_locations_eq self :
  _fill_missing_locations self
  = Ok {| df := map (fill_row (majority <$> collect_states (df self)))
                  (df self) |}.
Proof.
  unfold _fill_missing_locations.
  rewrite (test_most_common_states_majority _ (test_collect_states_nonempty _)).
  reflexivity.
Qed.

Lemma known_row_label row : known_row row = true → label_of row ≠ "".
Proof.
  unfold known_row, no_state, label_of, eq_empty.
  destruct (has_coordinates row); [|discriminate].
  destruct (State row) as [[|a s]|]; simpl; discriminate.
Qed.

Lemma row_bucket_labels df k : Forall (fun s => s ≠ "") (row_bucket df k).
Proof.
  induction df as [|row df IH]; [constructor|].
  rewrite row_bucket_cons. apply Forall_app. split; [|exact IH].
  destruct (known_row row) eqn:Ek; cbn [andb]; [|constructor].
  destruct (bool_decide _); repeat constructor.
  apply known_row_label, Ek.
Qed.

Lemma row_bucket_nil df k :
  row_bucket df k = [] ↔
  Forall (fun r => known_row r = true → coord_key r ≠ k) df.
Proof.
  induction df as [|row df IH]; [split; [constructor|reflexivity]|].
  rewrite row_bucket_cons, Forall_cons, <- IH.
  destruct (known_row row); cbn [andb].
  - destruct (decide (coord_key row = k)) as [He|Hne].
    + rewrite bool_decide_eq_true_2 by exact He. simpl.
      split; [discriminate|]. intros [H _]. exfalso. exact (H eq_refl He).
    + rewrite bool_decide_eq_false_2 by exact Hne. simpl.
      split; [intros H; split; [intros _; exact Hne|exact H]|intros [_ H]; exact H].
  - simpl. split; [intros H; split; [discriminate|exact H]|intros [_ H]; exact H].
Qed.

Lemma majority_filled df k :
  row_bucket df k ≠ [] →
  majority (row_bucket df k) ≠ "" ∧ dominant (majority (row_bucket df k)) (row_bucket df k).
Proof.
  intros Hne. split; [|apply majority_dominant, Hne].
  pose proof (row_bucket_labels df k) as Hl. rewrite Forall_forall in Hl.
  apply Hl, majority_elem, Hne.
Qed.

(** What the third loop does to a row. *)
Lemma fill_row_bucket df r :
  fill_row (majority <$> collect_states df) r
  = if fillable r then
      match row_bucket df (coord_key r) with
      | [] => r
      | b => set_State r (majority b)
      end
    else r.
Proof.
  unfold fill_row, fillable, no_state.
  destruct ((isna (State r) || eq_empty (State r)) && has_coordinates r);
    [|reflexivity].
  rewrite lookup_fmap, test_collect_states_bucket.
  destruct (row_bucket df (coord_key r)); reflexivity.
Qed.

Lemma no_state_set_State r s : s ≠ "" → no_state (set_State r s) = false.
Proof. intros Hs. unfold no_state. simpl. destruct s; [contradiction|reflexivity]. Qed.

Lemma fill_row_known df r :
  known_row (fill_row (majority <$> collect_states df) r) = true →
  row_bucket df (coord_key r) = [] → known_row r = true.
Proof.
  rewrite fill_row_bucket. intros Hk Hb. rewrite Hb in Hk.
  destruct (fillable r); exact Hk.
Qed.

Lemma fill_row_coord_key m r : coord_key (fill_row m r) = coord_key r.
Proof.
  unfold fill_row. destruct (_ && _); [|reflexivity].
  destruct (m !! coord_key r); reflexivity.
Qed.

(** The first run creates no bucket. *)
Lemma second_row_bucket df k :
  row_bucket df k = [] →
  row_bucket (map (fill_row (majority <$> collect_states df)) df) k = [].
Proof.
  intros Hb. apply row_bucket_nil. apply Forall_fmap, Forall_forall.
  intros r Hr. simpl. rewrite fill_row_coord_key. intros Hk <-.
  apply (fill_row_known df r Hk) in Hb as Hk'.
  apply row_bucket_nil in Hb. rewrite Forall_forall in Hb.
  exact (Hb r Hr Hk' eq_refl).
Qed.

Lemma fillable_set_State r s : s ≠ "" → fillable (set_State r s) = false.
Proof. intros Hs. unfold fillable. rewrite (no_state_set_State r s Hs). reflexivity. Qed.

(** The second run leaves every row of the first run as it is. *)
Lemma fill_row_fixed df r :
  let df' := map (fill_row (majority <$> collect_states df)) df in
  fill_row (majority <$> collect_states df')
    (fill_row (majority <$> collect_states df) r)
  = fill_row (majority <$> collect_states df) r.
Proof.
  intros df'. rewrite (fill_row_bucket df r).
  destruct (fillable r) eqn:Ef;
    [|rewrite fill_row_bucket, Ef; reflexivity].
  destruct (row_bucket df (coord_key r)) as [|s b] eqn:Eb.
  - rewrite fill_row_bucket, Ef. unfold df'.
    rewrite (second_row_bucket df _ Eb). reflexivity.
  - rewrite fill_row_bucket, fillable_set_State; [reflexivity|].
    rewrite <- Eb. apply majority_filled. rewrite Eb. discriminate.
Qed.

End TestImputer.

(** X20. [_fill_missing_locations] of [src/test.py] always returns and
    changes nothing but states: the rows keep their order, and a row is
    changed only if it has no state and has usable coordinates, in which case
    it receives a non-empty state that is most frequent among the states of
    the rows at the same rounded coordinates. *)
Theorem test_fill_majority (self : TestPy.TowerJumpAnalyzer) :
  ∃ self',
    TestPy._fill_missing_locations self = Ok self'
    ∧ Forall2 (fun r r' =>
                 r' = r
                 ∨ (fillable r = true
                    ∧ ∃ d, r' = TestPy.set_State r d
                           ∧ d ≠ ""
                           ∧ dominant d
                               (row_bucket (TestPy.df self)
                                  (TestPy.coord_key r))))
        (TestPy.df self) (TestPy.df self').
Proof.
  eexists. split; [apply fill_missing_locations_eq|]. cbn [TestPy.df].
  apply Forall2_fmap_r, Forall_Forall2_diag, Forall_forall. intros r _.
  unfold compose. rewrite fill_row_bucket.
  destruct (fillable r) eqn:Ef; [|left; reflexivity].
  destruct (row_bucket (TestPy.df self) (TestPy.coord_key r)) as [|s b] eqn:Eb;
    [left; reflexivity|].
  right. split; [reflexivity|]. exists (majority (s :: b)).
  split; [reflexivity|]. rewrite <- Eb. apply majority_filled.
  rewrite Eb. discriminate.
Qed.

(** X21. [_fill_missing_locations] of [src/test.py] is idempotent and
    complete: a second run on its result returns that result again, no row
    that has a state is changed, and a row still without a state after the run
    has no usable coordinates or no row of the frame has a state at its
    rounded coordinates. *)
Theorem test_fill_idempotent (self : TestPy.TowerJumpAnalyzer) :
  ∃ self',
    TestPy._fill_missing_locations self = Ok self'
    ∧ TestPy._fill_missing_locations self' = Ok self'
    ∧ Forall2 (fun r r' => no_state r = false → r' = r)
        (TestPy.df self) (TestPy.df self')
    ∧ Forall (fun r' =>
                no_state r' = true →
                TestPy.has_coordinates r' = false
                ∨ Forall (fun r => known_row r = true →
                                   TestPy.coord_key r ≠ TestPy.coord_key r')
                    (TestPy.df self))
        (TestPy.df self').
Proof.
  eexists. split; [apply fill_missing_locations_eq|]. split; [|split].
  - rewrite fill_missing_locations_eq. cbn [TestPy.df]. do 2 f_equal.
    rewrite map_map. apply map_ext. intros r. apply fill_row_fixed.
  - cbn [TestPy.df]. apply Forall2_fmap_r, Forall_Forall2_diag, Forall_forall.
    intros r _ Hs. unfold compose. rewrite fill_row_bucket. unfold fillable.
    rewrite Hs.
    reflexivity.
  - cbn [TestPy.df]. apply Forall_fmap, Forall_forall. intros r _. simpl.
    rewrite fill_row_bucket. destruct (fillable r) eqn:Ef.
    + destruct (row_bucket (TestPy.df self) (TestPy.coord_key r)) as [|s b]
        eqn:Eb.
      * intros _. right. apply row_bucket_nil, Eb.
      * rewrite no_state_set_State; [discriminate|].
        rewrite <- Eb. apply majority_filled. rewrite Eb. discriminate.
    + intros Hs. left. unfold fillable in Ef. rewrite Hs in Ef. exact Ef.
Qed.

(** ** The confidence reported by [src/test.py] *)

Lemma test_results_labels self w mc (P : list string → TestPy.result_row → Prop) :
  (∀ start e labels r,
     TestPy.close_interval start e labels mc = Ok r → P labels r) →
  ∃ results,
    TestPy.analyze_tower_jumps self w mc = Ok results
    ∧ Forall2 P (interval_labels w (TestPy.df self)) results.
Proof.
  intros Hclose. destruct (test_analyze_groups self w mc) as (rs & HF & Hfin).
  unfold interval_labels. cbv zeta.
  assert (HF' : Forall2 P
             (map (fun c => map label_of (group_members c))
                (group_loop w (TestPy.df self) [] []).1) rs).
  { clear Hfin. induction HF as [|g r gs rs' [_ Hc] _ IH]; simpl;
      constructor; [|exact IH].
    eapply Hclose. exact Hc. }
  destruct ((group_loop w (TestPy.df self) [] []).2) as [|first cur].
  - exists rs. split; [exact Hfin|]. rewrite app_nil_r. exact HF'.
  - destruct Hfin as (last_row & r & _ & Hc & Ha).
    exists (rs ++ [r]). split; [exact Ha|].
    apply Forall2_app; [exact HF'|]. constructor; [|constructor].
    eapply Hclose. exact Hc.
Qed.

Lemma occurrences_all x l :
  occurrences x l = length l ↔ ∀ y, y ∈ l → y = x.
Proof.
  induction l as [|a l IH]; simpl.
  - split; [intros _ y Hy; apply elem_of_nil in Hy; contradiction|reflexivity].
  - pose proof (occurrences_le_length x l) as Hle.
    destruct (decide (x = a)) as [<-|Hne].
    + split.
      * intros H y Hy. apply elem_of_cons in Hy as [->|Hy]; [reflexivity|].
        apply IH; [lia|exact Hy].
      * intros H. f_equal. apply IH. intros y Hy. apply H. right. exact Hy.
    + split; [lia|]. intros H. exfalso. apply Hne. symmetry. apply H. left.
Qed.

Lemma share_percent d labels :
  d ∈ labels →
  (0 < share d labels * 100 <= 100)%Q
  ∧ ((share d labels * 100 == 100)%Q ↔ occurrences d labels = length labels).
Proof.
  intros Hd. apply occurrences_elem in Hd.
  pose proof (occurrences_le_length d labels) as Hle.
  unfold share, truediv.
  set (n := occurrences d labels) in *. set (t := length labels) in *.
  unfold Qlt, Qle, Qeq, Qdiv, Qmult, Qinv, inject_Z.
  destruct t as [|t]; [lia|]. simpl. lia.
Qed.

(** X22. The confidence that [src/test.py] reports for an interval is the
    share of the reported state among the interval's labels, in percent and
    not rounded: above 0 and at most 100, equal to 100 exactly when all the
    labels of the interval are the reported state, and below 100 and below
    [min_confidence] in percent on every interval flagged ["yes"]. *)
Theorem test_confidence_range (self : TestPy.TowerJumpAnalyzer) (w mc : Q) :
  ∃ results,
    TestPy.analyze_tower_jumps self w mc = Ok results
    ∧ Forall2 (fun labels r =>
                 TestPy.confidence r
                 = (share (TestPy.state r) labels * 100)%Q
                 ∧ (0 < TestPy.confidence r <= 100)%Q
                 ∧ ((TestPy.confidence r == 100)%Q ↔
                    ∀ x, x ∈ labels → x = TestPy.state r)
                 ∧ (TestPy.is_tower_jump r = "yes" →
                    (TestPy.confidence r < mc * 100)%Q
                    ∧ (TestPy.confidence r < 100)%Q))
        (interval_labels w (TestPy.df self)) results.
Proof.
  apply test_results_labels. intros start e labels r Hc.
  destruct (close_interval_spec _ _ _ _ _ Hc)
    as (_ & _ & _ & [Hin _] & Hconf & _ & Hrule).
  destruct (share_percent _ _ Hin) as [Hrange Hfull].
  change (truediv (occurrences (TestPy.state r) labels) (length labels))
    with (share (TestPy.state r) labels) in Hconf.
  rewrite Hconf. split; [reflexivity|]. split; [exact Hrange|].
  split; [rewrite Hfull; apply occurrences_all|].
  intros Hyes. apply Hrule in Hyes as [(a & b & Ha & Hb & Hab) Hlt]. split.
  - apply Qmult_lt_compat_r; [reflexivity|exact Hlt].
  - destruct Hrange as [_ Hle].
    apply Qle_lt_or_eq in Hle as [Hlt'|Heq]; [exact Hlt'|].
    exfalso. apply Hfull in Heq. rewrite occurrences_all in Heq.
    apply Hab. rewrite (Heq a Ha), (Heq b Hb). reflexivity.
Qed.
